(** * NFe status monitor: parse, enrich, SCD2 persistence and retention

    A shallow embedding of [extraction_jobs/python/nfe_status.py] and the
    properties of its key normaliser, table extractor, metadata enricher,
    SCD2 persister, retention pruner and snapshot exporter. *)

From Stdlib Require Import ZArith NArith Lia Ascii String.
From stdpp Require Import gmap strings list.

Local Open Scope N_scope.

(** ** Text: Python [str] values

    A Python [str] is a sequence of Unicode code points. *)

Definition ustring := list N.

(** Code points of a UTF-8 encoded literal, so that Python literals can be
    written as Rocq string literals. *)
Fixpoint utf8_decode (bs : list N) : ustring :=
  match bs with
  | [] => []
  | b0 :: t0 =>
      if b0 <? 128 then b0 :: utf8_decode t0
      else match t0 with
           | [] => []
           | b1 :: t1 =>
               if b0 <? 224 then (b0 mod 32 * 64 + b1 mod 64) :: utf8_decode t1
               else match t1 with
                    | [] => []
                    | b2 :: t2 =>
                        if b0 <? 240
                        then (b0 mod 16 * 4096 + b1 mod 64 * 64 + b2 mod 64)
                               :: utf8_decode t2
                        else match t2 with
                             | [] => []
                             | b3 :: t3 =>
                                 (b0 mod 8 * 262144 + b1 mod 64 * 4096
                                  + b2 mod 64 * 64 + b3 mod 64)
                                   :: utf8_decode t3
                             end
                    end
           end
  end.

Definition u (s : string) : ustring :=
  utf8_decode (N_of_ascii <$> list_ascii_of_string s).

Definition underscore : N := 95.

Definition is_digit (c : N) : bool := (48 <=? c) && (c <=? 57).
Definition is_upper (c : N) : bool := (65 <=? c) && (c <=? 90).
Definition is_lower (c : N) : bool := (97 <=? c) && (c <=? 122).

(** The class [[a-zA-Z0-9]] of the first regular expression. *)
Definition is_alnum (c : N) : bool := is_lower c || is_upper c || is_digit c.

Definition is_ascii (c : N) : bool := c <? 128.

(** [str.lower] on one ASCII character. *)
Definition ascii_lower (c : N) : N := if is_upper c then c + 32 else c.

(** A [datetime] value, stored as Python stores it: the calendar and clock
    fields and the [tzinfo] ([None] for a naive value). A [tzinfo] is taken as
    what its [utcoffset] method computes: the UTC offset, in microseconds, at
    a wall-clock time, itself in microseconds since 0001-01-01T00:00:00 on
    that clock. It is constant for a [timezone] and depends on the date for a
    [ZoneInfo]. *)
Record datetime := {
  year : Z; month : Z; day : Z;
  hour : Z; minute : Z; second : Z; microsecond : Z;
  tzinfo : option (Z -> Z)
}.

(** ** The Python runtime

    The functions of [unicodedata], [str], [re] and [datetime] that the
    program calls are library code. They are taken as an interface, with the
    facts about them that the program relies on: ASCII text has no canonical
    decomposition, no ASCII character is a combining mark (category [Mn]),
    and [str.lower] acts on ASCII text character by character. *)
Class PyRuntime := {
  (** [unicodedata.normalize('NFD', s)] *)
  nfd : ustring -> ustring;
  (** [unicodedata.category(c) == 'Mn'] *)
  category_Mn : N -> bool;
  (** [s.lower()] *)
  lower : ustring -> ustring;
  (** [TS_RE.search(text)] and, on a match, [match.group(1)] *)
  ts_re_search : ustring -> option ustring;
  (** [datetime.strptime(s, "%d/%m/%Y %H:%M:%S")]; [None] is [ValueError] *)
  strptime : ustring -> option datetime;
  (** [d.isoformat()] *)
  isoformat : datetime -> ustring;
  (** [datetime.fromisoformat(s)]; [None] is [ValueError] *)
  fromisoformat : ustring -> option datetime;
  nfd_ascii : forall s, forallb is_ascii s = true -> nfd s = s;
  category_Mn_ascii : forall c, is_ascii c = true -> category_Mn c = false;
  lower_ascii : forall s, forallb is_ascii s = true -> lower s = ascii_lower <$> s
}.

(** ** Key normaliser *)

(** [re.sub(r'[^a-zA-Z0-9]', '_', key)] *)
Definition sub_non_alnum (key : ustring) : ustring :=
  (fun c => if is_alnum c then c else underscore) <$> key.

(** [re.sub(r'_+', '_', key)]: every maximal run of underscores becomes one
    underscore. *)
Fixpoint sub_underscores (key : ustring) : ustring :=
  match key with
  | [] => []
  | c :: t =>
      if c =? underscore
      then match t with
           | d :: _ => if d =? underscore then sub_underscores t
                       else c :: sub_underscores t
           | [] => [c]
           end
      else c :: sub_underscores t
  end.

Fixpoint lstrip (ch : N) (s : ustring) : ustring :=
  match s with
  | [] => []
  | c :: t => if c =? ch then lstrip ch t else s
  end.

Definition rstrip (ch : N) (s : ustring) : ustring :=
  reverse (lstrip ch (reverse s)).

(** [s.strip('_')] *)
Definition strip (ch : N) (s : ustring) : ustring := rstrip ch (lstrip ch s).

Definition normalize_key `{PyRuntime} (key : ustring) : ustring :=
  let key := filter (fun c => category_Mn c = false) (nfd key) in
  let key := sub_non_alnum key in
  let key := sub_underscores key in
  lower (strip underscore key).

(** The characters left by the first substitution: [[a-zA-Z0-9_]]. *)
Definition is_word_char (c : N) : bool := is_alnum c || (c =? underscore).

(** The shape of a normalised key. *)
Definition is_key_char (c : N) : bool :=
  is_lower c || is_digit c || (c =? underscore).

Fixpoint has_double_underscore (s : ustring) : bool :=
  match s with
  | [] => false
  | c :: t =>
      match t with
      | d :: _ => ((c =? underscore) && (d =? underscore))
                  || has_double_underscore t
      | [] => false
      end
  end.

Definition normalized (s : ustring) : Prop :=
  forallb is_key_char s = true
  /\ head s <> Some underscore
  /\ last s <> Some underscore
  /\ has_double_underscore s = false.

#[global] Instance normalized_dec s : Decision (normalized s).
Proof. unfold normalized. apply _. Defined.


(** ** Rows and snapshots *)

(** The values a row holds: [None], a string, or a list of strings (the UF
    lists of the reference data). *)
Inductive value :=
  | VNone
  | VStr (s : ustring)
  | VList (l : list ustring).

#[global] Instance value_eq_dec : EqDecision value.
Proof. solve_decision. Defined.

(** A row is a Python [dict] with string keys; [==] on dicts is equality of
    the finite maps. *)
Abbreviation Row := (gmap ustring value).

(** The data class [NFEResult]. *)
Record NFEResult := {
  checked_at : option ustring;
  statuses : list Row;
  success : bool;
  error_message : option ustring
}.

(** *** Text that can leave the program

    A Python string can hold a NUL character and lone surrogates
    (U+D800..U+DFFF). Neither can be sent to the server as a text parameter:
    psycopg2 raises [ValueError] for the first and, encoding the text,
    [UnicodeEncodeError] for the second. [json.dumps] and [json.dump] with
    [ensure_ascii=False] escape the control characters, NUL among them, and
    leave a surrogate as it is, which then fails to encode. *)
Definition is_surrogate (c : N) : bool := (55296 <=? c) && (c <=? 57343).

Definition encodable (s : ustring) : bool :=
  forallb (fun c => negb (is_surrogate c)) s.

Definition sendable (s : ustring) : bool :=
  forallb (fun c => negb (c =? 0)) s && encodable s.

(** The strings of a value, and a row whose JSON text can be encoded: no
    key and no string in it holds a surrogate. *)
Definition value_strings (v : value) : list ustring :=
  match v with
  | VNone => []
  | VStr s => [s]
  | VList l => l
  end.

Definition row_encodable (row : Row) : bool :=
  forallb (fun kv : ustring * value =>
             encodable kv.1 && forallb encodable (value_strings kv.2))
          (map_to_list row).

(** ** Static reference data *)

Definition IMG_MAP : gmap ustring ustring :=
  list_to_map
    [ (u "bola_verde_P.png", u "verde");
      (u "bola_amarela_P.png", u "amarelo");
      (u "bola_vermelho_P.png", u "vermelho");
      (u "bola_cinza_P.png", u "cinza") ].

(** [AUTORIZADOR_INFO]: a dict iterated in insertion order, so an
    association list. *)
Definition AUTORIZADOR_INFO : list (ustring * list (ustring * value)) :=
  [ (u "SVAN",
      [ (u "tipo", VStr (u "Sefaz Virtual Ambiente Nacional"));
        (u "ufs_autorizador", VList [u "MA"]) ]);
    (u "SVRS",
      [ (u "tipo", VStr (u "Sefaz Virtual Rio Grande do Sul"));
        (u "ufs_autorizador",
          VList (u <$> ["AC";"AL";"AP";"CE";"DF";"ES";"PA";"PB";"PI";"RJ";"RN";
                        "RO";"RR";"SC";"SE";"TO"]%string));
        (u "ufs_consulta_cadastro",
          VList (u <$> ["AC";"ES";"RN";"PB";"SC"]%string)) ]);
    (u "SVC-AN",
      [ (u "tipo", VStr (u "Contingência Nacional"));
        (u "ufs_contingencia",
          VList (u <$> ["AC";"AL";"AP";"CE";"DF";"ES";"MG";"PA";"PB";"PI";"RJ";
                        "RN";"RO";"RR";"RS";"SC";"SE";"SP";"TO"]%string)) ]);
    (u "SVC-RS",
      [ (u "tipo", VStr (u "Contingência RS"));
        (u "ufs_contingencia",
          VList (u <$> ["AM";"BA";"GO";"MA";"MS";"MT";"PE";"PR"]%string)) ]) ].

(** ** Table extractor

    The HTML is parsed by BeautifulSoup; the model starts from what the
    program reads off the parsed tree. A cell is a [td]: the [src] attribute
    of its first [img] descendant, if it has one ([Some None] is an [img]
    without that attribute), and its text as [get_text(strip=True)] returns
    it. A table row is a [tr]: the texts of its [th] descendants and its [td]
    descendants. A table has the text of its caption, if any, as
    [get_text(separator=" ")] returns it, and its [tr] descendants. *)
Record Cell := { img : option (option ustring); text : ustring }.
Record Tr := { ths : list ustring; tds : list Cell }.
Record Table := { caption : option ustring; trs : list Tr }.

Definition expected_headers : list ustring := [u "Autorizador"; u "Status"].

(** [validate_table(table, logger)]; [table] is [None] when [soup.find]
    found no table. *)
Definition validate_table (table : option Table) : bool :=
  match table with
  | None => false
  | Some t =>
      match trs t with
      | [] => false
      | headers :: _ =>
          let th_elements := ths headers in
          if (length th_elements <? 2)%nat then false
          else
            let found_headers := th_elements in
            if existsb (fun header => bool_decide (header ∈ found_headers))
                 expected_headers
            then true else false
      end
  end.

Section Extractor.
Context `{PyRuntime}.

(** [parse_timestamp(caption, logger)] *)
Definition parse_timestamp (caption : option ustring) : option datetime :=
  match caption with
  | None => None
  | Some caption_text =>
      match ts_re_search caption_text with
      | None => None
      | Some group1 => strptime group1
      end
  end.

Fixpoint take_until (sep : N) (s : ustring) : ustring :=
  match s with
  | [] => []
  | c :: t => if c =? sep then [] else c :: take_until sep t
  end.

(** [s.split(sep)[-1]] *)
Definition split_last (sep : N) (s : ustring) : ustring :=
  reverse (take_until sep (reverse s)).

(** The value of one cell; [None] is the [KeyError] of [img["src"]]. *)
Definition cell_value (cell : Cell) : option value :=
  match img cell with
  | Some attr =>
      src ← attr;
      let filename := split_last 47 src in
      Some (VStr (default (u "desconhecido") (IMG_MAP !! filename)))
  | None =>
      Some (match text cell with
            | [] => VNone
            | _ :: _ => VStr (text cell)
            end)
  end.

(** The loop over the cells of one row: [hc] pairs each cell with the
    header at its index; [row] and [autorizador] are the loop's
    variables. *)
Fixpoint parse_cells (hc : list (ustring * Cell)) (row : Row) (autorizador : value)
  : option (Row * value) :=
  match hc with
  | [] => Some (row, autorizador)
  | (header, cell) :: rest =>
      let key := normalize_key header in
      v ← cell_value cell;
      let row := <[key := v]> row in
      let autorizador :=
        if decide (key = u "autorizador") then v else autorizador in
      parse_cells rest row autorizador
  end.

(** [autorizador in val], for [val] a list. *)
Definition value_in (autorizador : value) (val : list ustring) : bool :=
  match autorizador with
  | VStr s => bool_decide (s ∈ val)
  | _ => false
  end.

(** The inner loop over [info.values()]: [Some meta] when it reaches its
    [break], [None] when it runs to the end. *)
Fixpoint scan_values (code : ustring) (autorizador : value)
    (vals : list value) : option (list (ustring * value)) :=
  match vals with
  | [] => None
  | val :: rest =>
      match val with
      | VList l =>
          if value_in autorizador l
          then Some [(u "relacionado_a", VStr code)]
          else scan_values code autorizador rest
      | _ => scan_values code autorizador rest
      end
  end.

(** The outer loop over [AUTORIZADOR_INFO.items()]: the [break] leaves the
    inner loop only, so the scan goes on with the next entry. *)
Fixpoint scan_info (autorizador : value)
    (items : list (ustring * list (ustring * value)))
    (meta : list (ustring * value)) : list (ustring * value) :=
  match items with
  | [] => meta
  | (code, info) :: rest =>
      match scan_values code autorizador (snd <$> info) with
      | Some meta' => scan_info autorizador rest meta'
      | None => scan_info autorizador rest meta
      end
  end.

Fixpoint dict_get {A} (k : ustring) (d : list (ustring * A)) : option A :=
  match d with
  | [] => None
  | (k', a) :: rest => if decide (k = k') then Some a else dict_get k rest
  end.

(** [AUTORIZADOR_INFO.get(autorizador, {})] followed by the scan when the
    result is empty. *)
Definition enrich_meta (autorizador : value) : list (ustring * value) :=
  let meta :=
    match autorizador with
    | VStr s => default [] (dict_get s AUTORIZADOR_INFO)
    | _ => []
    end in
  match meta with
  | [] => scan_info autorizador AUTORIZADOR_INFO meta
  | _ :: _ => meta
  end.

(** [row.update({normalize_key(k): v for k, v in meta.items()})] *)
Definition row_update (row : Row) (meta : list (ustring * value)) : Row :=
  foldl (fun r kv => <[normalize_key kv.1 := kv.2]> r) row meta.

(** The body of the loop over the data rows: [None] when the row is
    skipped, by the cell count or by an exception. *)
Definition parse_row (headers : list ustring) (tr : Tr) : option Row :=
  let cells := tds tr in
  if decide (length cells ≠ length headers) then None
  else
    '(row, autorizador) ← parse_cells (zip headers cells) ∅ VNone;
    Some (row_update row (enrich_meta autorizador)).

Definition failed (message : ustring) : NFEResult :=
  {| checked_at := None; statuses := []; success := false;
     error_message := Some message |}.

(** [parse_and_enrich], from the table that [soup.find] returned. The last
    two branches are not reached: a validated table has a header row. *)
Definition parse_and_enrich (table : option Table) : NFEResult :=
  if negb (validate_table table) then failed (u "Invalid table structure")
  else
    match table with
    | Some t =>
        match trs t with
        | header_row :: data_rows =>
            let headers := ths header_row in
            let ts := parse_timestamp (caption t) in
            let rows := omap (parse_row headers) data_rows in
            {| checked_at := isoformat <$> ts; statuses := rows;
               success := true; error_message := None |}
        | [] => failed []
        end
    | None => failed []
    end.

End Extractor.

(** The status vocabulary. *)
Definition status_vocabulary : list ustring :=
  [u "verde"; u "amarelo"; u "vermelho"; u "cinza"; u "desconhecido"].

(** The keys of the metadata that enrichment can attach. *)
Definition meta_keys : list ustring :=
  [u "tipo"; u "ufs_autorizador"; u "ufs_consulta_cadastro"; u "ufs_contingencia";
   u "relacionado_a"].

(** Whether a list-valued attribute of a reference entry contains the
    identifier. *)
Definition contains (autorizador : value) (entry : ustring * list (ustring * value))
  : bool :=
  existsb (fun val => match val with
                      | VList l => value_in autorizador l
                      | _ => false
                      end) (snd <$> entry.2).

(** The back-reference as the specification words it: the code of the first
    reference entry, in reference-data order, one of whose list-valued
    attributes contains the identifier. *)
Definition first_containing (autorizador : value) : option ustring :=
  fst <$> head (filter (fun e => contains autorizador e = true) AUTORIZADOR_INFO).

(** The code of the last such entry. *)
Definition last_containing (autorizador : value) : option ustring :=
  fst <$> last (filter (fun e => contains autorizador e = true) AUTORIZADOR_INFO).

(** ** Instants

    Timestamps are stored and compared as instants: microseconds since
    0001-01-01T00:00:00 UTC. (The columns are of type [TIMESTAMP]; the server
    converts the aware values it is given with the time zone of its session,
    the same way when it stores them and when it compares with them.) *)

Local Close Scope N_scope.
Local Open Scope Z_scope.

Definition is_leap (y : Z) : bool :=
  (y mod 4 =? 0) && (negb (y mod 100 =? 0) || (y mod 400 =? 0)).

Definition days_in_month (y m : Z) : Z :=
  if m =? 2 then (if is_leap y then 29 else 28)
  else if (m =? 4) || (m =? 6) || (m =? 9) || (m =? 11) then 30 else 31.

Definition days_before_year (y : Z) : Z :=
  let y1 := y - 1 in y1 * 365 + y1 / 4 - y1 / 100 + y1 / 400.

Definition days_before_month (y m : Z) : Z :=
  foldr (fun k acc => days_in_month y k + acc) 0 (seqZ 1 (m - 1)).

(** [d.toordinal()] *)
Definition toordinal (d : datetime) : Z :=
  days_before_year (year d) + days_before_month (year d) (month d) + day d.

Definition microseconds_per_day : Z := 86400000000.

(** The wall-clock time of [d]: its fields without the [tzinfo]. *)
Definition wall_clock (d : datetime) : Z :=
  (toordinal d - 1) * microseconds_per_day
  + ((hour d * 60 + minute d) * 60 + second d) * 1000000 + microsecond d.

(** [tz.utcoffset(...)] at the wall-clock time [w]; a naive value is read as
    UTC ([d.replace(tzinfo=timezone.utc)]). *)
Definition utcoffset_at (tz : option (Z -> Z)) (w : Z) : Z :=
  match tz with
  | Some offset => offset w
  | None => 0
  end.

(** The instant that [d] denotes. *)
Definition utc_instant (d : datetime) : Z :=
  wall_clock d - utcoffset_at (tzinfo d) (wall_clock d).

(** The wall-clock times that a [datetime] can hold: from
    0001-01-01T00:00:00 to 9999-12-31T23:59:59.999999 (the day of ordinal
    3652059). Arithmetic that leaves them raises [OverflowError]. *)
Definition in_range (w : Z) : bool :=
  (0 <=? w) && (w <? 3652059 * microseconds_per_day).

(** [d.astimezone(timezone.utc)], as an instant: the offset is subtracted on
    the wall clock, which raises [OverflowError] ([None]) out of range. *)
Definition astimezone_utc (d : datetime) : option Z :=
  if in_range (utc_instant d) then Some (utc_instant d) else None.

(** [timedelta(days=days)], in microseconds; [OverflowError] ([None]) for
    more than 999999999 days. *)
Definition timedelta_days (days : Z) : option Z :=
  if Z.abs days <=? 999999999 then Some (days * microseconds_per_day) else None.

(** ** History store *)

Record Config := { RETENTION_MAX_DAYS : Z }.

(** One row of the table: [id], [autorizador], [status_json], [valid_from],
    [valid_to] (nullable) and [is_current] (an integer column). The column
    [status_json] holds [json.dumps(row)], which [json.loads] turns back into
    a dict equal to [row] for rows of the value type above; it is represented
    by the row it decodes to. *)
Record HistoryRecord := {
  rec_id : Z;
  autorizador : ustring;
  status_json : Row;
  valid_from : Z;
  valid_to : option Z;
  is_current : Z
}.

#[global] Instance HistoryRecord_eq_dec : EqDecision HistoryRecord.
Proof. solve_decision. Defined.

(** The committed state: the table in insertion order and the next value of
    the [SERIAL] sequence of [id]. *)
Record database := { table : list HistoryRecord; id_seq : Z }.

Definition empty_database : database := {| table := []; id_seq := 1 |}.

(** *** Connections

    A session is what one connection sees: the committed table, the table as
    the open transaction has changed it, the sequence (which a rollback does
    not rewind), and what happens at the calls to come: one entry per call,
    [Some e] when the call raises [e]; past the end of the list every call
    succeeds.

    The program tells three kinds of exceptions apart:
    [psycopg2.OperationalError], which [get_db_connection] catches; the other
    subclasses of [Exception] ([NFEMonitorError], [RuntimeError],
    [ValueError], [OverflowError], the other errors of psycopg2, ...), which
    the [except Exception] clauses catch; and [KeyboardInterrupt], which only
    [run] catches. A [KeyboardInterrupt] arrives between two calls; it is
    placed at the call that the program would make next, be it in the
    function that is running or, after its last call, in the caller. *)
Inductive exn :=
  | OperationalError
  | OtherException
  | KeyboardInterrupt.

#[global] Instance exn_eq_dec : EqDecision exn.
Proof. solve_decision. Defined.

(** [isinstance(e, Exception)] *)
Definition is_Exception (e : exn) : bool :=
  match e with
  | KeyboardInterrupt => false
  | _ => true
  end.

Record session := {
  durable : list HistoryRecord;
  pending : list HistoryRecord;
  seq : Z;
  faults : list (option exn)
}.

Inductive outcome (A : Type) :=
  | Ok (a : A)
  | Raised (e : exn).
Arguments Ok {A} a.
Arguments Raised {A} e.

#[global] Instance outcome_eq_dec `{EqDecision A} : EqDecision (outcome A).
Proof. solve_decision. Defined.

(** [try: ... except Exception: return a] around code that ended with [r]. *)
Definition except_Exception {A} (r : outcome A) (a : A) : outcome A :=
  match r with
  | Ok b => Ok b
  | Raised e => if is_Exception e then Ok a else Raised e
  end.

(** Code that talks to the server: it changes the session and returns or
    raises. *)
Definition DB (A : Type) : Type := session -> outcome A * session.

#[global] Instance DB_ret : MRet DB := fun A a s => (Ok a, s).

#[global] Instance DB_bind : MBind DB := fun A B k m s =>
  match m s with
  | (Ok a, s') => k a s'
  | (Raised e, s') => (Raised e, s')
  end.

Definition raise {A} (e : exn) : DB A := fun s => (Raised e, s).

(** [try: m except Exception as e: log] *)
Definition swallow (m : DB unit) : DB unit :=
  fun s => let '(r, s') := m s in (except_Exception r tt, s').

(** One call to the server. *)
Definition call : DB unit :=
  fun s => match faults s with
           | [] => (Ok tt, s)
           | f :: rest =>
               let s' := {| durable := durable s; pending := pending s;
                            seq := seq s; faults := rest |} in
               match f with
               | Some e => (Raised e, s')
               | None => (Ok tt, s')
               end
           end.

(** Two sessions with the same tables and sequence. *)
Definition same_data (s s' : session) : Prop :=
  durable s' = durable s /\ pending s' = pending s /\ seq s' = seq s.

Definition read : DB (list HistoryRecord) := fun s => (Ok (pending s), s).

Definition write (t : list HistoryRecord) : DB unit :=
  fun s => (Ok tt, {| durable := durable s; pending := t;
                      seq := seq s; faults := faults s |}).

(** [nextval] of the sequence. *)
Definition nextval : DB Z :=
  fun s => (Ok (seq s), {| durable := durable s; pending := pending s;
                           seq := seq s + 1; faults := faults s |}).

Definition make_durable : DB unit :=
  fun s => (Ok tt, {| durable := pending s; pending := pending s;
                      seq := seq s; faults := faults s |}).

(** [conn.commit()] *)
Definition commit : DB unit := call;; make_durable.

Definition open (db : database) (fs : list (option exn)) : session :=
  {| durable := table db; pending := table db; seq := id_seq db; faults := fs |}.

(** [conn.close()]: what was not committed is rolled back. *)
Definition rollback (s : session) : session :=
  {| durable := durable s; pending := durable s; seq := seq s; faults := faults s |}.

(** The committed state that a session leaves behind. *)
Definition close (s : session) : database :=
  {| table := durable s; id_seq := seq s |}.

(** *** The statements *)

(** The record with the greatest [valid_from], the first such in table
    order: [ORDER BY valid_from DESC LIMIT 1]. *)
Fixpoint latest (l : list HistoryRecord) : option HistoryRecord :=
  match l with
  | [] => None
  | r :: l' =>
      match latest l' with
      | Some r' => if valid_from r <? valid_from r' then Some r' else Some r
      | None => Some r
      end
  end.

Definition is_current_of (a : ustring) (r : HistoryRecord) : Prop :=
  autorizador r = a /\ is_current r = 1.

#[global] Instance is_current_of_dec a r : Decision (is_current_of a r).
Proof. unfold is_current_of. apply _. Defined.

(** A value passed for the text column [autorizador]. [execute] raises
    [ValueError] for a string with a NUL character and [UnicodeEncodeError]
    for one with a surrogate; a list is sent as an array, which the server
    refuses to compare with text. *)
Definition text_param (v : value) : DB ustring :=
  match v with
  | VStr s => if sendable s then mret s else raise OtherException
  | _ => raise OtherException
  end.

(** The value passed for the column [status_json]:
    [json.dumps(row, ensure_ascii=False)], which [execute] cannot encode when
    it holds a surrogate. *)
Definition json_param (row : Row) : DB Row :=
  if row_encodable row then mret row else raise OtherException.

(** [SELECT id, status_json, valid_from FROM t WHERE autorizador=%s AND
    is_current=1 ORDER BY valid_from DESC LIMIT 1] and [fetchone()] *)
Definition select_current (a : ustring) : DB (option HistoryRecord) :=
  call;;
  t ← read;
  mret (latest (filter (is_current_of a) t)).

Definition closed (ts : Z) (r : HistoryRecord) : HistoryRecord :=
  {| rec_id := rec_id r; autorizador := autorizador r;
     status_json := status_json r; valid_from := valid_from r;
     valid_to := Some ts; is_current := 0 |}.

Definition close_record (ts : Z) (id : Z) (r : HistoryRecord) : HistoryRecord :=
  if decide (rec_id r = id) then closed ts r else r.

(** [UPDATE t SET valid_to=%s, is_current=0 WHERE id=%s] *)
Definition update_close (ts : Z) (id : Z) : DB unit :=
  call;;
  t ← read;
  write (close_record ts id <$> t).

(** [INSERT INTO t (autorizador, status_json, valid_from, valid_to,
    is_current) VALUES (%s, %s, %s, NULL, 1)] *)
Definition new_record (id : Z) (a : ustring) (row : Row) (ts : Z) : HistoryRecord :=
  {| rec_id := id; autorizador := a; status_json := row;
     valid_from := ts; valid_to := None; is_current := 1 |}.

Definition insert_current (a : ustring) (row : Row) (ts : Z) : DB unit :=
  status_json ← json_param row;
  call;;
  id ← nextval;
  t ← read;
  write (t ++ [new_record id a status_json ts]).

Definition expired (cutoff : Z) (r : HistoryRecord) : Prop :=
  match valid_to r with
  | Some t => t < cutoff
  | None => False
  end.

#[global] Instance expired_dec cutoff r : Decision (expired cutoff r).
Proof. unfold expired. destruct (valid_to r); apply _. Defined.

Definition retain (cutoff : Z) (t : list HistoryRecord) : list HistoryRecord :=
  filter (fun r => ¬ expired cutoff r) t.

(** [DELETE FROM t WHERE valid_to IS NOT NULL AND valid_to < %s] *)
Definition delete_expired (cutoff : Z) : DB unit :=
  call;;
  t ← read;
  write (retain cutoff t).

(** [psycopg2.connect(...)] *)
Definition connect : DB unit := call.

(** [with self.get_db_connection() as conn: body]. [retries] counts the
    attempts that are left ([retries - attempt]); [body] is what happens at
    the [yield].

    The generator catches [OperationalError], from [connect] and from the
    body alike: it counts the attempt and raises [NFEMonitorError] when none
    is left, and otherwise goes round the loop. Any other exception leaves the
    generator at once. Once the body has raised, a second [yield] does not
    run it again: [contextlib] raises [RuntimeError] there. The [finally]
    clause closes the connection on every path. When the loop is not entered
    at all, [contextlib] raises [RuntimeError] (the generator did not
    yield). *)
Fixpoint get_db_connection {A} (retries : nat) (body : DB A) : DB A :=
  match retries with
  | O => raise OtherException
  | S n =>
      fun s =>
        match connect s with
        | (Ok _, s1) =>
            match body s1 with
            | (Raised OperationalError, s2) =>
                match n with
                | O => (Raised OtherException, rollback s2)
                | S _ => get_db_connection n (raise OtherException) (rollback s2)
                end
            | (r, s2) => (r, rollback s2)
            end
        | (Raised OperationalError, s1) =>
            match n with
            | O => (Raised OtherException, s1)
            | S _ => get_db_connection n body s1
            end
        | (Raised e, s1) => (Raised e, s1)
        end
  end.

(** *** SCD2 persister *)

(** Truth value of [row.get("autorizador")] and of [data.checked_at]. *)
Definition truthy (v : option value) : bool :=
  match v with
  | Some (VStr (_ :: _)) | Some (VList (_ :: _)) => true
  | _ => false
  end.

Definition status_changed (prev_status new_status : Row) : bool :=
  bool_decide (prev_status ≠ new_status).

(** The instant of [now - timedelta(days=max_days)]. The subtraction is on
    the wall clock and keeps the [tzinfo] of [now], which gives the offset at
    the new wall-clock time. [None] is [OverflowError], from [timedelta] or
    from a result outside the years 1 to 9999. *)
Definition cutoff_of (cfg : Config) (now : datetime) : option Z :=
  delta ← timedelta_days (RETENTION_MAX_DAYS cfg);
  let w := wall_clock now - delta in
  if in_range w then Some (w - utcoffset_at (tzinfo now) w) else None.

(** What [apply_retention_policy] does inside its [try] once it has a
    connection: the cutoff, the [DELETE], the commit. *)
Definition retention_statements (cfg : Config) (now : datetime) : DB unit :=
  match cutoff_of cfg now with
  | None => raise OtherException
  | Some cutoff => delete_expired cutoff;; commit
  end.

(** [apply_retention_policy(conn)] on the caller's connection. [now] is
    [datetime.now(ZoneInfo(NFE_TIMEZONE))], [None] when that raises (the zone
    cannot be loaded): it is read before the [try], so that its exception
    reaches the caller. What raises inside the [try] is logged and dropped,
    unless it is a [KeyboardInterrupt]. *)
Definition retention_on (cfg : Config) (now : option datetime) : DB unit :=
  match now with
  | None => raise OtherException
  | Some now => swallow (retention_statements cfg now)
  end.

(** The loop over [data.statuses]. *)
Fixpoint persist_rows (ts_str : Z) (rows : list Row) (success_count : nat) : DB nat :=
  match rows with
  | [] => mret success_count
  | row :: rest =>
      let autorizador := row !! u "autorizador" in
      if negb (truthy autorizador) then persist_rows ts_str rest success_count
      else
        a ← text_param (default VNone autorizador);
        current ← select_current a;
        let changed :=
          match current with
          | Some c => status_changed (status_json c) row
          | None => true
          end in
        if changed then
          match current with
          | Some c => update_close ts_str (rec_id c)
          | None => mret tt
          end;;
          insert_current a row ts_str;;
          persist_rows ts_str rest (S success_count)
        else persist_rows ts_str rest success_count
  end.

Section Persister.
Context `{PyRuntime}.

(** The transaction of [persist]: from [datetime.fromisoformat] to
    [conn.commit()]; it returns [success_count]. *)
Definition persist_transaction (data : NFEResult) : DB nat :=
  match checked_at data ≫= fromisoformat with
  | None => raise OtherException
  | Some ts =>
      match astimezone_utc ts with
      | None => raise OtherException
      | Some ts_str =>
          success_count ← persist_rows ts_str (statuses data) 0;
          commit;;
          mret success_count
      end
  end.

(** What [persist] runs inside [with self.get_db_connection() as conn]. *)
Definition persist_body (cfg : Config) (now : option datetime) (data : NFEResult)
  : DB bool :=
  persist_transaction data;;
  retention_on cfg now;;
  mret true.

(** [persist(data)]: [now] is the clock that the retention step reads, [db]
    the committed state before the call; the result is what [persist]
    returns, or the [KeyboardInterrupt] that it lets through, and the
    committed state after the connection is closed. *)
Definition persist (cfg : Config) (now : option datetime) (data : NFEResult)
    (db : database) (fs : list (option exn)) : outcome bool * database :=
  if negb (success data) || negb (truthy (VStr <$> checked_at data))
  then (Ok false, db)
  else
    let '(r, s) := get_db_connection 3 (persist_body cfg now data) (open db fs) in
    (except_Exception r false, close s).

End Persister.

(** [apply_retention_policy()] with [conn=None]: it reads the clock, then
    opens its own connection inside the [try] and closes it at the end. *)
Definition apply_retention_policy (cfg : Config) (now : option datetime)
    (db : database) (fs : list (option exn)) : outcome unit * database :=
  match now with
  | None => (Raised OtherException, db)
  | Some now =>
      let '(r, s) := swallow (connect;; retention_statements cfg now) (open db fs) in
      (r, close s)
  end.

(** ** Snapshot exporter *)

(** The exported document: an object whose members are scalars, the list
    of rows, or an object of scalars. *)
Inductive scalar :=
  | JNull
  | JStr (s : ustring)
  | JNum (n : Z).

Inductive member :=
  | JScalar (v : scalar)
  | JRows (rows : list Row)
  | JObj (fields : list (ustring * scalar)).

Definition json := list (ustring * member).

(** The file at [JSON_PATH] and the temporary files left in its directory;
    [None] is a file whose writing was cut short. *)
Record filesystem := {
  json_file : option json;
  temp_files : list (option json)
}.

(** What the [n]-th call of a scripted sequence raises, if it does. *)
Definition raises (io : list (option exn)) (n : nat) : option exn :=
  default None (io !! n).

(** [except Exception: return False] for the exception [e]. *)
Definition failing (e : exn) : outcome bool := except_Exception (Raised e) false.

Section Exporter.
Context `{PyRuntime}.

(** The object passed to [json.dump]. *)
Definition export_document (now : datetime) (data : NFEResult) : json :=
  [ (normalize_key (u "checked_at"),
      JScalar match checked_at data with Some s => JStr s | None => JNull end);
    (normalize_key (u "statuses"), JRows (statuses data));
    (normalize_key (u "metadata"),
      JObj [ (normalize_key (u "total_records"),
               JNum (Z.of_nat (length (statuses data))));
             (normalize_key (u "generated_at"), JStr (isoformat now));
             (normalize_key (u "version"), JStr (u "2.0")) ]) ].

(** What [json.dump(..., ensure_ascii=False)] can write to the UTF-8 file:
    a surrogate in [checked_at] or in a row raises [UnicodeEncodeError]. (The
    other strings of the document are ASCII.) *)
Definition document_encodable (data : NFEResult) : bool :=
  default true (encodable <$> checked_at data)
  && forallb row_encodable (statuses data).

(** [save_json(data)]: [io] tells what the four file-system calls raise
    ([os.makedirs], opening the temporary file, writing it with [json.dump]
    and closing it, [os.replace]), in that order; [now] is
    [datetime.now(ZoneInfo(NFE_TIMEZONE))], read once the temporary file is
    open, [None] when that raises. *)
Definition save_json (now : option datetime) (data : NFEResult)
    (fs : filesystem) (io : list (option exn)) : outcome bool * filesystem :=
  if negb (success data) then (Ok false, fs)
  else
    match raises io 0 with
    | Some e => (failing e, fs)
    | None =>
    match raises io 1 with
    | Some e => (failing e, fs)
    | None =>
    let cut_short := {| json_file := json_file fs;
                        temp_files := temp_files fs ++ [None] |} in
    match now with
    | None => (Ok false, cut_short)
    | Some now =>
    let doc := export_document now data in
    match raises io 2 with
    | Some e => (failing e, cut_short)
    | None =>
    if negb (document_encodable data) then (Ok false, cut_short)
    else
    match raises io 3 with
    | Some e => (failing e, {| json_file := json_file fs;
                               temp_files := temp_files fs ++ [Some doc] |})
    | None => (Ok true, {| json_file := Some doc; temp_files := temp_files fs |})
    end end end end end.

End Exporter.

(** ** Runs

    A history of the store: calls of [persist] and of the retention pruner,
    each with its configuration, clock and server behaviour. *)
Inductive operation :=
  | Persist (cfg : Config) (now : option datetime) (data : NFEResult)
      (fs : list (option exn))
  | Retention (cfg : Config) (now : option datetime) (fs : list (option exn)).

Definition run_operation `{PyRuntime} (db : database) (o : operation) : database :=
  match o with
  | Persist cfg now data fs => snd (persist cfg now data db fs)
  | Retention cfg now fs => snd (apply_retention_policy cfg now db fs)
  end.

Definition run `{PyRuntime} (ops : list operation) : database :=
  foldl run_operation empty_database ops.

(** What one iteration of the loop of [persist] does to the table and the
    sequence when no call raises. *)
Definition scd2_step (ts : Z) (st : list HistoryRecord * Z) (row : Row)
  : list HistoryRecord * Z :=
  match row !! u "autorizador" with
  | Some (VStr (c0 :: a0)) =>
      let a := c0 :: a0 in
      match latest (filter (is_current_of a) st.1) with
      | Some c =>
          if status_changed (status_json c) row
          then ((close_record ts (rec_id c) <$> st.1) ++ [new_record st.2 a row ts],
                st.2 + 1)
          else st
      | None => (st.1 ++ [new_record st.2 a row ts], st.2 + 1)
      end
  | _ => st
  end.

(** The records of one [autorizador]. *)
Definition records_of (a : ustring) (t : list HistoryRecord) : list HistoryRecord :=
  filter (fun r => autorizador r = a) t.

(** A row whose [autorizador] is the string [a]. *)
Definition names (a : ustring) (row : Row) : Prop :=
  row !! u "autorizador" = Some (VStr a).

#[global] Instance names_dec a row : Decision (names a row).
Proof. unfold names. apply _. Defined.

(** Rows that name the same [autorizador] are equal. *)
Definition consistent (rows : list Row) : Prop :=
  forall r1 r2 a, r1 ∈ rows -> r2 ∈ rows -> names a r1 -> names a r2 -> r1 = r2.

(** Every row of [rows] that names an [autorizador] has exactly one current
    record in [t], and that record holds the row. *)
Definition settled (rows : list Row) (t : list HistoryRecord) : Prop :=
  forall row a, row ∈ rows -> names a row -> a <> [] ->
    exists c, filter (is_current_of a) t = [c] /\ status_json c = row.

(** The invariant of the history: per [autorizador] at most one record with
    [is_current = 1], and such a record has no [valid_to]. *)
Definition single_current (t : list HistoryRecord) : Prop :=
  (forall a, (length (filter (is_current_of a) t) <= 1)%nat)
  /\ (forall r, r ∈ t -> is_current r = 1 -> valid_to r = None).

(** What the primary key and the sequence guarantee: no two records share an
    [id], and every [id] in use is below the next value of the sequence. *)
Definition keyed (t : list HistoryRecord) (q : Z) : Prop :=
  NoDup (rec_id <$> t) /\ (forall r, r ∈ t -> rec_id r < q).

Definition well_keyed (db : database) : Prop := keyed (table db) (id_seq db).

Local Close Scope Z_scope.
Local Open Scope N_scope.

(** ** A runtime to evaluate with

    An instance of the interface on a fragment of the Unicode database
    (ASCII and the Latin-1 letters, the combining diacritical marks
    U+0300..U+036F) and on the timestamp formats the program itself
    produces, with a fragment of the time zone database. It is what the
    examples are evaluated with. *)
Module Fragment.

(** Canonical decompositions of the Latin-1 capital letters: base letter
    and combining mark. The small letters follow the same table. *)
Definition capital_decomposition : list (N * (N * N)) :=
  [ (192, (65, 768)); (193, (65, 769)); (194, (65, 770)); (195, (65, 771));
    (196, (65, 776)); (197, (65, 778)); (199, (67, 807));
    (200, (69, 768)); (201, (69, 769)); (202, (69, 770)); (203, (69, 776));
    (204, (73, 768)); (205, (73, 769)); (206, (73, 770)); (207, (73, 776));
    (209, (78, 771));
    (210, (79, 768)); (211, (79, 769)); (212, (79, 770)); (213, (79, 771));
    (214, (79, 776));
    (217, (85, 768)); (218, (85, 769)); (219, (85, 770)); (220, (85, 776));
    (221, (89, 769)) ].

Fixpoint assoc {A} (k : N) (l : list (N * A)) : option A :=
  match l with
  | [] => None
  | (k', a) :: t => if k =? k' then Some a else assoc k t
  end.

Definition decompose (c : N) : ustring :=
  if c <? 192 then [c]
  else if c =? 255 then [121; 776]
  else match assoc c capital_decomposition with
       | Some (b, m) => [b; m]
       | None =>
           match assoc (c - 32) capital_decomposition with
           | Some (b, m) => if 224 <=? c then [b + 32; m] else [c]
           | None => [c]
           end
       end.

Definition nfd (s : ustring) : ustring := s ≫= decompose.

Definition category_Mn (c : N) : bool := (768 <=? c) && (c <=? 879).

Definition lower_char (c : N) : N :=
  if is_upper c then c + 32
  else if (192 <=? c) && (c <=? 222) && negb (c =? 215) then c + 32
  else c.

Definition lower (s : ustring) : ustring := lower_char <$> s.

Definition is_space (c : N) : bool :=
  ((9 <=? c) && (c <=? 13)) || ((28 <=? c) && (c <=? 32)) || (c =? 133) || (c =? 160).

Fixpoint is_prefix (p s : ustring) : option ustring :=
  match p, s with
  | [], _ => Some s
  | a :: p', b :: s' => if a =? b then is_prefix p' s' else None
  | _ :: _, [] => None
  end.

(** A shape: [None] stands for one decimal digit, [Some c] for the
    character [c]. *)
Fixpoint has_shape (shape : list (option N)) (s : ustring) : bool :=
  match shape, s with
  | [], _ => true
  | None :: shape', c :: s' => is_digit c && has_shape shape' s'
  | Some a :: shape', c :: s' => (a =? c) && has_shape shape' s'
  | _ :: _, [] => false
  end.

Definition dd : list (option N) := [None; None].
Definition stamp_shape : list (option N) :=
  dd ++ [Some 47] ++ dd ++ [Some 47] ++ dd ++ dd ++ [Some 32]
     ++ dd ++ [Some 58] ++ dd ++ [Some 58] ++ dd.

Fixpoint skip_spaces (s : ustring) : ustring :=
  match s with
  | [] => []
  | c :: t => if is_space c then skip_spaces t else s
  end.

Definition ts_re_at (s : ustring) : option ustring :=
  rest ← is_prefix (u "Última Verificação:") s;
  let rest := skip_spaces rest in
  if has_shape stamp_shape rest then Some (take 19 rest) else None.

Fixpoint ts_re_search (s : ustring) : option ustring :=
  match ts_re_at s with
  | Some g => Some g
  | None => match s with
            | [] => None
            | _ :: t => ts_re_search t
            end
  end.

Definition number (s : ustring) : Z :=
  foldl (fun acc c => acc * 10 + Z.of_N (c - 48))%Z 0%Z s.

Definition field (start len : nat) (s : ustring) : Z :=
  number (take len (drop start s)).

Definition valid_fields (y mo d h mi s : Z) : bool :=
  ((1 <=? y) && (1 <=? mo) && (mo <=? 12) && (1 <=? d)
   && (d <=? days_in_month y mo) && (h <=? 23) && (mi <=? 59) && (s <=? 59))%Z.

Definition strptime (s : ustring) : option datetime :=
  if has_shape stamp_shape s && (length s =? 19)%nat then
    let d := field 0 2 s in let mo := field 3 2 s in let y := field 6 4 s in
    let h := field 11 2 s in let mi := field 14 2 s in let sec := field 17 2 s in
    if valid_fields y mo d h mi sec
    then Some {| year := y; month := mo; day := d; hour := h; minute := mi;
                 second := sec; microsecond := 0; tzinfo := None |}
    else None
  else None.

Fixpoint pad (width : nat) (z : Z) : ustring :=
  match width with
  | O => []
  | S w => pad w (z / 10) ++ [48 + Z.to_N (z mod 10)]
  end.

Definition isoformat (d : datetime) : ustring :=
  pad 4 (year d) ++ [45] ++ pad 2 (month d) ++ [45] ++ pad 2 (day d) ++ [84]
    ++ pad 2 (hour d) ++ [58] ++ pad 2 (minute d) ++ [58] ++ pad 2 (second d)
    ++ (if (microsecond d =? 0)%Z then [] else [46] ++ pad 6 (microsecond d))
    ++ match tzinfo d with
       | None => []
       | Some tz =>
           let off := tz (wall_clock d) in
           let m := (Z.abs off / 60000000)%Z in
           [if (off <? 0)%Z then 45 else 43]
             ++ pad 2 (m / 60) ++ [58] ++ pad 2 (m mod 60)
       end.

Definition iso_shape : list (option N) :=
  dd ++ dd ++ [Some 45] ++ dd ++ [Some 45] ++ dd ++ [Some 84]
     ++ dd ++ [Some 58] ++ dd ++ [Some 58] ++ dd.

Definition iso_offset (s : ustring) : option (option Z) :=
  match s with
  | [] => Some None
  | sign :: r =>
      if ((sign =? 43) || (sign =? 45)) && has_shape (dd ++ [Some 58] ++ dd) r
         && (length r =? 5)%nat
      then let off := ((field 0 2 r * 60 + field 3 2 r) * 60000000)%Z in
           Some (Some (if sign =? 45 then (- off)%Z else off))
      else None
  end.

Definition fromisoformat (s : ustring) : option datetime :=
  if has_shape iso_shape s then
    let y := field 0 4 s in let mo := field 5 2 s in let d := field 8 2 s in
    let h := field 11 2 s in let mi := field 14 2 s in let sec := field 17 2 s in
    if valid_fields y mo d h mi sec then
      tz ← iso_offset (drop 19 s);
      Some {| year := y; month := mo; day := d; hour := h; minute := mi;
              second := sec; microsecond := 0;
              tzinfo := (fun off (_ : Z) => off) <$> tz |}
    else None
  else None.

(** The zone [America/Sao_Paulo] for the wall-clock times from 19 February
    2017 on: UTC-03:00, and UTC-02:00 during the two last periods of summer
    time, which began at 00:00 on 15 October 2017 and on 4 November 2018 (the
    clock went to 01:00) and ended at 00:00 on 18 February 2018 and on 17
    February 2019. *)
Definition at_midnight (y mo d : Z) : Z :=
  wall_clock {| year := y; month := mo; day := d; hour := 0; minute := 0;
                second := 0; microsecond := 0; tzinfo := None |}.

Definition hours (h : Z) : Z := (h * 3600000000)%Z.

Definition sao_paulo (w : Z) : Z :=
  (if ((at_midnight 2017 10 15 + hours 1 <=? w) && (w <? at_midnight 2018 2 18))
      || ((at_midnight 2018 11 4 + hours 1 <=? w) && (w <? at_midnight 2019 2 17))
   then hours (-2) else hours (-3))%Z.

End Fragment.

Definition fragment_runtime : PyRuntime.
Proof.
  refine {| nfd := Fragment.nfd;
            category_Mn := Fragment.category_Mn;
            lower := Fragment.lower;
            ts_re_search := Fragment.ts_re_search;
            strptime := Fragment.strptime;
            isoformat := Fragment.isoformat;
            fromisoformat := Fragment.fromisoformat |}.
  - intros s. unfold Fragment.nfd. induction s as [|c s IH]; [done|].
    cbn [forallb]. intros [Hc Hs]%andb_true_iff. cbn. rewrite IH by done.
    unfold Fragment.decompose, is_ascii in *. apply N.ltb_lt in Hc.
    by replace (c <? 192) with true by (symmetry; apply N.ltb_lt; lia).
  - intros c Hc. unfold is_ascii, Fragment.category_Mn in *. apply N.ltb_lt in Hc.
    apply andb_false_iff. left. apply N.leb_gt. lia.
  - intros s. unfold Fragment.lower. induction s as [|c s IH]; [done|].
    cbn [forallb]. intros [Hc Hs]%andb_true_iff. rewrite !fmap_cons, IH by done.
    f_equal. unfold Fragment.lower_char, ascii_lower, is_ascii in *.
    apply N.ltb_lt in Hc. destruct (is_upper c); [done|].
    by replace (192 <=? c) with false by (symmetry; apply N.leb_gt; lia).
Defined.

(** ** Sample data

    The snapshots of the SCD2 test: [SVAN] seen [verde] at 10:30 and
    [amarelo] at 11:30 on 2024-01-15, a retention of 30 days, and two readings
    of the clock, in January and in March 2024. *)
Module Sample.
Local Open Scope Z_scope.

Definition row_verde : Row :=
  {[ u "autorizador" := VStr (u "SVAN"); u "status" := VStr (u "verde") ]}.
Definition row_amarelo : Row :=
  {[ u "autorizador" := VStr (u "SVAN"); u "status" := VStr (u "amarelo") ]}.

Definition snapshot (at_ : string) (rows : list Row) : NFEResult :=
  {| checked_at := Some (u at_); statuses := rows; success := true;
     error_message := None |}.

Definition snapshot_A : NFEResult := snapshot "2024-01-15T10:30:00" [row_verde].
Definition snapshot_B : NFEResult := snapshot "2024-01-15T11:30:00" [row_amarelo].

(** A snapshot that lists [SVAN] twice, with different statuses. *)
Definition snapshot_twice : NFEResult :=
  snapshot "2024-01-15T10:30:00" [row_verde; row_amarelo].

(** A successful extraction whose caption carried no timestamp. *)
Definition snapshot_undated : NFEResult :=
  {| checked_at := None; statuses := [row_verde]; success := true;
     error_message := None |}.

Definition cfg : Config := {| RETENTION_MAX_DAYS := 30 |}.

(** A reading of the clock in the zone [America/Sao_Paulo]. *)
Definition reading (y mo d h mi : Z) : datetime :=
  {| year := y; month := mo; day := d; hour := h; minute := mi; second := 0;
     microsecond := 0; tzinfo := Some Fragment.sao_paulo |}.

Definition january : datetime := reading 2024 1 15 8 31.
Definition march : datetime := reading 2024 3 15 8 31.

(** The store after [snapshot_A] was persisted into an empty one. *)
Definition db_A : database :=
  {| table := [new_record 1 (u "SVAN") row_verde 63840911400000000];
     id_seq := 2 |}.

Definition no_files : filesystem := {| json_file := None; temp_files := [] |}.

(** A header row and data rows of the status page. *)
Definition header_row (labels : list string) : Tr :=
  {| ths := u <$> labels; tds := [] |}.
Definition text_cell (s : string) : Cell := {| img := None; text := u s |}.
Definition image_cell (src : string) : Cell :=
  {| img := Some (Some (u src)); text := [] |}.
Definition data_row (cells : list Cell) : Tr := {| ths := []; tds := cells |}.

(** The page with the row of the state [MA], which is no key of the
    reference data but is listed by [SVAN] and by [SVC-RS]. *)
Definition page_MA : Table :=
  {| caption := Some (u "Última Verificação: 15/01/2024 10:30:00");
     trs := [ header_row ["Autorizador"; "Status"];
              data_row [text_cell "MA"; image_cell "imagens/bola_verde_P.png"] ] |}.

(** The row that the program extracts from [page_MA]. *)
Definition row_MA : Row :=
  {[ u "autorizador" := VStr (u "MA"); u "status" := VStr (u "verde");
     u "relacionado_a" := VStr (u "SVC-RS") ]}.

(** A page whose second column is no longer called [Status], and a page whose
    status cell holds text instead of an image. Both pass validation. *)
Definition page_renamed : Table :=
  {| caption := None;
     trs := [ header_row ["Autorizador"; "Disponibilidade"];
              data_row [text_cell "SVAN"; image_cell "imagens/bola_verde_P.png"] ] |}.
Definition page_text_status : Table :=
  {| caption := None;
     trs := [ header_row ["Autorizador"; "Status"];
              data_row [text_cell "SVAN"; text_cell "fora do ar"] ] |}.
End Sample.

Local Close Scope N_scope.
Local Open Scope Z_scope.

(** ** Schema initialisation *)

(** [CREATE TABLE IF NOT EXISTS ...] and [CREATE INDEX IF NOT EXISTS ...]:
    calls to the server that leave the rows as they are. *)
Definition create_table_if_not_exists : DB unit := call.
Definition create_index_if_not_exists : DB unit := call.

(** [init_db()]. The server has the table or not ([None]); a table that is
    created is empty and its sequence starts at 1. The statements run in one
    transaction, which is rolled back when a call raises. *)
Definition init_db (server : option database) (fs : list (option exn))
  : outcome bool * option database :=
  match get_db_connection 3
          (create_table_if_not_exists;;
           create_index_if_not_exists;;
           create_index_if_not_exists;;
           commit)
          (open (default empty_database server) fs) with
  | (Ok _, s) => (Ok true, Some (close s))
  | (Raised e, _) => (failing e, server)
  end.

(** ** Orchestrator *)

(** What [fetch_html()] does: it returns the page, of which the program
    reads the table that [soup.find] locates, or raises [NFEMonitorError], or
    is interrupted from the keyboard while it waits. *)
Inductive fetched :=
  | Page (table : option Table)
  | FetchError
  | Interrupted.

(** The durable state across runs: the server and the files. *)
Record world := { server : option database; files : filesystem }.

(** What one run meets: what happens at the calls of [init_db] and of
    [persist], the outcome of the fetch, the two readings of the clock, what
    happens at the file-system calls, and whether a [KeyboardInterrupt]
    arrives after the last of them, before [run] returns. *)
Record conditions := {
  init_faults : list (option exn);
  page : fetched;
  persist_clock : option datetime;
  persist_faults : list (option exn);
  export_clock : option datetime;
  export_io : list (option exn);
  late_interrupt : bool
}.

(** The handlers of [run]: [except KeyboardInterrupt: return 130] and
    [except Exception: return 1]. *)
Definition exit_on (e : exn) : Z := if is_Exception e then 1 else 130.

(** [NFEStatusMonitor.run()]: the exit status and the state it leaves. *)
Definition run_monitor `{PyRuntime} (cfg : Config) (c : conditions) (w : world)
  : Z * world :=
  match init_db (server w) (init_faults c) with
  | (Raised e, server1) => (exit_on e, {| server := server1; files := files w |})
  | (Ok false, server1) => (1, {| server := server1; files := files w |})
  | (Ok true, server1) =>
      let w1 := {| server := server1; files := files w |} in
      match page c with
      | Interrupted => (130, w1)
      | FetchError => (1, w1)
      | Page table =>
          let result := parse_and_enrich table in
          if negb (success result) then (1, w1)
          else
            match server1 with
            | None => (1, w1)
            | Some db =>
                match persist cfg (persist_clock c) result db (persist_faults c) with
                | (Raised e, db') =>
                    (exit_on e, {| server := Some db'; files := files w |})
                | (Ok false, db') => (1, {| server := Some db'; files := files w |})
                | (Ok true, db') =>
                    match save_json (export_clock c) result (files w) (export_io c) with
                    | (Raised e, files') =>
                        (exit_on e, {| server := Some db'; files := files' |})
                    | (Ok false, files') =>
                        (1, {| server := Some db'; files := files' |})
                    | (Ok true, files') =>
                        (if late_interrupt c then 130 else 0,
                         {| server := Some db'; files := files' |})
                    end
                end
            end
      end
  end.

(** ** Auxiliary notions for the properties *)

(** A session with another list for the calls to come. *)
Definition with_faults (s : session) (fs : list (option exn)) : session :=
  {| durable := durable s; pending := pending s; seq := seq s; faults := fs |}.

(** None of the first [n] calls raises. *)
Definition quiet (n : nat) (fs : list (option exn)) : bool :=
  forallb (fun f : option exn => bool_decide (f = None)) (take n fs).

(** A snapshot with other rows. *)
Definition with_statuses (data : NFEResult) (rows : list Row) : NFEResult :=
  {| checked_at := checked_at data; statuses := rows; success := success data;
     error_message := error_message data |}.

(** A table with another caption. *)
Definition with_caption (t : Table) (c : option ustring) : Table :=
  {| caption := c; trs := trs t |}.

(** A row that [persist] does not skip. *)
Definition has_autorizador (row : Row) : Prop :=
  truthy (row !! u "autorizador") = true.

#[global] Instance has_autorizador_dec row : Decision (has_autorizador row).
Proof. unfold has_autorizador. apply _. Defined.

(** Code that never rewinds the sequence. *)
Definition seq_grows {A} (m : DB A) : Prop :=
  forall s r s', m s = (r, s') -> seq s <= seq s'.

(** Code that takes what happens at its calls from the front of the
    session's list, and raises [KeyboardInterrupt] only when the list holds
    one. *)
Definition interruptible {A} (m : DB A) : Prop :=
  forall s r s', m s = (r, s') ->
    faults s' `suffix_of` faults s
    /\ (r = Raised KeyboardInterrupt -> Some KeyboardInterrupt ∈ faults s).

(** A run in which a [KeyboardInterrupt] arrives. *)
Definition interrupted (c : conditions) : Prop :=
  Some KeyboardInterrupt ∈ init_faults c
  \/ page c = Interrupted
  \/ Some KeyboardInterrupt ∈ persist_faults c
  \/ Some KeyboardInterrupt ∈ export_io c
  \/ late_interrupt c = true.

(** What [persist] never changes in a record. *)
Definition identity_of (r : HistoryRecord) : Z * ustring * Row * Z :=
  (rec_id r, autorizador r, status_json r, valid_from r).

(** How a stored record [r] can look after [persist] at the instant [T]:
    the same, or closed at [T] if it was current. *)
Definition kept_or_closed (T : option Z) (r r' : HistoryRecord) : Prop :=
  identity_of r' = identity_of r
  /\ ((valid_to r' = valid_to r /\ is_current r' = is_current r)
      \/ (is_current r = 1 /\ is_current r' = 0 /\ is_Some T /\ valid_to r' = T)).

(** Every record of [t] with an id below [q0] is a record of [t0], kept or
    closed at [ts]. *)
Definition from_old (t0 : list HistoryRecord) (q0 ts : Z) (t : list HistoryRecord)
  : Prop :=
  forall r', r' ∈ t -> rec_id r' < q0 ->
    exists r, r ∈ t0 /\ kept_or_closed (Some ts) r r'.

(** None of the four file-system calls of [save_json] raises. *)
Definition io_ok (io : list (option exn)) : bool :=
  bool_decide (Forall (fun n => raises io n = None) [0; 1; 2; 3]%nat).

(** A data row that the extractor keeps: as many cells as headers, and no
    image without a [src]. *)
Definition row_kept (headers : list ustring) (tr : Tr) : Prop :=
  length (tds tr) = length headers
  /\ Forall (fun cell => img cell <> Some None) (tds tr).

#[global] Instance row_kept_dec headers tr : Decision (row_kept headers tr).
Proof. unfold row_kept. apply _. Defined.

(** The letters and digits of a string, in order. *)
Definition alnums (s : ustring) : ustring := filter (fun c => is_alnum c = true) s.

(** A cell that holds the image [src]. *)
Definition image (src : ustring) : Cell := {| img := Some (Some src); text := [] |}.

Local Close Scope Z_scope.
Local Open Scope N_scope.
(** * Properties *)

(** Closed decidable statements, by evaluation. *)
Ltac compute_decide := apply (bool_decide_unpack _); vm_compute; exact I.

(** ** Key normaliser *)

Section NormalizeKey.
Context `{PyRuntime}.

Lemma sub_non_alnum_word s : forallb is_word_char (sub_non_alnum s) = true.
Proof.
  unfold sub_non_alnum.
  induction s as [|c s IH]; [done|]. rewrite fmap_cons. cbn [forallb].
  rewrite IH, andb_true_r.
  unfold is_word_char. destruct (is_alnum c) eqn:E; [by rewrite E|done].
Qed.

Lemma sub_underscores_head s : head (sub_underscores s) = head s.
Proof.
  induction s as [|c s IH]; [done|]. cbn.
  destruct (N.eqb_spec c underscore) as [->|]; [|done].
  destruct s as [|d s]; [done|].
  destruct (N.eqb_spec d underscore) as [->|]; [|done].
  rewrite IH. done.
Qed.

Lemma sub_underscores_forallb (P : N -> bool) s :
  forallb P s = true -> forallb P (sub_underscores s) = true.
Proof.
  induction s as [|c s IH]; [done|]. cbn [sub_underscores forallb].
  intros [Hc Hs]%andb_true_iff. specialize (IH Hs).
  destruct (c =? underscore).
  - destruct s as [|d s]; [cbn; by rewrite Hc|].
    destruct (d =? underscore); [exact IH|].
    cbn [forallb]. rewrite Hc. exact IH.
  - cbn [forallb]. rewrite Hc. exact IH.
Qed.

Lemma has_double_cons c s :
  has_double_underscore (c :: s)
  = match head s with
    | Some d => ((c =? underscore) && (d =? underscore)) || has_double_underscore s
    | None => false
    end.
Proof. by destruct s. Qed.

Lemma sub_underscores_no_double s : has_double_underscore (sub_underscores s) = false.
Proof.
  induction s as [|c s IH]; [done|]. cbn [sub_underscores].
  destruct (N.eqb_spec c underscore) as [->|Hc].
  - destruct s as [|d s]; [done|].
    destruct (N.eqb_spec d underscore) as [->|Hd]; [done|].
    rewrite has_double_cons, sub_underscores_head. cbn [head].
    rewrite IH. apply N.eqb_neq in Hd. rewrite Hd. done.
  - rewrite has_double_cons, IH. apply N.eqb_neq in Hc. rewrite Hc.
    by destruct (head _).
Qed.

Lemma lstrip_drop ch s : exists k, lstrip ch s = drop k s.
Proof.
  induction s as [|c s [k IH]]; [by exists 0%nat|]. cbn.
  destruct (c =? ch); [by exists (S k)|by exists 0%nat].
Qed.

Lemma lstrip_head ch s : head (lstrip ch s) <> Some ch.
Proof.
  induction s as [|c s IH]; [done|]. cbn.
  destruct (N.eqb_spec c ch); [done|]. cbn. congruence.
Qed.

Lemma rstrip_take ch s : exists k, rstrip ch s = take k s.
Proof.
  unfold rstrip. destruct (lstrip_drop ch (reverse s)) as [k ->].
  exists (length s - k)%nat.
  rewrite <- (reverse_involutive s) at 3.
  rewrite take_reverse, length_reverse.
  destruct (decide (k <= length s)%nat).
  - by replace (length s - (length s - k))%nat with k by lia.
  - rewrite !drop_ge by (rewrite ?length_reverse; lia). done.
Qed.

Lemma rstrip_last ch s : last (rstrip ch s) <> Some ch.
Proof. unfold rstrip. rewrite last_reverse. apply lstrip_head. Qed.

Lemma forallb_drop (P : N -> bool) k s :
  forallb P s = true -> forallb P (drop k s) = true.
Proof.
  revert k; induction s as [|c s IH]; intros [|k]; cbn; try done.
  intros [_ ?]%andb_true_iff. by apply IH.
Qed.

Lemma forallb_take (P : N -> bool) k s :
  forallb P s = true -> forallb P (take k s) = true.
Proof.
  revert k; induction s as [|c s IH]; intros [|k]; cbn; try done.
  intros [-> ?]%andb_true_iff. by apply IH.
Qed.

Lemma has_double_drop k s :
  has_double_underscore s = false -> has_double_underscore (drop k s) = false.
Proof.
  revert k; induction s as [|c s IH]; intros [|k]; try done.
  rewrite has_double_cons. cbn [drop]. intros Hs. apply IH.
  destruct s as [|d s]; [done|]. by apply orb_false_iff in Hs as [_ ?].
Qed.

Lemma has_double_take k s :
  has_double_underscore s = false -> has_double_underscore (take k s) = false.
Proof.
  revert k; induction s as [|c s IH]; intros [|k]; try done.
  cbn [take]. rewrite !has_double_cons. intros Hs.
  destruct s as [|d s]; [by destruct k|]. cbn [head] in Hs.
  apply orb_false_iff in Hs as [Hcd Hs].
  destruct k as [|k]; [done|]. cbn [take head]. rewrite Hcd. cbn.
  by apply (IH (S k)).
Qed.

Lemma head_take_neq k (s : ustring) x : head s <> Some x -> head (take k s) <> Some x.
Proof. destruct s, k; cbn; congruence || done. Qed.

Lemma strip_shape s :
  forallb is_word_char s = true -> has_double_underscore s = false ->
  let t := strip underscore s in
  forallb is_word_char t = true /\ head t <> Some underscore
  /\ last t <> Some underscore /\ has_double_underscore t = false.
Proof.
  intros Hw Hd; cbn. unfold strip.
  destruct (rstrip_take underscore (lstrip underscore s)) as [k Hk].
  destruct (lstrip_drop underscore s) as [j Hj].
  split_and!.
  - rewrite Hk, Hj. by apply forallb_take, forallb_drop.
  - rewrite Hk. apply head_take_neq, lstrip_head.
  - apply rstrip_last.
  - rewrite Hk, Hj. by apply has_double_take, has_double_drop.
Qed.

Lemma is_word_char_ascii c : is_word_char c = true -> is_ascii c = true.
Proof.
  unfold is_word_char, is_alnum, is_lower, is_upper, is_digit, is_ascii, underscore.
  intros Hc. apply N.ltb_lt.
  repeat match goal with
         | H : _ || _ = true |- _ => apply orb_true_iff in H as [H|H]
         | H : _ && _ = true |- _ => apply andb_true_iff in H as [? ?]
         | H : (_ <=? _) = true |- _ => apply N.leb_le in H
         | H : (_ =? _) = true |- _ => apply N.eqb_eq in H
         end; lia.
Qed.

Lemma forallb_impl (P Q : N -> bool) s :
  (forall c, P c = true -> Q c = true) -> forallb P s = true -> forallb Q s = true.
Proof.
  intros HPQ. induction s as [|c s IH]; [done|]. cbn.
  intros [?%HPQ ?%IH]%andb_true_iff. by apply andb_true_iff.
Qed.

Lemma ascii_lower_key c : is_word_char c = true -> is_key_char (ascii_lower c) = true.
Proof.
  unfold is_word_char, is_key_char, ascii_lower, is_alnum.
  destruct (is_upper c) eqn:Hu.
  - intros _. unfold is_upper, is_lower in *.
    apply andb_true_iff in Hu as [?%N.leb_le ?%N.leb_le].
    replace (97 <=? c + 32) with true by (symmetry; apply N.leb_le; lia).
    replace (c + 32 <=? 122) with true by (symmetry; apply N.leb_le; lia). done.
  - rewrite orb_false_r. by intros ->.
Qed.

Lemma ascii_lower_underscore c : (ascii_lower c =? underscore) = (c =? underscore).
Proof.
  unfold ascii_lower. destruct (is_upper c) eqn:Hu; [|done].
  unfold is_upper, underscore in *.
  apply andb_true_iff in Hu as [?%N.leb_le ?%N.leb_le].
  transitivity false; [|symmetry]; apply N.eqb_neq; lia.
Qed.

Lemma head_lower_neq (s : ustring) :
  head s <> Some underscore -> head (ascii_lower <$> s) <> Some underscore.
Proof.
  destruct s as [|c s]; cbn; [done|]. intros Hc [= Hl]. apply Hc. f_equal.
  apply N.eqb_eq. rewrite <- ascii_lower_underscore. by apply N.eqb_eq.
Qed.

Lemma last_lower_neq (s : ustring) :
  last s <> Some underscore -> last (ascii_lower <$> s) <> Some underscore.
Proof.
  rewrite fmap_last. destruct (last s) as [c|]; cbn; [|done].
  intros Hc [= Hl]. apply Hc. f_equal.
  apply N.eqb_eq. rewrite <- ascii_lower_underscore. by apply N.eqb_eq.
Qed.

Lemma has_double_lower s :
  has_double_underscore (ascii_lower <$> s) = has_double_underscore s.
Proof.
  induction s as [|c s IH]; [done|]. rewrite fmap_cons, !has_double_cons, IH.
  destruct s as [|d s]; [done|]. cbn. by rewrite !ascii_lower_underscore.
Qed.

Lemma forallb_lower_key s :
  forallb is_word_char s = true -> forallb is_key_char (ascii_lower <$> s) = true.
Proof.
  induction s as [|c s IH]; [done|]. cbn.
  intros [?%ascii_lower_key ?%IH]%andb_true_iff. by apply andb_true_iff.
Qed.

Lemma normalize_key_normalized s : normalized (normalize_key s).
Proof.
  unfold normalize_key.
  set (k := sub_underscores _).
  assert (Hw : forallb is_word_char k = true)
    by apply sub_underscores_forallb, sub_non_alnum_word.
  assert (Hd : has_double_underscore k = false) by apply sub_underscores_no_double.
  destruct (strip_shape k Hw Hd) as (Hw' & Hh & Hl & Hd').
  rewrite lower_ascii by (eapply forallb_impl; [apply is_word_char_ascii|done]).
  split_and!.
  - by apply forallb_lower_key.
  - by apply head_lower_neq.
  - by apply last_lower_neq.
  - by rewrite has_double_lower.
Qed.

Lemma normalize_key_nil : normalize_key [] = [].
Proof.
  unfold normalize_key. rewrite nfd_ascii by done. cbn.
  by rewrite lower_ascii.
Qed.

End NormalizeKey.

Section NormalizeKeyFixpoint.
Context `{PyRuntime}.

Lemma is_key_char_word c : is_key_char c = true -> is_word_char c = true.
Proof.
  unfold is_key_char, is_word_char, is_alnum.
  destruct (is_lower c), (is_digit c), (c =? underscore); cbn; try done.
  all: by rewrite ?orb_true_r.
Qed.

Lemma is_key_char_lower c : is_key_char c = true -> ascii_lower c = c.
Proof.
  unfold is_key_char, ascii_lower, is_lower, is_digit, is_upper, underscore.
  intros Hc. destruct ((65 <=? c) && (c <=? 90)) eqn:Hu; [|done].
  apply andb_true_iff in Hu as [?%N.leb_le ?%N.leb_le].
  repeat match goal with
         | H : _ || _ = true |- _ => apply orb_true_iff in H as [H|H]
         | H : _ && _ = true |- _ => apply andb_true_iff in H as [? ?]
         | H : (_ <=? _) = true |- _ => apply N.leb_le in H
         | H : (_ =? _) = true |- _ => apply N.eqb_eq in H
         end; lia.
Qed.

Lemma filter_not_Mn_ascii s :
  forallb is_ascii s = true -> filter (fun c => category_Mn c = false) s = s.
Proof.
  induction s as [|c s IH]; [done|]. cbn [forallb].
  intros [Hc Hs]%andb_true_iff. rewrite filter_cons.
  rewrite decide_True by by apply category_Mn_ascii. by rewrite IH.
Qed.

Lemma sub_non_alnum_key s : forallb is_key_char s = true -> sub_non_alnum s = s.
Proof.
  unfold sub_non_alnum. induction s as [|c s IH]; [done|]. cbn [forallb].
  intros [Hc Hs]%andb_true_iff. rewrite fmap_cons, IH by done. f_equal.
  destruct (is_alnum c) eqn:Ha; [done|].
  apply is_key_char_word in Hc. unfold is_word_char in Hc. rewrite Ha in Hc.
  symmetry. by apply N.eqb_eq.
Qed.

Lemma sub_underscores_id s : has_double_underscore s = false -> sub_underscores s = s.
Proof.
  induction s as [|c s IH]; [done|]. rewrite has_double_cons. cbn [sub_underscores].
  destruct s as [|d s]; [by destruct (c =? underscore)|]. cbn [head].
  intros [Hcd Hs]%orb_false_iff. rewrite IH by done.
  destruct (c =? underscore); [|done]. cbn in Hcd. by rewrite Hcd.
Qed.

Lemma lstrip_id ch (s : ustring) : head s <> Some ch -> lstrip ch s = s.
Proof.
  destruct s as [|c s]; [done|]. cbn. intros Hc.
  destruct (N.eqb_spec c ch); [congruence|done].
Qed.

Lemma strip_id ch (s : ustring) :
  head s <> Some ch -> last s <> Some ch -> strip ch s = s.
Proof.
  intros Hh Hl. unfold strip, rstrip. rewrite (lstrip_id ch s) by done.
  rewrite lstrip_id by by rewrite head_reverse.
  apply reverse_involutive.
Qed.

Lemma lower_key_id s : forallb is_key_char s = true -> ascii_lower <$> s = s.
Proof.
  induction s as [|c s IH]; [done|]. cbn [forallb].
  intros [Hc Hs]%andb_true_iff. by rewrite fmap_cons, IH, is_key_char_lower.
Qed.

Lemma normalize_key_fixed s : normalized s -> normalize_key s = s.
Proof.
  intros (Hk & Hh & Hl & Hd). unfold normalize_key.
  assert (Ha : forallb is_ascii s = true).
  { eapply forallb_impl; [|exact Hk].
    intros c Hc. by apply is_word_char_ascii, is_key_char_word. }
  rewrite nfd_ascii, filter_not_Mn_ascii by done.
  rewrite sub_non_alnum_key, sub_underscores_id, strip_id by done.
  rewrite lower_ascii by done. by apply lower_key_id.
Qed.

End NormalizeKeyFixpoint.

(** ** Sessions *)

Local Open Scope Z_scope.

Lemma bind_run {A B} (m : DB A) (k : A -> DB B) s :
  (m ≫= k) s = match m s with
               | (Ok a, s') => k a s'
               | (Raised e, s') => (Raised e, s')
               end.
Proof. reflexivity. Qed.

Lemma call_same s r s' : call s = (r, s') -> same_data s s'.
Proof.
  unfold call. destruct s as [d p q [|[e|] f]]; cbn; intros [= <- <-]; by repeat split.
Qed.

(** A statement that changes the table by [f]. *)
Lemma statement_run (f : list HistoryRecord -> list HistoryRecord) s r s' :
  (call;; t ← read; write (f t)) s = (r, s') ->
  durable s' = durable s
  /\ match r with
     | Ok _ => pending s' = f (pending s) /\ seq s' = seq s
     | Raised _ => True
     end.
Proof.
  rewrite bind_run. destruct (call s) as [[[]|e] s1] eqn:Hc;
    apply call_same in Hc as (Hd & Hp & Hq).
  - cbn. intros [= <- <-]. cbn. by rewrite Hd, Hp, Hq.
  - intros [= <- <-]. done.
Qed.

Lemma select_current_run a s r s' :
  select_current a s = (r, s') ->
  same_data s s'
  /\ match r with
     | Ok c => c = latest (filter (is_current_of a) (pending s))
     | Raised _ => True
     end.
Proof.
  unfold select_current. rewrite bind_run.
  destruct (call s) as [[[]|e] s1] eqn:Hc; apply call_same in Hc as Hs.
  - cbn. intros [= <- <-]. split; [done|]. destruct Hs as (_ & -> & _). done.
  - intros [= <- <-]. done.
Qed.

Lemma insert_current_run a row ts s r s' :
  insert_current a row ts s = (r, s') ->
  durable s' = durable s
  /\ match r with
     | Ok _ => pending s' = pending s ++ [new_record (seq s) a row ts]
               /\ seq s' = seq s + 1
     | Raised _ => True
     end.
Proof.
  unfold insert_current, json_param. rewrite bind_run.
  destruct (row_encodable row); [|by intros [= <- <-]].
  cbn [mret DB_ret]. rewrite bind_run.
  destruct (call s) as [[[]|e] s1] eqn:Hc; apply call_same in Hc as (Hd & Hp & Hq).
  - cbn. intros [= <- <-]. cbn. by rewrite Hd, Hp, Hq.
  - intros [= <- <-]. done.
Qed.

Lemma commit_run s r s' :
  commit s = (r, s') ->
  match r with
  | Ok _ => durable s' = pending s /\ pending s' = pending s /\ seq s' = seq s
  | Raised _ => same_data s s'
  end.
Proof.
  unfold commit. rewrite bind_run.
  destruct (call s) as [[[]|e] s1] eqn:Hc; apply call_same in Hc as (Hd & Hp & Hq).
  - cbn. intros [= <- <-]. cbn. by rewrite Hp, Hq.
  - intros [= <- <-]. done.
Qed.

Lemma text_param_run v s r s' :
  text_param v s = (r, s') ->
  s' = s /\ forall a, r = Ok a -> v = VStr a.
Proof.
  unfold text_param. destruct v as [|a|l]; [| destruct (sendable a) |];
    intros [= <- <-]; split; try done. by intros ? [= ->].
Qed.

Lemma persist_rows_run ts rows : forall n s r s',
  persist_rows ts rows n s = (r, s') ->
  durable s' = durable s
  /\ match r with
     | Ok _ => (pending s', seq s') = foldl (scd2_step ts) (pending s, seq s) rows
     | Raised _ => True
     end.
Proof.
  induction rows as [|row rows IH]; intros n s r s'.
  { cbn. intros [= <- <-]. done. }
  cbn [persist_rows foldl]. unfold scd2_step at 2. cbn [fst snd].
  destruct (row !! u "autorizador") as [[|[|c0 a0]|[|? ?]]|] eqn:Ha; cbn [truthy negb default id].
  1,2,4,6: apply IH.
  - (* a text parameter *)
    rewrite bind_run.
    destruct (text_param (VStr (c0 :: a0)) s) as [[a|e] s0] eqn:Hpar;
      destruct (text_param_run _ _ _ _ Hpar) as [-> Ha0].
    2:{ intros [= <- <-]. done. }
    specialize (Ha0 a eq_refl). injection Ha0 as <-.
    rewrite bind_run.
    destruct (select_current (c0 :: a0) s) as [[cur|e] s1] eqn:Hsel;
      apply select_current_run in Hsel as [(Hd1 & Hp1 & Hq1) Hcur].
    2:{ intros [= <- <-]. done. }
    subst cur. rewrite <- Hp1.
    destruct (latest (filter (is_current_of (c0 :: a0)) (pending s1))) as [c|] eqn:Hl.
    + destruct (status_changed (status_json c) row).
      * rewrite bind_run.
        destruct (update_close ts (rec_id c) s1) as [[[]|e] s2] eqn:Hu;
          apply statement_run in Hu as [Hd2 Hu].
        2:{ intros [= <- <-]. split; [congruence|done]. }
        destruct Hu as [Hp2 Hq2]. rewrite bind_run.
        destruct (insert_current (c0 :: a0) row ts s2) as [[[]|e] s3] eqn:Hi;
          apply insert_current_run in Hi as [Hd3 Hi].
        2:{ intros [= <- <-]. split; [congruence|done]. }
        destruct Hi as [Hp3 Hq3]. intros [Hd Hr]%IH. split; [congruence|].
        destruct r; [|done]. rewrite Hr, Hp3, Hq3, Hp2, Hq2, Hq1. done.
      * intros [Hd Hr]%IH. split; [congruence|].
        destruct r; [|done]. rewrite Hr, Hq1. done.
    + rewrite bind_run. cbn [mret DB_ret]. rewrite bind_run.
      destruct (insert_current (c0 :: a0) row ts s1) as [[[]|e] s3] eqn:Hi;
        apply insert_current_run in Hi as [Hd3 Hi].
      2:{ intros [= <- <-]. split; [congruence|done]. }
      destruct Hi as [Hp3 Hq3]. intros [Hd Hr]%IH. split; [congruence|].
      destruct r; [|done]. rewrite Hr, Hp3, Hq3, Hq1. done.
  - (* a list parameter: the statement raises *)
    cbn [text_param]. rewrite bind_run. cbn. intros [= <- <-]. done.
Qed.

(** *** The connection *)

Lemma rollback_committed s : pending s = durable s -> rollback s = s.
Proof. destruct s. cbn. by intros ->. Qed.

(** The loop once the body has raised: it never returns. *)
Lemma get_db_connection_raise {A} n s r s' :
  get_db_connection n (@raise A OtherException) s = (r, s') ->
  (exists e, r = Raised e /\ e <> OperationalError)
  /\ durable s' = durable s /\ seq s' = seq s
  /\ (pending s' = pending s \/ pending s' = durable s).
Proof.
  revert s. induction n as [|n IH]; intros s; cbn [get_db_connection].
  { intros [= <- <-]. split; [by eexists|auto]. }
  unfold connect. destruct (call s) as [[[]|e] s1] eqn:Hc;
    apply call_same in Hc as (Hd & Hp & Hq).
  - cbn. intros [= <- <-]. cbn. split; [by eexists|]. rewrite Hd, Hq. auto.
  - destruct e.
    + destruct n as [|n'].
      * intros [= <- <-]. split; [by eexists|]. rewrite Hd, Hp, Hq. auto.
      * intros (He & ? & ? & ?)%IH. split; [done|]. rewrite <- Hd, <- Hp, <- Hq. auto.
    + intros [= <- <-]. split; [by eexists|]. rewrite Hd, Hp, Hq. auto.
    + intros [= <- <-]. split; [by eexists|]. rewrite Hd, Hp, Hq. auto.
Qed.

(** What [raise] is a body of does not matter to the loop. *)
Lemma get_db_connection_raise_any {A B} n s :
  get_db_connection n (@raise B OtherException) s
  = match get_db_connection n (@raise A OtherException) s with
    | (Ok _, s') => (Raised OtherException, s')
    | (Raised e, s') => (Raised e, s')
    end.
Proof.
  revert s. induction n as [|n IH]; intros s; cbn [get_db_connection]; [done|].
  destruct (connect s) as [[[]|[]] s1]; try done.
  destruct n; [done|apply IH].
Qed.

Lemma get_db_connection_run {A} n (body : DB A) s r s' :
  get_db_connection n body s = (r, s') ->
  ((exists e, r = Raised e /\ e <> OperationalError)
   /\ durable s' = durable s /\ seq s' = seq s)
  \/ (exists s0 r0 s1, same_data s s0 /\ body s0 = (r0, s1)
        /\ durable s' = durable s1 /\ pending s' = durable s1 /\ seq s' = seq s1
        /\ match r0 with
           | Raised OperationalError => exists e, r = Raised e /\ e <> OperationalError
           | _ => r = r0
           end).
Proof.
  revert s. induction n as [|n IH]; intros s; cbn [get_db_connection].
  { intros [= <- <-]. left. split; [by eexists|done]. }
  unfold connect. destruct (call s) as [[[]|e] s1] eqn:Hc; apply call_same in Hc.
  - intros Hb. right. exists s1.
    destruct (body s1) as [[a|e] s2] eqn:Hbody.
    + injection Hb as <- <-. by exists (Ok a), s2.
    + exists (Raised e), s2. split; [done|]. split; [done|].
      destruct e.
      * destruct n as [|n'].
        -- injection Hb as <- <-. cbn. split_and!; try done. by eexists.
        -- apply get_db_connection_raise in Hb as (He & Hd & Hq & Hp).
           cbn in Hd, Hq, Hp. split_and!; try done. by destruct Hp.
      * injection Hb as <- <-. done.
      * injection Hb as <- <-. done.
  - destruct Hc as (Hd & Hp & Hq). destruct e.
    + destruct n as [|n'].
      * intros [= <- <-]. left. split; [by eexists|done].
      * intros [(He & ? & ?)|(s0 & r0 & s2 & (? & ? & ?) & Hrest)]%IH; [left|right].
        -- split; [done|]. split; congruence.
        -- exists s0, r0, s2. split; [|done]. repeat split; congruence.
    + intros [= <- <-]. left. split; [by eexists|done].
    + intros [= <- <-]. left. split; [by eexists|done].
Qed.

(** A body made of a part that ends committed and a part that does not
    raise [OperationalError]. *)
Lemma get_db_connection_bind {A B} n (m : DB A) (k : A -> DB B) s :
  (forall a s1 s2, m s1 = (Ok a, s2) -> pending s2 = durable s2) ->
  (forall a s1, (k a s1).1 <> Raised OperationalError) ->
  get_db_connection n (m ≫= k) s
  = match get_db_connection n m s with
    | (Ok a, s1) => let '(r, s2) := k a s1 in (r, rollback s2)
    | (Raised e, s1) => (Raised e, s1)
    end.
Proof.
  intros Hm Hk. revert s. induction n as [|n IH]; intros s; [done|].
  cbn [get_db_connection]. destruct (connect s) as [[[]|e] s1].
  - rewrite bind_run. destruct (m s1) as [[a|e] s2] eqn:Hms.
    + rewrite (rollback_committed s2) by by eapply Hm.
      pose proof (Hk a s2) as Hne.
      destruct (k a s2) as [[b|[]] s3]; cbn in Hne; done.
    + destruct e; try done. destruct n as [|n']; [done|].
      rewrite (get_db_connection_raise_any (A:=A) (B:=B)).
      destruct (get_db_connection (S n') (@raise A OtherException) (rollback s2))
        as [[a|e] s3] eqn:Hg; [|done].
      by apply get_db_connection_raise in Hg as ((e & [=] & _) & _).
  - destruct e; try done. destruct n as [|n']; [done|]. apply IH.
Qed.

Section PersistRuns.
Context `{PyRuntime}.

Lemma persist_transaction_run data s r s' :
  persist_transaction data s = (r, s') ->
  match r with
  | Ok _ =>
      exists ts, checked_at data ≫= fromisoformat = Some ts
        /\ astimezone_utc ts = Some (utc_instant ts)
        /\ pending s' = durable s'
        /\ (durable s', seq s')
           = foldl (scd2_step (utc_instant ts)) (pending s, seq s) (statuses data)
  | Raised _ => durable s' = durable s
  end.
Proof.
  unfold persist_transaction.
  destruct (checked_at data ≫= fromisoformat) as [ts|]; [|by intros [= <- <-]].
  destruct (astimezone_utc ts) as [i|] eqn:Hast; [|by intros [= <- <-]].
  assert (i = utc_instant ts) as ->.
  { unfold astimezone_utc in Hast. destruct (in_range _); congruence. }
  rewrite bind_run.
  destruct (persist_rows _ _ _ s) as [[n|e] s1] eqn:Hr;
    apply persist_rows_run in Hr as [Hd1 Hr]; [|by intros [= <- <-]].
  rewrite bind_run.
  destruct (commit s1) as [[[]|e] s2] eqn:Hc; apply commit_run in Hc.
  - cbn. intros [= <- <-]. exists ts. destruct Hc as (Hd & Hp & Hq).
    split; [done|]. split; [done|]. split; [congruence|]. by rewrite Hd, Hq.
  - intros [= <- <-]. destruct Hc as (? & _). congruence.
Qed.

Lemma retention_statements_run cfg now s r s' :
  retention_statements cfg now s = (r, s') ->
  seq s' = seq s
  /\ match r with
     | Ok _ => exists c, cutoff_of cfg now = Some c
                         /\ durable s' = retain c (pending s)
     | Raised _ => durable s' = durable s
     end.
Proof.
  unfold retention_statements.
  destruct (cutoff_of cfg now) as [c|]; [|by intros [= <- <-]].
  rewrite bind_run.
  destruct (delete_expired _ s) as [[[]|e] s1] eqn:Hd.
  - apply statement_run in Hd as (Hd & Hp & Hq).
    destruct (commit s1) as [[[]|e] s2] eqn:Hc; apply commit_run in Hc;
      intros [= <- <-].
    + destruct Hc as (? & ? & ?). split; [congruence|]. exists c. split; congruence.
    + destruct Hc as (? & ? & ?). split; congruence.
  - intros [= <- <-]. unfold delete_expired in Hd. rewrite bind_run in Hd.
    destruct (call s) as [[[]|e'] s2] eqn:Hc; apply call_same in Hc as (? & ? & ?).
    + cbn in Hd. done.
    + injection Hd as <- <-. done.
Qed.

(** The retention step on the connection of [persist]: it raises when the
    clock cannot be read and when it is interrupted, and never with
    [OperationalError]. *)
Lemma retention_on_run cfg now s r s' :
  retention_on cfg now s = (r, s') ->
  seq s' = seq s
  /\ r <> Raised OperationalError
  /\ (durable s' = durable s
      \/ r = Ok tt /\ exists c, now ≫= cutoff_of cfg = Some c
                                /\ durable s' = retain c (pending s)).
Proof.
  unfold retention_on. destruct now as [now|]; [|by intros [= <- <-]; auto].
  unfold swallow.
  destruct (retention_statements cfg now s) as [[[]|e] s1] eqn:Hr;
    apply retention_statements_run in Hr as [Hq Hr]; intros [= <- <-].
  - split; [done|]. split; [done|]. right. split; [done|].
    destruct Hr as (c & Hc & Hr). exists c. by rewrite <- Hc.
  - split; [done|]. split; [by destruct e|]. by left.
Qed.

(** [persist] as the transaction followed by the retention step. *)
Lemma persist_unfold cfg now data db fs :
  success data = true -> truthy (VStr <$> checked_at data) = true ->
  persist cfg now data db fs
  = match get_db_connection 3 (persist_transaction data) (open db fs) with
    | (Ok _, s) =>
        match retention_on cfg now s with
        | (Ok _, s') => (Ok true, close s')
        | (Raised e, s') => (failing e, close s')
        end
    | (Raised e, s) => (failing e, close s)
    end.
Proof.
  unfold persist, persist_body. intros -> ->. cbn [negb orb].
  rewrite get_db_connection_bind.
  - destruct (get_db_connection 3 _ _) as [[n|e] s]; [|done].
    rewrite bind_run. by destruct (retention_on cfg now s) as [[[]|e] s'].
  - intros n s1 s2 Hrun. by apply persist_transaction_run in Hrun as (_ & _ & _ & ? & _).
  - intros _ s1. rewrite bind_run.
    destruct (retention_on cfg now s1) as [[[]|e] s2] eqn:Hr; [done|].
    apply retention_on_run in Hr as (_ & Hne & _). cbn. intros [= ->]. by apply Hne.
Qed.

Lemma persist_invalid cfg now data db fs :
  success data = false \/ truthy (VStr <$> checked_at data) = false ->
  persist cfg now data db fs = (Ok false, db).
Proof. unfold persist. by intros [-> | ->]; rewrite ?orb_true_r. Qed.

Lemma failing_not_true e : failing e <> Ok true.
Proof. by destruct e. Qed.

(** The two ways a call of [persist] can go: the store is as before and the
    result is not true; or the transaction was committed, and the table is
    the one it committed or, when [persist] returns true and the cutoff could
    be computed, that table pruned. *)
Lemma persist_cases cfg now data db fs :
  let res := persist cfg now data db fs in
  (res.1 <> Ok true /\ table res.2 = table db)
  \/ (success data = true
      /\ exists ts, checked_at data ≫= fromisoformat = Some ts
         /\ let st := foldl (scd2_step (utc_instant ts)) (table db, id_seq db)
                        (statuses data) in
            id_seq res.2 = st.2
            /\ (table res.2 = st.1
                \/ exists c, now ≫= cutoff_of cfg = Some c
                             /\ table res.2 = retain c st.1)).
Proof.
  cbn zeta.
  destruct (success data) eqn:Hs; [|left; by rewrite persist_invalid by auto].
  destruct (truthy (VStr <$> checked_at data)) eqn:Hc;
    [|left; by rewrite persist_invalid by auto].
  rewrite persist_unfold by done.
  destruct (get_db_connection 3 _ _) as [[n|e] s] eqn:Hg;
    apply get_db_connection_run in Hg
      as [[(e0 & He0 & _) (Hd0 & Hq0)]
         |(s0 & r0 & s1 & (Hd0 & Hp0 & Hq0) & Hb & Hd1 & Hp1 & Hq1 & Hr0)]; try done.
  - right. assert (r0 = Ok n) as ->.
    { destruct r0 as [a|[]]; try congruence. by destruct Hr0 as (? & ? & _). }
    apply persist_transaction_run in Hb as (ts & Hts & _ & Hp & Hst).
    split; [done|]. exists ts. split; [done|].
    rewrite Hp0, Hq0 in Hst. cbn [open pending seq] in Hst.
    assert (Hst' : (durable s, seq s)
                   = foldl (scd2_step (utc_instant ts)) (table db, id_seq db)
                       (statuses data)) by (rewrite <- Hst; congruence).
    destruct (retention_on cfg now s) as [[[]|e] s2] eqn:Hr;
      apply retention_on_run in Hr as (Hq & _ & Hr); cbn [fst snd close table id_seq];
      rewrite <- Hst'; cbn [fst snd]; (split; [done|]).
    + destruct Hr as [Hr|(_ & c & Hc1 & Hr)]; [by left|].
      right. exists c. split; [done|]. rewrite Hr. congruence.
    + destruct Hr as [Hr|([=] & _)]. by left.
  - left. split; [apply failing_not_true|done].
  - left. split; [apply failing_not_true|]. cbn [snd close table].
    rewrite Hd1. destruct r0 as [a|e1].
    + discriminate.
    + apply persist_transaction_run in Hb. cbn [open durable] in Hd0. congruence.
Qed.

End PersistRuns.

(** ** The table under the statements *)

Lemma latest_elem l c : latest l = Some c -> c ∈ l.
Proof.
  revert c. induction l as [|r l IH]; intros c; [done|]. cbn.
  destruct (latest l) as [r'|].
  - destruct (valid_from r <? valid_from r'); intros [= <-].
    + right. by apply IH.
    + left.
  - intros [= <-]. left.
Qed.

Lemma latest_None l : latest l = None -> l = [].
Proof.
  destruct l as [|r l]; [done|]. cbn.
  by destruct (latest l) as [r'|]; [destruct (valid_from r <? valid_from r')|].
Qed.

Lemma latest_singleton c : latest [c] = Some c.
Proof. done. Qed.

Lemma short_list_elem {A} (l : list A) x : (length l <= 1)%nat -> x ∈ l -> l = [x].
Proof.
  destruct l as [|y [|z l]]; cbn; intros Hl Hx.
  - by apply elem_of_nil in Hx.
  - by apply list_elem_of_singleton in Hx as ->.
  - lia.
Qed.

Lemma closed_not_current ts a r : ¬ is_current_of a (closed ts r).
Proof. by intros [_ [=]]. Qed.

Lemma close_record_cases ts id r :
  (rec_id r = id /\ close_record ts id r = closed ts r)
  \/ (rec_id r <> id /\ close_record ts id r = r).
Proof. unfold close_record. case_decide; auto. Qed.

Lemma close_record_autorizador ts id r :
  autorizador (close_record ts id r) = autorizador r.
Proof. by destruct (close_record_cases ts id r) as [[_ ->]|[_ ->]]. Qed.

Lemma close_record_id ts id r : rec_id (close_record ts id r) = rec_id r.
Proof. by destruct (close_record_cases ts id r) as [[_ ->]|[_ ->]]. Qed.

(** Closing never adds a current record. *)
Lemma current_close_elem ts id a (t : list HistoryRecord) r :
  r ∈ filter (is_current_of a) (close_record ts id <$> t) ->
  r ∈ filter (is_current_of a) t /\ rec_id r <> id.
Proof.
  rewrite !list_elem_of_filter, list_elem_of_fmap.
  intros [Hc (r0 & -> & Hr0)].
  destruct (close_record_cases ts id r0) as [[_ Heq]|[Hid Heq]]; rewrite Heq in *.
  - by apply closed_not_current in Hc.
  - done.
Qed.

Lemma current_close_length ts id a (t : list HistoryRecord) :
  (length (filter (is_current_of a) (close_record ts id <$> t))
   <= length (filter (is_current_of a) t))%nat.
Proof.
  induction t as [|r t IH]; [done|]. rewrite fmap_cons, !filter_cons.
  destruct (close_record_cases ts id r) as [[_ ->]|[_ ->]].
  - rewrite decide_False by apply closed_not_current.
    case_decide; cbn; lia.
  - case_decide; cbn; lia.
Qed.

(** Under the invariant, closing the current record of [a] leaves [a]
    without a current record. *)
Lemma current_close_none ts a (t : list HistoryRecord) c :
  (length (filter (is_current_of a) t) <= 1)%nat ->
  c ∈ filter (is_current_of a) t ->
  filter (is_current_of a) (close_record ts (rec_id c) <$> t) = [].
Proof.
  intros Hlen Hc. apply elem_of_nil_inv. intros r [Hr Hid]%current_close_elem.
  rewrite (short_list_elem _ _ Hlen Hc) in Hr.
  by apply list_elem_of_singleton in Hr as ->.
Qed.

Lemma current_new_record a' id a row ts :
  filter (is_current_of a') [new_record id a row ts]
  = if decide (a = a') then [new_record id a row ts] else [].
Proof.
  rewrite filter_cons, filter_nil. destruct (decide (a = a')) as [<-|Hne].
  - by rewrite decide_True.
  - rewrite decide_False; [done|]. by intros [? _].
Qed.

Lemma single_current_step ts t q row :
  single_current t -> single_current (scd2_step ts (t, q) row).1.
Proof.
  intros [Hone Hnull]. unfold scd2_step. cbn [fst snd].
  destruct (row !! u "autorizador") as [[|[|c0 a0]|]|]; try done.
  set (a := c0 :: a0).
  destruct (latest (filter (is_current_of a) t)) as [c|] eqn:Hl.
  - destruct (status_changed _ _); [|done]. cbn [fst]. split.
    + intros a'. rewrite filter_app, length_app, current_new_record.
      destruct (decide (a = a')) as [<-|].
      * rewrite (current_close_none ts a t c);
          [|apply Hone|by apply latest_elem].
        rewrite decide_True by done. cbn. lia.
      * rewrite decide_False by done. cbn.
        pose proof (current_close_length ts (rec_id c) a' t).
        specialize (Hone a'). lia.
    + intros r [(r0 & -> & Hr0)%list_elem_of_fmap | ->%list_elem_of_singleton]%elem_of_app;
        [|done].
      destruct (close_record_cases ts (rec_id c) r0) as [[_ ->]|[_ ->]]; [done|].
      by apply Hnull.
  - cbn [fst]. apply latest_None in Hl. split.
    + intros a'. rewrite filter_app, length_app, current_new_record.
      destruct (decide (a = a')) as [<-|].
      * rewrite Hl, decide_True by done. cbn. lia.
      * rewrite decide_False by done. cbn. specialize (Hone a'). lia.
    + intros r [Hr | ->%list_elem_of_singleton]%elem_of_app; [by apply Hnull|done].
Qed.

Lemma single_current_steps ts rows : forall t q,
  single_current t -> single_current (foldl (scd2_step ts) (t, q) rows).1.
Proof.
  induction rows as [|row rows IH]; intros t q Ht; [done|]. cbn [foldl].
  destruct (scd2_step ts (t, q) row) as [t' q'] eqn:Hs. apply IH.
  change t' with (t', q').1. rewrite <- Hs. by apply single_current_step.
Qed.

Lemma current_filter (Q : HistoryRecord -> Prop) `{!forall r, Decision (Q r)} a
    (t : list HistoryRecord) :
  filter (is_current_of a) (filter Q t) = filter Q (filter (is_current_of a) t).
Proof.
  induction t as [|r t IH]; [done|]. rewrite !filter_cons.
  repeat (case_decide; rewrite ?filter_cons, ?IH); try done.
Qed.

Lemma single_current_filter (Q : HistoryRecord -> Prop) `{!forall r, Decision (Q r)}
    (t : list HistoryRecord) :
  single_current t -> single_current (filter Q t).
Proof.
  intros [Hone Hnull]. split.
  - intros a. rewrite current_filter. etrans; [apply length_filter|apply Hone].
  - intros r [_ Hr]%list_elem_of_filter. by apply Hnull.
Qed.

Lemma single_current_nil : single_current [].
Proof. split; [intros a; cbn; lia|]. by intros r Hr%elem_of_nil. Qed.

(** [apply_retention_policy] with its own connection: the table is pruned
    exactly when the clock can be read, the cutoff can be computed and none
    of the three calls raises. *)
Lemma apply_retention_policy_run cfg now db fs :
  (apply_retention_policy cfg now db fs).2
  = {| table := match now ≫= cutoff_of cfg with
                | Some c => if quiet 3 fs then retain c (table db) else table db
                | None => table db
                end;
       id_seq := id_seq db |}.
Proof.
  destruct db as [t q]. unfold apply_retention_policy.
  destruct now as [now|]; [|done]. cbn [mbind option_bind].
  unfold swallow, retention_statements. rewrite bind_run.
  destruct (cutoff_of cfg now) as [c|].
  - destruct fs as [|[e1|] [|[e2|] [|[e3|] fs]]]; try reflexivity.
  - by destruct fs as [|[e1|] fs].
Qed.

Lemma single_current_run_operation `{PyRuntime} db o :
  single_current (table db) -> single_current (table (run_operation db o)).
Proof.
  intros Hdb. destruct o as [cfg now data fs|cfg now fs]; cbn [run_operation].
  - destruct (persist_cases cfg now data db fs)
      as [[_ ->]|(_ & ts & _ & _ & [-> | (c & _ & ->)])]; [done| |].
    + by apply single_current_steps.
    + by apply single_current_filter, single_current_steps.
  - rewrite apply_retention_policy_run. cbn [table].
    destruct (now ≫= cutoff_of cfg) as [c|]; [|done].
    destruct (quiet 3 fs); [|done]. by apply single_current_filter.
Qed.

(** ** Keys *)

Lemma keyed_inj t q r1 r2 :
  keyed t q -> r1 ∈ t -> r2 ∈ t -> rec_id r1 = rec_id r2 -> r1 = r2.
Proof.
  intros [Hnd _]. induction t as [|r t IH]; [by intros ?%elem_of_nil|].
  rewrite fmap_cons in Hnd. apply NoDup_cons in Hnd as [Hr Hnd].
  intros [->|H1]%elem_of_cons [->|H2]%elem_of_cons Hid; try done.
  - destruct Hr. rewrite Hid. by apply list_elem_of_fmap_2.
  - destruct Hr. rewrite <- Hid. by apply list_elem_of_fmap_2.
  - by apply IH.
Qed.

Lemma close_record_ids ts id (t : list HistoryRecord) :
  rec_id <$> (close_record ts id <$> t) = rec_id <$> t.
Proof.
  induction t as [|r t IH]; [done|]. by rewrite !fmap_cons, IH, close_record_id.
Qed.

Lemma keyed_insert t q a row ts :
  keyed t q -> keyed (t ++ [new_record q a row ts]) (q + 1).
Proof.
  intros [Hnd Hlt]. split.
  - rewrite fmap_app. apply NoDup_app. split_and!; [done| |apply NoDup_singleton].
    intros i (r & -> & Hr%Hlt)%list_elem_of_fmap Hi%list_elem_of_singleton.
    cbn in Hi. lia.
  - intros r [Hr%Hlt | ->%list_elem_of_singleton]%elem_of_app; cbn; lia.
Qed.

Lemma keyed_close t q ts id : keyed t q -> keyed (close_record ts id <$> t) q.
Proof.
  intros [Hnd Hlt]. split; [by rewrite close_record_ids|].
  intros r (r0 & -> & Hr0)%list_elem_of_fmap. rewrite close_record_id. by apply Hlt.
Qed.

Lemma keyed_step ts t q row :
  keyed t q -> keyed (scd2_step ts (t, q) row).1 (scd2_step ts (t, q) row).2.
Proof.
  intros Hk. unfold scd2_step. cbn [fst snd].
  destruct (row !! u "autorizador") as [[|[|c0 a0]|]|]; try done.
  destruct (latest _) as [c|].
  - destruct (status_changed _ _); [|done]. by apply keyed_insert, keyed_close.
  - by apply keyed_insert.
Qed.

Lemma keyed_filter (Q : HistoryRecord -> Prop) `{!forall r, Decision (Q r)} t q :
  keyed t q -> keyed (filter Q t) q.
Proof.
  intros [Hnd Hlt]. split.
  - clear Hlt. induction t as [|r t IH]; [done|].
    rewrite fmap_cons in Hnd. apply NoDup_cons in Hnd as [Hr Hnd].
    rewrite filter_cons. case_decide; [|by apply IH].
    rewrite fmap_cons. apply NoDup_cons. split; [|by apply IH].
    intros (r' & Hid & [_ Hr']%list_elem_of_filter)%list_elem_of_fmap.
    apply Hr. rewrite Hid. by apply list_elem_of_fmap_2.
  - intros r [_ Hr]%list_elem_of_filter. by apply Hlt.
Qed.

(** Closing the record [id] does not change what a filter selects, when the
    filter selects neither that record nor its closed form. *)
Lemma filter_close_other (P : HistoryRecord -> Prop) `{!forall r, Decision (P r)}
    ts id (t : list HistoryRecord) :
  (forall r, r ∈ t -> rec_id r = id -> ¬ P r /\ ¬ P (closed ts r)) ->
  filter P (close_record ts id <$> t) = filter P t.
Proof.
  induction t as [|r t IH]; intros Hid; [done|].
  rewrite fmap_cons, !filter_cons.
  rewrite IH; [|intros r' Hr' ?; apply Hid; [by right|done]].
  destruct (close_record_cases ts id r) as [[Hr ->]|[_ ->]]; [|done].
  destruct (Hid r) as [? ?]; [left|done|]. by rewrite !decide_False.
Qed.

Lemma records_of_close ts id a (t : list HistoryRecord) :
  records_of a (close_record ts id <$> t) = close_record ts id <$> records_of a t.
Proof.
  unfold records_of. induction t as [|r t IH]; [done|].
  rewrite fmap_cons, !filter_cons, close_record_autorizador, IH.
  by case_decide.
Qed.

Lemma current_of_records a (t : list HistoryRecord) :
  filter (is_current_of a) t = filter (fun r => is_current r = 1) (records_of a t).
Proof.
  unfold records_of. rewrite list_filter_filter. apply list_filter_iff.
  intros r. unfold is_current_of. tauto.
Qed.

Lemma records_of_filter (Q : HistoryRecord -> Prop) `{!forall r, Decision (Q r)} a
    (t : list HistoryRecord) :
  records_of a (filter Q t) = filter Q (records_of a t).
Proof.
  unfold records_of. induction t as [|r t IH]; [done|]. rewrite !filter_cons.
  repeat (case_decide; rewrite ?filter_cons, ?IH); try done.
Qed.

(** ** One iteration of the loop *)

Lemma step_skip ts st row :
  (forall a, names a row -> a = []) -> scd2_step ts st row = st.
Proof.
  unfold names, scd2_step. intros Hn.
  destruct (row !! u "autorizador") as [[|[|c0 a0]|]|]; try done.
  by specialize (Hn _ eq_refl).
Qed.

Lemma step_names ts t q row a :
  names a row -> a <> [] ->
  scd2_step ts (t, q) row
  = match latest (filter (is_current_of a) t) with
    | Some c =>
        if status_changed (status_json c) row
        then ((close_record ts (rec_id c) <$> t) ++ [new_record q a row ts], q + 1)
        else (t, q)
    | None => (t ++ [new_record q a row ts], q + 1)
    end.
Proof.
  unfold names, scd2_step. intros -> Ha. by destruct a.
Qed.

(** The iteration for a row naming [b] leaves the records of [a <> b]. *)
Lemma step_other_records ts t q row a :
  keyed t q -> ¬ names a row ->
  records_of a (scd2_step ts (t, q) row).1 = records_of a t.
Proof.
  intros Hk Hna.
  destruct (row !! u "autorizador") as [[|[|c0 a0]|]|] eqn:Hrow;
    try (rewrite step_skip; [done|intros ? Hn; unfold names in Hn; congruence]).
  rewrite (step_names ts t q row (c0 :: a0)) by done.
  assert (Hne : c0 :: a0 <> a) by (intros <-; by apply Hna).
  assert (Hnew : forall id, records_of a [new_record id (c0 :: a0) row ts] = []).
  { intros id. unfold records_of. by rewrite filter_cons, decide_False. }
  destruct (latest _) as [c|] eqn:Hl.
  - destruct (status_changed _ _); [|done]. cbn [fst].
    unfold records_of in *. rewrite filter_app, Hnew, app_nil_r.
    apply filter_close_other. intros r Hr Hid.
    apply latest_elem, list_elem_of_filter in Hl as [[Hc _] Hct].
    rewrite (keyed_inj t q r c Hk Hr Hct Hid). cbn. split; congruence.
  - cbn [fst]. unfold records_of in *. by rewrite filter_app, Hnew, app_nil_r.
Qed.

(** The iteration for a changed row of [a], whose only record is the
    current record [c]. *)
Lemma step_changed_records ts t q row a c :
  records_of a t = [c] -> is_current c = 1 ->
  names a row -> a <> [] -> status_json c <> row ->
  records_of a (scd2_step ts (t, q) row).1 = [closed ts c; new_record q a row ts].
Proof.
  intros Hrec Hcur Hn Ha Hne. rewrite (step_names ts t q row a) by done.
  rewrite current_of_records, Hrec, filter_cons, decide_True, filter_nil by done.
  rewrite latest_singleton. unfold status_changed. rewrite bool_decide_true by done.
  cbn [fst]. unfold records_of at 1. rewrite filter_app.
  fold (records_of a (close_record ts (rec_id c) <$> t)).
  rewrite records_of_close, Hrec, filter_cons, decide_True, filter_nil by done.
  cbn. unfold close_record. by rewrite decide_True.
Qed.

Lemma steps_keyed ts rows : forall t q,
  keyed t q -> keyed (foldl (scd2_step ts) (t, q) rows).1
                     (foldl (scd2_step ts) (t, q) rows).2.
Proof.
  induction rows as [|row rows IH]; intros t q Hk; [done|]. cbn [foldl].
  pose proof (keyed_step ts t q row Hk) as Hk'.
  destruct (scd2_step ts (t, q) row) as [t' q']. by apply IH.
Qed.

Lemma steps_other_records ts a rows : forall t q,
  keyed t q -> filter (names a) rows = [] ->
  records_of a (foldl (scd2_step ts) (t, q) rows).1 = records_of a t.
Proof.
  induction rows as [|row rows IH]; intros t q Hk Hn; [done|]. cbn [foldl].
  rewrite filter_cons in Hn. case_decide as Hrow; [done|].
  pose proof (keyed_step ts t q row Hk) as Hk'.
  pose proof (step_other_records ts t q row a Hk Hrow) as Hrec.
  destruct (scd2_step ts (t, q) row) as [t' q']. cbn [fst snd] in *.
  by rewrite IH.
Qed.

Lemma steps_changed_records ts a c r rows : forall t q,
  keyed t q -> filter (names a) rows = [r] ->
  records_of a t = [c] -> is_current c = 1 -> a <> [] -> status_json c <> r ->
  exists id, records_of a (foldl (scd2_step ts) (t, q) rows).1
             = [closed ts c; new_record id a r ts].
Proof.
  induction rows as [|row rows IH]; intros t q Hk Hn Hrec Hcur Ha Hne; [done|].
  cbn [foldl]. rewrite filter_cons in Hn.
  pose proof (keyed_step ts t q row Hk) as Hk'.
  case_decide as Hrow.
  - injection Hn as -> Hn. exists q.
    pose proof (step_changed_records ts t q r a c Hrec Hcur Hrow Ha Hne) as Hstep.
    destruct (scd2_step ts (t, q) r) as [t' q']. cbn [fst snd] in *.
    by rewrite steps_other_records.
  - pose proof (step_other_records ts t q row a Hk Hrow) as Hstep.
    destruct (scd2_step ts (t, q) row) as [t' q']. cbn [fst snd] in *.
    apply IH; try done. congruence.
Qed.

(** The iteration for a row naming [a]: afterwards [a] has exactly one
    current record, holding the row, and the current records of the others
    are as before. *)
Lemma step_current ts t q row a :
  keyed t q -> single_current t -> names a row -> a <> [] ->
  (exists c, filter (is_current_of a) (scd2_step ts (t, q) row).1 = [c]
             /\ status_json c = row)
  /\ (forall a', a' <> a ->
        filter (is_current_of a') (scd2_step ts (t, q) row).1
        = filter (is_current_of a') t).
Proof.
  intros Hk [Hone Hnull] Hn Ha. rewrite (step_names ts t q row a) by done.
  destruct (latest (filter (is_current_of a) t)) as [c|] eqn:Hl.
  - pose proof (latest_elem _ _ Hl) as Hc.
    unfold status_changed. case_bool_decide as Hch; cbn [fst].
    + split.
      * exists (new_record q a row ts).
        rewrite filter_app, current_new_record, decide_True by done.
        by rewrite (current_close_none ts a t c).
      * intros a' Ha'.
        rewrite filter_app, current_new_record, decide_False, app_nil_r by done.
        apply filter_close_other. intros r Hr Hid.
        apply list_elem_of_filter in Hc as [[Hca _] Hct].
        rewrite (keyed_inj t q r c Hk Hr Hct Hid).
        split; [|apply closed_not_current]. intros [? _]. congruence.
    + split; [|done]. exists c. split; [by apply short_list_elem|].
      by destruct (decide (status_json c = row)).
  - apply latest_None in Hl. cbn [fst]. split.
    + exists (new_record q a row ts).
      by rewrite filter_app, Hl, current_new_record, decide_True.
    + intros a' Ha'.
      by rewrite filter_app, current_new_record, decide_False, app_nil_r.
Qed.

Lemma settled_step ts t q row seen :
  consistent (seen ++ [row]) -> keyed t q -> single_current t -> settled seen t ->
  settled (seen ++ [row]) (scd2_step ts (t, q) row).1.
Proof.
  intros Hcons Hk Hsc Hseen row' a' Hin Hn' Ha'.
  destruct (decide (names a' row)) as [Hn|Hn].
  - (* the row names the same entity: the rows are equal *)
    assert (row' = row) as ->.
    { apply (Hcons row' row a'); try done. apply elem_of_app. right. left. }
    by apply (step_current ts t q row a').
  - apply elem_of_app in Hin as [Hin| ->%list_elem_of_singleton]; [|done].
    destruct (Hseen row' a' Hin Hn' Ha') as (c & Hc & Hrow).
    exists c. split; [|done]. rewrite <- Hc.
    destruct (row !! u "autorizador") as [[|[|c0 a0]|]|] eqn:Hrow';
      try (rewrite step_skip; [done|intros ? Hx; unfold names in Hx; congruence]).
    apply (step_current ts t q row (c0 :: a0)); try done.
    intros ->. by apply Hn.
Qed.

Lemma settled_steps ts todo : forall seen t q,
  consistent (seen ++ todo) -> keyed t q -> single_current t -> settled seen t ->
  settled (seen ++ todo) (foldl (scd2_step ts) (t, q) todo).1.
Proof.
  induction todo as [|row todo IH]; intros seen t q Hcons Hk Hsc Hseen.
  { by rewrite app_nil_r. }
  cbn [foldl]. rewrite (assoc_L _ seen [row] todo : seen ++ row :: todo = _) in *.
  pose proof (keyed_step ts t q row Hk) as Hk'.
  pose proof (single_current_step ts t q row Hsc) as Hsc'.
  assert (Hcons' : consistent (seen ++ [row])).
  { intros r1 r2 a H1 H2. apply Hcons; apply elem_of_app; by left. }
  pose proof (settled_step ts t q row seen Hcons' Hk Hsc Hseen) as Hset.
  destruct (scd2_step ts (t, q) row) as [t' q']. by apply IH.
Qed.

(** On a settled table the loop changes nothing. *)
Lemma steps_settled ts rows t : forall rows' q,
  settled rows t -> (forall r, r ∈ rows' -> r ∈ rows) ->
  foldl (scd2_step ts) (t, q) rows' = (t, q).
Proof.
  induction rows' as [|row rows' IH]; intros q Hset Hsub; [done|]. cbn [foldl].
  assert (scd2_step ts (t, q) row = (t, q)) as ->; [|apply IH; [done|]].
  2:{ intros r Hr. apply Hsub. by right. }
  destruct (row !! u "autorizador") as [[|[|c0 a0]|]|] eqn:Hrow;
    try (rewrite step_skip; [done|intros ? Hx; unfold names in Hx; congruence]).
  rewrite (step_names ts t q row (c0 :: a0)) by done.
  destruct (Hset row (c0 :: a0)) as (c & -> & Hc); [apply Hsub; left|done..|].
  rewrite latest_singleton. unfold status_changed. by rewrite bool_decide_false by tauto.
Qed.

Lemma settled_retain cutoff rows t :
  single_current t -> settled rows t -> settled rows (retain cutoff t).
Proof.
  intros [_ Hnull] Hset row a Hin Hn Ha.
  destruct (Hset row a Hin Hn Ha) as (c & Hc & Hrow). exists c. split; [|done].
  unfold retain. rewrite current_filter, Hc, filter_cons, decide_True; [done|].
  assert (Hcin : c ∈ filter (is_current_of a) t) by (rewrite Hc; left).
  apply list_elem_of_filter in Hcin as [[_ Hcur] Hct].
  unfold expired. rewrite (Hnull c Hct Hcur). tauto.
Qed.

(** ** Enrichment *)

Lemma scan_values_contains code autorizador info :
  scan_values code autorizador (snd <$> info)
  = if contains autorizador (code, info)
    then Some [(u "relacionado_a", VStr code)] else None.
Proof.
  unfold contains. cbn [snd].
  induction (snd <$> info) as [|val vals IH]; [reflexivity|].
  cbn [scan_values existsb orb]. destruct val as [|s|l]; [exact IH|exact IH|].
  destruct (value_in autorizador l); [reflexivity|exact IH].
Qed.

Lemma scan_info_last autorizador items : forall meta,
  scan_info autorizador items meta
  = match last (filter (fun e => contains autorizador e = true) items) with
    | Some e => [(u "relacionado_a", VStr e.1)]
    | None => meta
    end.
Proof.
  induction items as [|[code info] items IH]; intros meta; [done|].
  cbn [scan_info]. rewrite scan_values_contains, filter_cons.
  destruct (contains autorizador (code, info)) eqn:Hc.
  - rewrite decide_True by done. rewrite IH, last_cons.
    by destruct (last _).
  - rewrite decide_False by done. apply IH.
Qed.

Lemma dict_get_elem {A} k (d : list (ustring * A)) a : dict_get k d = Some a -> (k, a) ∈ d.
Proof.
  induction d as [|[k' a'] d IH]; [done|]. cbn.
  case_decide as Hk; [intros [= <-]; subst; left|]. intros ?%IH. by right.
Qed.

Lemma enrich_meta_keys autorizador kv :
  kv ∈ enrich_meta autorizador -> kv.1 ∈ meta_keys.
Proof.
  unfold enrich_meta.
  assert (Hscan : forall m, m = [] ->
            kv ∈ scan_info autorizador AUTORIZADOR_INFO m -> kv.1 ∈ meta_keys).
  { intros m ->. rewrite scan_info_last. destruct (last _) as [e|].
    - intros ->%list_elem_of_singleton. cbn [fst]. compute_decide.
    - by intros ?%elem_of_nil. }
  destruct autorizador as [|s|l]; try by apply Hscan.
  destruct (dict_get s AUTORIZADOR_INFO) as [info|] eqn:Hd; cbn [default];
    [|by apply Hscan].
  destruct info as [|kv0 info]; [by apply Hscan|].
  apply dict_get_elem in Hd. cbn. intros Hkv.
  assert (Hall : Forall (fun e : ustring * list (ustring * value) =>
                           Forall (fun kv => kv.1 ∈ meta_keys) e.2) AUTORIZADOR_INFO).
  { compute_decide. }
  rewrite Forall_forall in Hall. specialize (Hall _ Hd). cbn in Hall.
  rewrite Forall_forall in Hall. by apply Hall.
Qed.

Section Extraction.
Context `{PyRuntime}.

Lemma meta_keys_fixed k : k ∈ meta_keys -> normalize_key k = k.
Proof.
  intros Hk. apply normalize_key_fixed. revert k Hk. apply Forall_forall.
  compute_decide.
Qed.

(** Enrichment never writes the keys [autorizador] and [status]. *)
Lemma enrich_meta_not_column autorizador kv k :
  kv ∈ enrich_meta autorizador -> k = u "autorizador" \/ k = u "status" ->
  normalize_key kv.1 <> k.
Proof.
  intros Hkv%enrich_meta_keys Hk. rewrite meta_keys_fixed by done.
  intros Heq. rewrite Heq in Hkv. clear Heq. revert Hkv.
  destruct Hk as [-> | ->]; compute_decide.
Qed.

Lemma row_update_lookup meta k : forall row : Row,
  (forall kv, kv ∈ meta -> normalize_key kv.1 <> k) ->
  row_update row meta !! k = row !! k.
Proof.
  unfold row_update. induction meta as [|kv meta IH]; intros row Hne; [done|].
  cbn [foldl]. rewrite IH by (intros; apply Hne; by right).
  apply lookup_insert_ne, Hne. left.
Qed.

(** What the loop over the cells leaves under a key: the value of a cell
    whose header normalises to the key, or what was there before. *)
Lemma parse_cells_value hc k : forall (row : Row) a row' a' v,
  parse_cells hc row a = Some (row', a') -> row' !! k = Some v ->
  row !! k = Some v
  \/ exists h cell, (h, cell) ∈ hc /\ normalize_key h = k /\ cell_value cell = Some v.
Proof.
  induction hc as [|[h cell] hc IH]; intros row a row' a' v.
  { cbn. intros [= <- <-]. auto. }
  cbn [parse_cells]. destruct (cell_value cell) as [w|] eqn:Hw; [|done]. cbn.
  intros Hp Hv. destruct (IH _ _ _ _ _ Hp Hv) as [Hrow|(h' & c' & Hin & Hk & Hc)];
    clear Hp.
  - destruct (decide (normalize_key h = k)) as [Hk|Hk].
    + rewrite Hk, lookup_insert_eq in Hrow. injection Hrow as ->.
      right. exists h, cell. split; [left|done].
    + rewrite lookup_insert_ne in Hrow by done. by left.
  - right. exists h', c'. split; [by right|done].
Qed.

Lemma parse_cells_key hc k : forall (row : Row) a row' a',
  parse_cells hc row a = Some (row', a') ->
  is_Some (row !! k) \/ (exists h cell, (h, cell) ∈ hc /\ normalize_key h = k) ->
  is_Some (row' !! k).
Proof.
  induction hc as [|[h cell] hc IH]; intros row a row' a'.
  { cbn. intros [= <- <-] [?|(? & ? & ?%elem_of_nil & _)]; done. }
  cbn [parse_cells]. destruct (cell_value cell) as [w|] eqn:Hw; [|done]. cbn.
  intros Hp Hk. apply (IH _ _ _ _ Hp). clear Hp.
  destruct (decide (normalize_key h = k)) as [Heq|Hne].
  - left. by rewrite Heq, lookup_insert_eq.
  - rewrite lookup_insert_ne by done.
    destruct Hk as [?|(h' & c' & [[= -> ->]|Hin]%elem_of_cons & Hk)]; [by left|done|].
    right. by exists h', c'.
Qed.

Lemma elem_of_zip_same_length {A B} (l : list A) (k : list B) x :
  length k = length l -> x ∈ l -> exists y, (x, y) ∈ zip l k.
Proof.
  revert k. induction l as [|a l IH]; intros [|b k] Hlen; try done.
  { by intros ?%elem_of_nil. }
  intros [->|Hx]%elem_of_cons.
  - exists b. left.
  - destruct (IH k) as [y Hy]; [by injection Hlen|done|]. exists y. by right.
Qed.

Lemma cell_value_image cell v :
  img cell <> None -> cell_value cell = Some v -> v ∈ VStr <$> status_vocabulary.
Proof.
  unfold cell_value. destruct (img cell) as [[src|]|]; [|done..].
  intros _ [= <-]. apply list_elem_of_fmap_2.
  destruct (IMG_MAP !! split_last 47 src) as [x|] eqn:Hx; cbn [default].
  - apply elem_of_list_to_map_2 in Hx. revert Hx.
    rewrite !elem_of_cons, elem_of_nil. unfold status_vocabulary.
    intros [[= _ ->]|[[= _ ->]|[[= _ ->]|[[= _ ->]|[]]]]]; compute_decide.
  - compute_decide.
Qed.

(** The rows of a successful extraction come from the data rows. *)
Lemma parse_and_enrich_rows t header_row data_rows row :
  trs t = header_row :: data_rows -> validate_table (Some t) = true ->
  row ∈ statuses (parse_and_enrich (Some t)) ->
  exists tr row0 autorizador,
    tr ∈ data_rows
    /\ length (tds tr) = length (ths header_row)
    /\ parse_cells (zip (ths header_row) (tds tr)) ∅ VNone = Some (row0, autorizador)
    /\ row = row_update row0 (enrich_meta autorizador).
Proof.
  intros Htrs Hv. unfold parse_and_enrich. rewrite Hv, Htrs. cbn.
  intros (tr & Htr & Hrow)%list_elem_of_omap. unfold parse_row in Hrow.
  case_decide as Hlen; [done|].
  destruct (parse_cells _ _ _) as [[row0 a]|] eqn:Hp; [|done].
  injection Hrow as <-. exists tr, row0, a. split_and!; try done.
Qed.

End Extraction.

(** Without a direct key, enrichment records the last containing entry. *)
Lemma enrich_meta_last autorizador :
  match autorizador with
  | VStr s => dict_get s AUTORIZADOR_INFO = None
  | _ => True
  end ->
  enrich_meta autorizador
  = match last_containing autorizador with
    | Some code => [(u "relacionado_a", VStr code)]
    | None => []
    end.
Proof.
  unfold enrich_meta, last_containing. intros Hd.
  assert (match autorizador with
          | VStr s => default [] (dict_get s AUTORIZADOR_INFO)
          | _ => []
          end = []) as ->.
  { destruct autorizador; try done. by rewrite Hd. }
  rewrite scan_info_last. by destruct (last _).
Qed.

(** ** The repository's tests, evaluated on the model *)

Section Tests.
Local Existing Instance fragment_runtime.

(** [test_normalize_key] *)
Example test_normalize_key :
  normalize_key (u "Autorizador") = u "autorizador"
  /\ normalize_key (u "Status com Acento!") = u "status_com_acento"
  /\ normalize_key (u "  Espaço  e--caractéres  ") = u "espaco_e_caracteres"
  /\ normalize_key (u "") = u "".
Proof. split_and!; vm_compute; reflexivity. Qed.

(** [test_validate_table] *)
Example test_validate_table :
  validate_table
    (Some {| caption := None;
             trs := [ Sample.header_row ["Autorizador"; "Status"];
                      Sample.data_row [Sample.text_cell "SVAN";
                                       Sample.image_cell "bola_verde_P.png"] ] |})
  = true
  /\ validate_table
       (Some {| caption := None;
                trs := [ Sample.data_row [Sample.text_cell "No headers"] ] |})
     = false.
Proof. split; vm_compute; reflexivity. Qed.

(** [test_parse_timestamp] *)
Example test_parse_timestamp :
  parse_timestamp (Some (u "Última Verificação: 15/01/2024 10:30:00"))
  = Some {| year := 2024; month := 1; day := 15; hour := 10; minute := 30;
            second := 0; microsecond := 0; tzinfo := None |}
  /\ parse_timestamp (Some (u "No timestamp here")) = None.
Proof. split; vm_compute; reflexivity. Qed.

(** [test_scd2_logic]. The rows of the test have the keys [Autorizador]
    and [Status], capitalised: [persist] finds no [autorizador] in them and
    skips them, so that it returns true and writes nothing. With the keys as
    the extractor writes them, the second snapshot closes the record of the
    first and adds its own. *)
Example test_scd2_logic :
  let row status : Row :=
    {[ u "Autorizador" := VStr (u "SVAN"); u "Status" := VStr (u status) ]} in
  persist Sample.cfg (Some Sample.january)
    (Sample.snapshot "2024-01-15T10:30:00" [row "verde"]) empty_database []
  = (Ok true, empty_database)
  /\ persist Sample.cfg (Some Sample.january)
       (Sample.snapshot "2024-01-15T11:30:00" [row "amarelo"]) Sample.db_A []
     = (Ok true, Sample.db_A)
  /\ persist Sample.cfg (Some Sample.january) Sample.snapshot_A empty_database []
     = (Ok true, Sample.db_A)
  /\ persist Sample.cfg (Some Sample.january) Sample.snapshot_B Sample.db_A []
     = (Ok true,
        {| table := [ closed 63840915000000000
                        (new_record 1 (u "SVAN") Sample.row_verde 63840911400000000);
                      new_record 2 (u "SVAN") Sample.row_amarelo 63840915000000000 ];
           id_seq := 3 |}).
Proof. cbn zeta. split_and!; vm_compute; reflexivity. Qed.

(** [test_error_scenarios]: [init_db] when [connect] raises an exception
    that is no [OperationalError] (no second attempt is made; after an
    [OperationalError] the second attempt succeeds), the extraction without a
    table, [save_json] when the temporary file cannot be opened, and
    [persist] of a snapshot without [checked_at]. *)
Example test_error_scenarios :
  init_db None [Some OtherException] = (Ok false, None)
  /\ init_db None [Some OperationalError] = (Ok true, Some empty_database)
  /\ parse_and_enrich None = failed (u "Invalid table structure")
  /\ save_json (Some Sample.january) Sample.snapshot_A Sample.no_files
       [None; Some OtherException]
     = (Ok false, Sample.no_files)
  /\ (persist Sample.cfg (Some Sample.january)
        {| checked_at := None; statuses := []; success := true;
           error_message := None |}
        empty_database []).1 = Ok false.
Proof. split_and!; reflexivity. Qed.

(** The cutoff is taken on the wall clock. At noon on 1 March 2018 in
    [America/Sao_Paulo] (UTC-03:00), thirty days back is noon on 30 January,
    in summer time (UTC-02:00): 14:00 UTC, an hour earlier than thirty times
    24 hours before the reading. A longer retention than the calendar has
    days gives no cutoff. *)
Example test_cutoff :
  cutoff_of Sample.cfg (Sample.reading 2018 3 1 12 0)
  = Some (utc_instant (Sample.reading 2018 3 1 12 0)
          - 30 * microseconds_per_day - 3600000000)
  /\ cutoff_of Sample.cfg Sample.march
     = Some (utc_instant Sample.march - 30 * microseconds_per_day)
  /\ cutoff_of {| RETENTION_MAX_DAYS := 1000000 |} Sample.march = None.
Proof. split_and!; vm_compute; reflexivity. Qed.

End Tests.

(** * Specified properties *)

(** ** History invariant *)

(** C1. Whatever sequence of [persist] and retention calls is run from the
    empty store, with whatever snapshots, clocks, failures of the server and
    interrupts, the table has at most one record with [is_current = 1] per [autorizador]
    and such a record has a null [valid_to]; and every single call of
    [persist] and of [apply_retention_policy] keeps that predicate. *)
Theorem scd2_single_current `{PyRuntime} :
  (forall ops, single_current (table (run ops)))
  /\ (forall cfg now data db fs,
        single_current (table db) ->
        single_current (table (persist cfg now data db fs).2))
  /\ (forall cfg now db fs,
        single_current (table db) ->
        single_current (table (apply_retention_policy cfg now db fs).2)).
Proof.
  split_and!.
  - intros ops. unfold run.
    assert (Hgen : forall db, single_current (table db) ->
                     single_current (table (foldl run_operation db ops))).
    { induction ops as [|o ops IH]; intros db Hdb; [done|].
      cbn [foldl]. by apply IH, single_current_run_operation. }
    apply Hgen, single_current_nil.
  - intros cfg now data db fs Hdb.
    by apply (single_current_run_operation db (Persist cfg now data fs)).
  - intros cfg now db fs Hdb.
    by apply (single_current_run_operation db (Retention cfg now fs)).
Qed.

Lemma scd2_single_current_witness :
  single_current (table empty_database)
  /\ single_current
       (table (@persist fragment_runtime Sample.cfg (Some Sample.january)
                 Sample.snapshot_A empty_database []).2).
Proof.
  assert (Hempty : single_current (table empty_database)).
  { split; [intros a; cbn; lia|]. intros r Hr. by apply elem_of_nil in Hr. }
  split; [exact Hempty|].
  exact (proj1 (proj2 (@scd2_single_current fragment_runtime)) _ _ _ _ _ Hempty).
Defined.

(** ** Idempotence *)

(** C2, as the code has it. Take a store with unique ids that satisfies the
    history invariant, and a snapshot in which rows naming the same
    [autorizador] are equal. If [persist] of the snapshot returns true, then
    a second [persist] of the same snapshot, at whatever clock and with
    whatever failures, inserts and closes nothing: the table is the one left
    by the first call, or that table without the closed records that the
    retention step of the second call prunes, those whose [valid_to] is
    earlier than its cutoff; and every [autorizador] named in the snapshot
    has exactly one current record, which holds the snapshot's row. *)
Theorem persist_idempotent `{PyRuntime} cfg1 now1 fs1 cfg2 now2 fs2 data db :
  well_keyed db -> single_current (table db) -> consistent (statuses data) ->
  (persist cfg1 now1 data db fs1).1 = Ok true ->
  let db1 := (persist cfg1 now1 data db fs1).2 in
  let db2 := (persist cfg2 now2 data db1 fs2).2 in
  (table db2 = table db1
   \/ exists cutoff, now2 ≫= cutoff_of cfg2 = Some cutoff
                     /\ table db2 = retain cutoff (table db1))
  /\ settled (statuses data) (table db2).
Proof.
  intros Hk Hsc Hcons Hfirst. cbn zeta.
  destruct (persist_cases cfg1 now1 data db fs1)
    as [[Hf _]|(_ & ts & Hts & Hq & Ht)]; [congruence|].
  set (db1 := (persist cfg1 now1 data db fs1).2) in *.
  set (st := foldl (scd2_step (utc_instant ts)) (table db, id_seq db) (statuses data)) in *.
  assert (Hset : settled (statuses data) st.1).
  { apply (settled_steps _ (statuses data) []); try done.
    by intros row a Hin%elem_of_nil. }
  assert (Hsc' : single_current st.1) by by apply single_current_steps.
  assert (Hset1 : settled (statuses data) (table db1)).
  { destruct Ht as [-> | (c & _ & ->)]; [done|]. by apply settled_retain. }
  assert (Hsc1 : single_current (table db1)).
  { destruct Ht as [-> | (c & _ & ->)]; [done|]. by apply single_current_filter. }
  destruct (persist_cases cfg2 now2 data db1 fs2)
    as [[_ Ht2]|(_ & ts2 & _ & _ & Ht2)].
  - rewrite Ht2. auto.
  - rewrite (steps_settled _ (statuses data)) in Ht2 by done. cbn [fst] in Ht2.
    split; [done|]. destruct Ht2 as [-> | (c & _ & ->)]; [done|].
    by apply settled_retain.
Qed.

Lemma persist_idempotent_witness :
  let db1 := (@persist fragment_runtime Sample.cfg (Some Sample.january)
                Sample.snapshot_A empty_database []).2 in
  let db2 := (@persist fragment_runtime Sample.cfg (Some Sample.march)
                Sample.snapshot_A db1 []).2 in
  (table db2 = table db1
   \/ exists cutoff, Some Sample.march ≫= cutoff_of Sample.cfg = Some cutoff
                     /\ table db2 = retain cutoff (table db1))
  /\ settled (statuses Sample.snapshot_A) (table db2).
Proof.
  apply (@persist_idempotent fragment_runtime).
  - split; [apply NoDup_nil_2|]. by intros r Hr%elem_of_nil.
  - split; [intros a; cbn; lia|]. by intros r Hr%elem_of_nil.
  - intros r1 r2 a H1%list_elem_of_singleton H2%list_elem_of_singleton _ _.
    congruence.
  - reflexivity.
Defined.

(** C2 as stated fails for a snapshot that lists an [autorizador] twice with
    different rows: the first call leaves two records, the second call closes
    and inserts again and leaves four. *)
Lemma persist_twice_conflicting_rows :
  let db1 := (@persist fragment_runtime Sample.cfg (Some Sample.january)
                Sample.snapshot_twice empty_database []).2 in
  let res2 := @persist fragment_runtime Sample.cfg (Some Sample.january)
                Sample.snapshot_twice db1 [] in
  success Sample.snapshot_twice = true
  /\ (@persist fragment_runtime Sample.cfg (Some Sample.january)
        Sample.snapshot_twice empty_database []).1 = Ok true
  /\ res2.1 = Ok true
  /\ length (table db1) = 2%nat
  /\ length (table res2.2) = 4%nat
  /\ res2.2 <> db1.
Proof.
  cbn zeta. split_and!; try (vm_compute; reflexivity).
  intros Heq. apply (f_equal (fun d => length (table d))) in Heq.
  vm_compute in Heq. discriminate.
Qed.

(** ** Change detection *)

(** C3, as the code has it. Let the only record of [a] in a store with
    unique ids be the current record [c], and let the snapshot have exactly
    one row [r] naming [a], different from the value of [c], with timestamp
    [T2] not older than the cutoff of the retention step (when the step has
    one). If [persist] returns true, the
    records of [a] are exactly two: [c] closed ([valid_to = T2],
    [is_current = 0]) and a new one with [valid_from = T2], a null [valid_to]
    and [is_current = 1], holding [r]. *)
Theorem scd2_change_detection `{PyRuntime} cfg now data db fs a c r ts :
  well_keyed db ->
  records_of a (table db) = [c] -> is_current c = 1 -> a <> [] ->
  filter (names a) (statuses data) = [r] -> status_json c <> r ->
  checked_at data ≫= fromisoformat = Some ts ->
  (forall cutoff, now ≫= cutoff_of cfg = Some cutoff -> ¬ utc_instant ts < cutoff) ->
  (persist cfg now data db fs).1 = Ok true ->
  exists id,
    records_of a (table (persist cfg now data db fs).2)
    = [ {| rec_id := rec_id c; autorizador := autorizador c;
           status_json := status_json c; valid_from := valid_from c;
           valid_to := Some (utc_instant ts); is_current := 0 |};
        {| rec_id := id; autorizador := a; status_json := r;
           valid_from := utc_instant ts; valid_to := None; is_current := 1 |} ].
Proof.
  intros Hk Hrec Hcur Ha Hrows Hne Hts Hfresh Htrue.
  destruct (persist_cases cfg now data db fs)
    as [[Hf _]|(_ & ts' & Hts' & _ & Ht)]; [congruence|].
  assert (ts' = ts) as -> by congruence.
  destruct (steps_changed_records (utc_instant ts) a c r (statuses data)
              (table db) (id_seq db) Hk Hrows Hrec Hcur Ha Hne) as [id Hid].
  exists id. destruct Ht as [-> | (cutoff & Hcut & ->)]; [exact Hid|].
  specialize (Hfresh cutoff Hcut).
  unfold retain. rewrite records_of_filter, Hid.
  rewrite !filter_cons, filter_nil, !decide_True; [done|cbn; tauto|done].
Qed.

Lemma scd2_change_detection_witness :
  exists id,
    records_of (u "SVAN")
      (table (@persist fragment_runtime Sample.cfg (Some Sample.january)
                Sample.snapshot_B Sample.db_A []).2)
    = [ closed 63840915000000000
          (new_record 1 (u "SVAN") Sample.row_verde 63840911400000000);
        new_record id (u "SVAN") Sample.row_amarelo 63840915000000000 ].
Proof.
  refine (@scd2_change_detection fragment_runtime Sample.cfg (Some Sample.january)
            Sample.snapshot_B Sample.db_A [] (u "SVAN")
            (new_record 1 (u "SVAN") Sample.row_verde 63840911400000000)
            Sample.row_amarelo
            {| year := 2024; month := 1; day := 15; hour := 11; minute := 30;
               second := 0; microsecond := 0; tzinfo := None |}
            _ _ _ _ _ _ _ _ _).
  - split; [apply NoDup_singleton|].
    intros r ->%list_elem_of_singleton. cbn. lia.
  - reflexivity.
  - reflexivity.
  - discriminate.
  - vm_compute. reflexivity.
  - intros Heq. apply (f_equal (fun m : Row => m !! u "status")) in Heq.
    vm_compute in Heq. discriminate.
  - reflexivity.
  - intros cutoff Hcut. vm_compute in Hcut. injection Hcut as <-.
    vm_compute. discriminate.
  - vm_compute. reflexivity.
Defined.

(** C3 as stated fails when the snapshot's timestamp is older than the
    retention cutoff: read in March, the January snapshot closes the old
    record and the retention step of the same call deletes it, so that one
    record of [SVAN] is left, not two. *)
Lemma scd2_change_pruned_at_once :
  let res := @persist fragment_runtime Sample.cfg (Some Sample.march)
               Sample.snapshot_B Sample.db_A [] in
  records_of (u "SVAN") (table Sample.db_A)
  = [new_record 1 (u "SVAN") Sample.row_verde 63840911400000000]
  /\ res.1 = Ok true
  /\ records_of (u "SVAN") (table res.2)
     = [new_record 2 (u "SVAN") Sample.row_amarelo 63840915000000000]
  /\ length (records_of (u "SVAN") (table res.2)) <> 2%nat.
Proof.
  cbn zeta. split_and!; try (vm_compute; reflexivity).
  vm_compute. discriminate.
Qed.

(** ** Refusal of invalid snapshots *)

(** C4, as the code has it. A snapshot with [success = false], or whose
    [checked_at] is absent or empty, makes [persist] return false with the
    store as it was, whatever the server would have done and whether or not an
    interrupt was on its way. A snapshot with
    [success = false] makes [save_json] return false with the file system as
    it was. ([save_json] does not look at [checked_at].) *)
Theorem invalid_snapshot_refused `{PyRuntime} cfg now data db fs files io :
  (success data = false \/ truthy (VStr <$> checked_at data) = false ->
   persist cfg now data db fs = (Ok false, db))
  /\ (success data = false ->
      forall clock, save_json clock data files io = (Ok false, files)).
Proof.
  split.
  - apply persist_invalid.
  - unfold save_json. by intros ->.
Qed.

Lemma invalid_snapshot_refused_witness :
  @persist fragment_runtime Sample.cfg (Some Sample.january) Sample.snapshot_undated
    Sample.db_A [] = (Ok false, Sample.db_A)
  /\ @save_json fragment_runtime (Some Sample.january)
       (failed (u "Invalid table structure")) Sample.no_files []
     = (Ok false, Sample.no_files).
Proof.
  split.
  - apply (proj1 (@invalid_snapshot_refused fragment_runtime Sample.cfg
                    (Some Sample.january) Sample.snapshot_undated Sample.db_A []
                    Sample.no_files [])).
    right. reflexivity.
  - apply (proj2 (@invalid_snapshot_refused fragment_runtime Sample.cfg
                    (Some Sample.january) (failed (u "Invalid table structure"))
                    Sample.db_A [] Sample.no_files [])).
    reflexivity.
Defined.

(** C4 as stated fails for [save_json]: a successful snapshot without
    [checked_at] is written out, and [save_json] returns true. *)
Lemma save_json_writes_undated_snapshot :
  let res := @save_json fragment_runtime (Some Sample.january)
               Sample.snapshot_undated Sample.no_files [] in
  success Sample.snapshot_undated = true
  /\ checked_at Sample.snapshot_undated = None
  /\ res.1 = Ok true
  /\ json_file res.2
     = Some (@export_document fragment_runtime Sample.january Sample.snapshot_undated)
  /\ res.2 <> Sample.no_files.
Proof.
  cbn zeta. split_and!; try reflexivity.
  intros Heq.
  apply (f_equal (fun f => bool_decide (json_file f = None))) in Heq.
  vm_compute in Heq. discriminate.
Qed.

(** ** Outcome of [persist] *)

(** C5, as the code has it. For a valid snapshot, [persist] returns true
    exactly when its transaction, from the connection to [conn.commit()],
    completes, the clock of the retention step can be read, and no
    [KeyboardInterrupt] arrives during the retention step. If something
    raises before the commit completes, nothing is committed, and [persist]
    returns false (it lets a [KeyboardInterrupt] through). Once the
    transaction is committed, the store keeps what was committed: an exception
    inside the [try] of the retention step is swallowed and [persist] still
    returns true; when the clock cannot be read, before that [try], [persist]
    returns false although the changes are committed; when the retention step
    completes, the store is what it committed. *)
Theorem persist_outcome `{PyRuntime} cfg now data db fs :
  success data = true -> truthy (VStr <$> checked_at data) = true ->
  let res := persist cfg now data db fs in
  let transaction := get_db_connection 3 (persist_transaction data) (open db fs) in
  match transaction with
  | (Raised e, _) =>
      res.1 = (if is_Exception e then Ok false else Raised e)
      /\ table res.2 = table db
  | (Ok _, s) =>
      match now with
      | None => res.1 = Ok false /\ table res.2 = durable s
      | Some clock =>
          match retention_statements cfg clock s with
          | (Ok _, s') => res.1 = Ok true /\ table res.2 = durable s'
          | (Raised e, _) =>
              res.1 = (if is_Exception e then Ok true else Raised e)
              /\ table res.2 = durable s
          end
      end
  end
  /\ (res.1 = Ok true <->
      exists count s clock,
        transaction = (Ok count, s) /\ now = Some clock
        /\ (retention_statements cfg clock s).1 <> Raised KeyboardInterrupt).
Proof.
  intros Hs Hc. cbn zeta. rewrite persist_unfold by done.
  destruct (get_db_connection 3 _ _) as [[n|e] s] eqn:Hg.
  - unfold retention_on, swallow. destruct now as [clock|]; cbn [fst snd close table].
    + destruct (retention_statements cfg clock s) as [[[]|e] s'] eqn:Hr;
        cbn [except_Exception fst snd table].
      * split; [done|]. split; [|done]. intros _. exists n, s, clock.
        rewrite Hr. done.
      * apply retention_statements_run in Hr as Hrun. destruct Hrun as [_ Hd].
        destruct e; cbn [is_Exception fst snd table].
        -- split; [done|]. split; [|done]. intros _. exists n, s, clock.
           by rewrite Hr.
        -- split; [done|]. split; [|done]. intros _. exists n, s, clock.
           by rewrite Hr.
        -- split; [done|]. split; [done|].
           intros (? & ? & ? & [= <- <-] & [= <-] & Hne). by rewrite Hr in Hne.
    + cbn. split; [done|]. split; [done|]. by intros (? & ? & ? & _ & ? & _).
  - cbn [fst snd close table]. split.
    + split; [done|].
      apply get_db_connection_run in Hg
        as [[_ (Hd & _)]|(s0 & r0 & s1 & (Hd0 & _) & Hb & Hd1 & _ & _ & Hr0)]; [done|].
      rewrite Hd1. destruct r0 as [a|e1].
      * discriminate.
      * apply persist_transaction_run in Hb. cbn [open durable] in Hd0. congruence.
    + split; [by destruct e|]. by intros (? & ? & ? & [=] & _).
Qed.

Lemma persist_outcome_witness :
  let res := @persist fragment_runtime Sample.cfg None Sample.snapshot_A
               empty_database [] in
  res.1 = Ok false /\ table res.2 = table Sample.db_A.
Proof.
  exact (proj1 (@persist_outcome fragment_runtime Sample.cfg None
                  Sample.snapshot_A empty_database [] eq_refl eq_refl)).
Defined.

(** C5 as stated fails for the retention step. When its [DELETE] raises (the
    fifth call), [persist] returns true and the inserted record stays
    committed. When its clock cannot be read, [persist] returns false, and
    the inserted record stays committed as well: nothing is rolled back. *)
Lemma persist_true_when_retention_raises :
  let fs := [None; None; None; None; Some OtherException] in
  let res := @persist fragment_runtime Sample.cfg (Some Sample.january)
               Sample.snapshot_A empty_database fs in
  let res' := @persist fragment_runtime Sample.cfg None Sample.snapshot_A
                empty_database [] in
  (exists s, @get_db_connection nat 3 (@persist_transaction fragment_runtime Sample.snapshot_A)
               (open empty_database fs) = (Ok 1%nat, s)
             /\ (retention_statements Sample.cfg Sample.january s).1
                = Raised OtherException)
  /\ res.1 = Ok true
  /\ table res.2 = table Sample.db_A
  /\ table res.2 <> table empty_database
  /\ res'.1 = Ok false
  /\ table res'.2 = table Sample.db_A.
Proof.
  cbn zeta. split_and!.
  - eexists. split; [vm_compute; reflexivity|reflexivity].
  - reflexivity.
  - vm_compute. reflexivity.
  - vm_compute. intros [=].
  - reflexivity.
  - vm_compute. reflexivity.
Qed.

(** ** Retention *)

(** C6. [apply_retention_policy] deletes exactly the records whose
    [valid_to] is not null and earlier than [now - timedelta(days=max_days)].
    The subtraction is Python's, on the wall clock of the zone of [now]: the
    cutoff is the instant at which that zone shows the wall-clock time of
    [now] moved back by [RETENTION_MAX_DAYS] calendar days, which is that
    many times 24 hours before [now] when the zone has the same offset at
    both times. When the cutoff can be computed and none of the three calls
    (connect, [DELETE], commit) raises, the table afterwards is the table
    before without those records. Otherwise (the subtraction overflows, or a
    call raises) the table is as before; so it is when the clock cannot be
    read, and then the exception leaves [apply_retention_policy]. In every
    case a record with a null [valid_to] stays, and nothing is added. *)
Theorem retention_deletes_expired cfg now db fs :
  let days := RETENTION_MAX_DAYS cfg in
  let wall := wall_clock now - days * microseconds_per_day in
  let cutoff := wall - utcoffset_at (tzinfo now) wall in
  let computed :=
    bool_decide (Z.abs days <= 999999999
                 /\ 0 <= wall < 3652059 * microseconds_per_day) in
  let db' := (apply_retention_policy cfg (Some now) db fs).2 in
  (computed && quiet 3 fs = true ->
   table db' = retain cutoff (table db)
   /\ forall r, r ∈ table db' <->
        r ∈ table db /\ ¬ exists t, valid_to r = Some t /\ t < cutoff)
  /\ (computed && quiet 3 fs = false -> table db' = table db)
  /\ (utcoffset_at (tzinfo now) wall = utcoffset_at (tzinfo now) (wall_clock now) ->
      cutoff = utc_instant now - days * microseconds_per_day)
  /\ apply_retention_policy cfg None db fs = (Raised OtherException, db)
  /\ (forall r, r ∈ table db -> valid_to r = None -> r ∈ table db')
  /\ (forall r, r ∈ table db' -> r ∈ table db).
Proof.
  cbn zeta. rewrite apply_retention_policy_run. cbn [table mbind option_bind].
  set (days := RETENTION_MAX_DAYS cfg).
  set (wall := wall_clock now - days * microseconds_per_day).
  set (cutoff := wall - utcoffset_at (tzinfo now) wall).
  assert (Hcut : cutoff_of cfg now
                 = if bool_decide (Z.abs days <= 999999999
                                   /\ 0 <= wall < 3652059 * microseconds_per_day)
                   then Some cutoff else None).
  { unfold cutoff_of, timedelta_days, in_range. fold days.
    destruct (Z.leb_spec (Z.abs days) 999999999) as [Hd|Hd]; cbn [mbind option_bind].
    - fold wall.
      destruct (Z.leb_spec 0 wall) as [H0|H0];
        destruct (Z.ltb_spec wall (3652059 * microseconds_per_day)) as [H1|H1];
        cbn [andb]; fold cutoff;
        [rewrite bool_decide_eq_true_2 by lia; done
        |rewrite bool_decide_eq_false_2 by lia; done..].
    - rewrite bool_decide_eq_false_2 by lia. done. }
  rewrite Hcut.
  assert (Hexp : forall r, expired cutoff r
                   <-> exists t, valid_to r = Some t /\ t < cutoff).
  { intros r. unfold expired. destruct (valid_to r) as [t|]; split.
    - by exists t.
    - by intros (t' & [= <-] & ?).
    - done.
    - by intros (t' & [=] & _). }
  destruct (bool_decide _); cbn [andb]; split_and!; try done.
  - intros ->. split; [done|]. intros r. unfold retain.
    rewrite list_elem_of_filter, Hexp. tauto.
  - by intros ->.
  - unfold utc_instant. lia.
  - intros r Hr Hnull. destruct (quiet 3 fs); [|done].
    apply list_elem_of_filter. split; [|done]. unfold expired. rewrite Hnull. tauto.
  - intros r. destruct (quiet 3 fs); [|done].
    by intros [_ ?]%list_elem_of_filter.
  - unfold utc_instant. lia.
Qed.

Lemma retention_deletes_expired_witness :
  let old := closed 100 (new_record 1 (u "SVAN") Sample.row_verde 50) in
  let cur := new_record 2 (u "SVAN") Sample.row_amarelo 100 in
  table (apply_retention_policy Sample.cfg (Some Sample.january)
           {| table := [old; cur]; id_seq := 3 |} []).2 = [cur].
Proof.
  cbn zeta.
  rewrite (proj1 (proj1 (retention_deletes_expired Sample.cfg Sample.january
                           {| table := [closed 100 (new_record 1 (u "SVAN") Sample.row_verde 50);
                                        new_record 2 (u "SVAN") Sample.row_amarelo 100];
                              id_seq := 3 |} []) eq_refl)).
  reflexivity.
Defined.

(** ** Key normaliser *)

(** C9. For every input, the output of [normalize_key] has only characters
    of [[a-z0-9_]], neither starts nor ends with an underscore and has no two
    consecutive underscores; the empty input gives the empty output. *)
Theorem normalize_key_shape `{PyRuntime} (s : ustring) :
  let k := normalize_key s in
  (forall c, c ∈ k -> is_lower c = true \/ is_digit c = true \/ c = underscore)
  /\ head k <> Some underscore
  /\ last k <> Some underscore
  /\ has_double_underscore k = false
  /\ normalize_key [] = [].
Proof.
  cbn zeta. destruct (normalize_key_normalized s) as (Hk & Hh & Hl & Hd).
  split_and!; try done; [|apply normalize_key_nil].
  intros c Hc. rewrite forallb_forall in Hk.
  apply list_elem_of_In, Hk in Hc. unfold is_key_char in Hc.
  apply orb_true_iff in Hc as [[?|?]%orb_true_iff|?%N.eqb_eq]; auto.
Qed.

(** C10. [normalize_key] is idempotent. *)
Theorem normalize_key_idempotent `{PyRuntime} (s : ustring) :
  normalize_key (normalize_key s) = normalize_key s.
Proof. apply normalize_key_fixed, normalize_key_normalized. Qed.

(** ** Extracted rows *)

(** C7, as the code has it. A row extracted from a table that passes
    validation comes from a data row with as many cells as there are
    headers. It has the key [autorizador], and likewise the key [status],
    exactly when a header of the table normalises to that key (validation
    asks for only one of the labels [Autorizador] and [Status]), and the
    value under the key is the value of a cell of that column. The value of
    [status] is one of [verde], [amarelo], [vermelho], [cinza],
    [desconhecido] when the cells of the status column hold an image. *)
Theorem extracted_row_columns `{PyRuntime} t header_row data_rows row :
  trs t = header_row :: data_rows ->
  validate_table (Some t) = true ->
  row ∈ statuses (parse_and_enrich (Some t)) ->
  exists tr,
    tr ∈ data_rows
    /\ length (tds tr) = length (ths header_row)
    /\ (forall k, k = u "autorizador" \/ k = u "status" ->
          (is_Some (row !! k) <-> exists h, h ∈ ths header_row /\ normalize_key h = k)
          /\ (forall v, row !! k = Some v ->
                exists h cell, (h, cell) ∈ zip (ths header_row) (tds tr)
                               /\ normalize_key h = k /\ cell_value cell = Some v))
    /\ ((forall h cell, (h, cell) ∈ zip (ths header_row) (tds tr) ->
           normalize_key h = u "status" -> img cell <> None) ->
        forall v, row !! u "status" = Some v -> v ∈ VStr <$> status_vocabulary).
Proof.
  intros Htrs Hv Hrow.
  destruct (parse_and_enrich_rows t header_row data_rows row Htrs Hv Hrow)
    as (tr & row0 & a & Htr & Hlen & Hp & ->).
  assert (Hcol : forall k, k = u "autorizador" \/ k = u "status" ->
            row_update row0 (enrich_meta a) !! k = row0 !! k).
  { intros k Hk. apply row_update_lookup. intros kv Hkv.
    by apply (enrich_meta_not_column a). }
  assert (Hval : forall k v, row0 !! k = Some v ->
            exists h cell, (h, cell) ∈ zip (ths header_row) (tds tr)
                           /\ normalize_key h = k /\ cell_value cell = Some v).
  { intros k v Hk.
    destruct (parse_cells_value _ k _ _ _ _ v Hp Hk) as [Hempty|?]; [|done].
    by rewrite lookup_empty in Hempty. }
  exists tr. split_and!; try done.
  - intros k Hk. rewrite (Hcol k Hk). split; [split|].
    + intros [v Hk0]. destruct (Hval k v Hk0) as (h & cell & Hin & Hn & _).
      exists h. split; [|done]. by apply elem_of_zip_l in Hin.
    + intros (h & Hh & Hn). apply (parse_cells_key _ k _ _ _ _ Hp). right.
      destruct (elem_of_zip_same_length (ths header_row) (tds tr) h Hlen Hh)
        as [cell Hin].
      by exists h, cell.
    + apply Hval.
  - intros Himg v Hst. rewrite Hcol in Hst by auto.
    destruct (Hval _ v Hst) as (h & cell & Hin & Hn & Hc).
    apply (cell_value_image cell); [|done]. by apply (Himg h).
Qed.

Lemma extracted_row_columns_witness :
  exists tr,
    tr ∈ [Sample.data_row [Sample.text_cell "MA";
                           Sample.image_cell "imagens/bola_verde_P.png"]]
    /\ length (tds tr) = length (ths (Sample.header_row ["Autorizador"; "Status"]))
    /\ (forall k, k = u "autorizador" \/ k = u "status" ->
          (is_Some (Sample.row_MA !! k) <->
           exists h, h ∈ ths (Sample.header_row ["Autorizador"; "Status"])
                     /\ @normalize_key fragment_runtime h = k)
          /\ (forall v, Sample.row_MA !! k = Some v ->
                exists h cell,
                  (h, cell) ∈ zip (ths (Sample.header_row ["Autorizador"; "Status"]))
                                 (tds tr)
                  /\ @normalize_key fragment_runtime h = k
                  /\ cell_value cell = Some v))
    /\ ((forall h cell,
           (h, cell) ∈ zip (ths (Sample.header_row ["Autorizador"; "Status"])) (tds tr) ->
           @normalize_key fragment_runtime h = u "status" -> img cell <> None) ->
        forall v, Sample.row_MA !! u "status" = Some v ->
                  v ∈ VStr <$> status_vocabulary).
Proof.
  refine (@extracted_row_columns fragment_runtime Sample.page_MA _ _
            Sample.row_MA eq_refl eq_refl _).
  compute_decide.
Defined.

(** C7 as stated fails on pages that pass validation: when the second header
    is not [Status] the row has no [status] key, and when the status cell
    holds text the value is that text, outside the vocabulary. *)
Lemma validated_rows_without_status :
  validate_table (Some Sample.page_renamed) = true
  /\ (fun row : Row => row !! u "status")
       <$> statuses (@parse_and_enrich fragment_runtime (Some Sample.page_renamed))
     = [None]
  /\ validate_table (Some Sample.page_text_status) = true
  /\ (fun row : Row => row !! u "status")
       <$> statuses (@parse_and_enrich fragment_runtime (Some Sample.page_text_status))
     = [Some (VStr (u "fora do ar"))]
  /\ u "fora do ar" ∉ status_vocabulary.
Proof.
  split_and!; try (vm_compute; reflexivity).
  compute_decide.
Qed.

(** ** Back-reference *)

(** C8, on the row of [MA]. [MA] is no key of the reference data; [SVAN] and
    [SVC-RS] list it, in that order. The specification's first containing
    entry is [SVAN]; the program attaches the single field [relacionado_a]
    with the code [SVC-RS], the last containing entry, because the [break]
    leaves only the loop over the attributes. *)
Theorem relacionado_a_of_MA :
  dict_get (u "MA") AUTORIZADOR_INFO = None
  /\ fst <$> filter (fun e => contains (VStr (u "MA")) e = true) AUTORIZADOR_INFO
     = [u "SVAN"; u "SVC-RS"]
  /\ first_containing (VStr (u "MA")) = Some (u "SVAN")
  /\ enrich_meta (VStr (u "MA")) = [(u "relacionado_a", VStr (u "SVC-RS"))]
  /\ statuses (@parse_and_enrich fragment_runtime (Some Sample.page_MA))
     = [Sample.row_MA].
Proof. split_and!; vm_compute; reflexivity. Qed.

(** * Further properties *)

Local Open Scope Z_scope.

(** ** Connections *)

Lemma call_raises s e rest :
  faults s = Some e :: rest -> call s = (Raised e, with_faults s rest).
Proof. unfold call. by intros ->. Qed.

Lemma call_returns s rest :
  faults s = None :: rest -> call s = (Ok tt, with_faults s rest).
Proof. unfold call. by intros ->. Qed.

Lemma call_quiet s : faults s = [] -> call s = (Ok tt, s).
Proof. unfold call. by intros ->. Qed.

Lemma with_faults_same s : with_faults s (faults s) = s.
Proof. by destruct s. Qed.

(** One attempt that connects. *)
Lemma get_db_connection_connected {A} n (body : DB A) s s1 r s2 :
  connect s = (Ok tt, s1) -> body s1 = (r, s2) ->
  match r with
  | Raised OperationalError =>
      exists e s', get_db_connection (S n) body s = (Raised e, s')
                   /\ e <> OperationalError
                   /\ durable s' = durable s2 /\ seq s' = seq s2
  | _ => get_db_connection (S n) body s = (r, rollback s2)
  end.
Proof.
  intros Hc Hb. cbn [get_db_connection]. rewrite Hc, Hb.
  destruct r as [a|[]]; try done. destruct n as [|n'].
  - eexists _, _. split; [done|]. done.
  - destruct (get_db_connection (S n') (@raise A OtherException) (rollback s2))
      as [r' s'] eqn:Hg.
    apply get_db_connection_raise in Hg as ((e & -> & He) & Hd & Hq & _).
    by exists e, s'.
Qed.

(** X1. [get_db_connection] retries a connection that fails with
    [OperationalError], and nothing else. When the first attempts fail so
    and a later one, among the first [retries], succeeds, the body runs on
    that connection, once: what it returns or raises is the result, and the
    connection is closed; if the body itself raises [OperationalError], it
    is not run again, and another exception comes out. When [retries]
    attempts in a row fail with [OperationalError], another exception
    ([NFEMonitorError]) is raised and the body does not run. When an attempt
    fails with any other exception, that exception comes out at once: no
    further attempt is made and the body does not run. *)
Theorem get_db_connection_retries {A} (retries : nat) (body : DB A) s :
  (forall k rest r s',
     faults s = replicate k (Some OperationalError) ++ None :: rest
     \/ (k = 0%nat /\ faults s = [] /\ rest = []) ->
     (k < retries)%nat ->
     body (with_faults s rest) = (r, s') ->
     match r with
     | Raised OperationalError =>
         exists e s'', get_db_connection retries body s = (Raised e, s'')
                       /\ e <> OperationalError
                       /\ durable s'' = durable s' /\ seq s'' = seq s'
     | _ => get_db_connection retries body s = (r, rollback s')
     end)
  /\ (forall rest, faults s = replicate retries (Some OperationalError) ++ rest ->
        get_db_connection retries body s = (Raised OtherException, with_faults s rest))
  /\ (forall k e rest,
        faults s = replicate k (Some OperationalError) ++ Some e :: rest ->
        e <> OperationalError -> (k < retries)%nat ->
        get_db_connection retries body s = (Raised e, with_faults s rest)).
Proof.
  split_and!.
  - revert s. induction retries as [|n IH]; intros s k rest r s' Hf Hk Hb; [lia|].
    destruct k as [|k].
    + apply get_db_connection_connected with (s1 := with_faults s rest); [|done].
      unfold connect. destruct Hf as [Hf|(_ & Hf & ->)].
      * by apply call_returns.
      * rewrite call_quiet by done. by rewrite <- Hf, with_faults_same.
    + destruct Hf as [Hf|[[=] _]]. cbn in Hf.
      cbn [get_db_connection]. unfold connect. rewrite (call_raises s _ _ Hf).
      destruct n as [|n']; [lia|].
      specialize (IH (with_faults s (replicate k (Some OperationalError) ++ None :: rest))
                    k rest r s').
      cbn [with_faults durable pending seq faults] in IH.
      apply IH; [by left|lia|done].
  - revert s. induction retries as [|n IH]; intros s rest Hf.
    + cbn in *. unfold raise. destruct s; cbn in *. by subst.
    + cbn [get_db_connection]. unfold connect. cbn in Hf.
      rewrite (call_raises s _ _ Hf). destruct n as [|n'].
      * done.
      * by rewrite (IH _ rest).
  - revert s. induction retries as [|n IH]; intros s k e rest Hf He Hk; [lia|].
    cbn [get_db_connection]. unfold connect. destruct k as [|k]; cbn in Hf.
    + rewrite (call_raises s _ _ Hf). by destruct e.
    + rewrite (call_raises s _ _ Hf). destruct n as [|n']; [lia|].
      by rewrite (IH (with_faults s _) k e rest) by (done || lia).
Qed.

Lemma get_db_connection_retries_witness :
  get_db_connection 3 (select_current (u "SVAN"))
    (open Sample.db_A [Some OperationalError; Some OperationalError; None; None])
  = (Ok (Some (new_record 1 (u "SVAN") Sample.row_verde 63840911400000000)),
     open Sample.db_A [])
  /\ get_db_connection 3 (select_current (u "SVAN"))
       (open Sample.db_A [Some OperationalError; Some OtherException; None; None])
     = (Raised OtherException, open Sample.db_A [None; None]).
Proof.
  split.
  - exact (proj1 (get_db_connection_retries 3 (select_current (u "SVAN"))
                    (open Sample.db_A
                       [Some OperationalError; Some OperationalError; None; None]))
             2%nat [None] _ _ (or_introl eq_refl) ltac:(lia) eq_refl).
  - exact (proj2 (proj2 (get_db_connection_retries 3 (select_current (u "SVAN"))
                    (open Sample.db_A
                       [Some OperationalError; Some OtherException; None; None])))
             1%nat OtherException [None; None] eq_refl ltac:(done) ltac:(lia)).
Defined.

(** ** The sequence *)

Lemma seq_grows_bind {A B} (m : DB A) (k : A -> DB B) :
  seq_grows m -> (forall a, seq_grows (k a)) -> seq_grows (m ≫= k).
Proof.
  intros Hm Hk s r s'. rewrite bind_run.
  destruct (m s) as [[a|e] s1] eqn:Hms; apply Hm in Hms.
  - intros ?%Hk. lia.
  - intros [= <- <-]. done.
Qed.

Lemma seq_grows_ret {A} (a : A) : seq_grows (mret a).
Proof. intros s r s' [= <- <-]. done. Qed.

Lemma seq_grows_raise {A} e : seq_grows (@raise A e).
Proof. intros s r s' [= <- <-]. done. Qed.

Lemma seq_grows_call : seq_grows call.
Proof. intros s r s' (_ & _ & ->)%call_same. done. Qed.

Lemma seq_grows_read : seq_grows read.
Proof. intros s r s' [= <- <-]. done. Qed.

Lemma seq_grows_write t : seq_grows (write t).
Proof. intros s r s' [= <- <-]. done. Qed.

Lemma seq_grows_nextval : seq_grows nextval.
Proof. intros s r s' [= <- <-]. cbn. lia. Qed.

Lemma seq_grows_commit : seq_grows commit.
Proof.
  apply seq_grows_bind; [apply seq_grows_call|].
  intros _ s r s' [= <- <-]. done.
Qed.

Lemma seq_grows_swallow m : seq_grows m -> seq_grows (swallow m).
Proof.
  intros Hm s r s'. unfold swallow.
  destruct (m s) as [r1 s1] eqn:Hms; apply Hm in Hms; by intros [= <- <-].
Qed.

Lemma seq_grows_text_param v : seq_grows (text_param v).
Proof. by intros s r s' [-> _]%text_param_run. Qed.

Lemma seq_grows_json_param row : seq_grows (json_param row).
Proof.
  unfold json_param. destruct (row_encodable row); by intros s r s' [= <- <-].
Qed.

Lemma seq_grows_get_db_connection {A} n (body : DB A) :
  seq_grows body -> seq_grows (get_db_connection n body).
Proof.
  intros Hb s r s' Hg.
  apply get_db_connection_run in Hg
    as [(_ & _ & Hq)|(s0 & r0 & s1 & (_ & _ & Hq0) & Hrun & _ & _ & Hq1 & _)].
  - lia.
  - apply Hb in Hrun. lia.
Qed.

Create HintDb seq_grows.

#[local] Hint Resolve seq_grows_ret seq_grows_raise seq_grows_call seq_grows_read
  seq_grows_write seq_grows_nextval seq_grows_commit seq_grows_text_param
  seq_grows_json_param : seq_grows.

Ltac seq_grows :=
  repeat first [ solve [eauto with seq_grows] | apply seq_grows_swallow
               | apply seq_grows_bind; [|intros ?] ].

Lemma seq_grows_persist_rows ts rows : forall n, seq_grows (persist_rows ts rows n).
Proof.
  induction rows as [|row rows IH]; intros n; [apply seq_grows_ret|].
  cbn [persist_rows]. destruct (negb _); [apply IH|].
  apply seq_grows_bind; [apply seq_grows_text_param|].
  intros a.
  apply seq_grows_bind; [unfold select_current; seq_grows|]. intros [c|].
  - destruct (status_changed _ _); [|apply IH].
    apply seq_grows_bind; [unfold update_close; seq_grows|]. intros _.
    apply seq_grows_bind; [unfold insert_current; seq_grows|]. intros _. apply IH.
  - apply seq_grows_bind; [seq_grows|]. intros _.
    apply seq_grows_bind; [unfold insert_current; seq_grows|]. intros _. apply IH.
Qed.

Lemma seq_grows_retention cfg now : seq_grows (retention_on cfg now).
Proof. intros s r s' (-> & _)%retention_on_run. done. Qed.

Lemma seq_grows_persist_body `{PyRuntime} cfg now data :
  seq_grows (persist_body cfg now data).
Proof.
  unfold persist_body, persist_transaction. apply seq_grows_bind.
  - destruct (checked_at data ≫= fromisoformat); [|apply seq_grows_raise].
    destruct (astimezone_utc _); [|apply seq_grows_raise].
    apply seq_grows_bind; [apply seq_grows_persist_rows|]. intros n.
    apply seq_grows_bind; [apply seq_grows_commit|]. intros _. apply seq_grows_ret.
  - intros _. apply seq_grows_bind; [apply seq_grows_retention|].
    intros _. apply seq_grows_ret.
Qed.

Lemma persist_id_seq `{PyRuntime} cfg now data db fs :
  id_seq db <= id_seq (persist cfg now data db fs).2.
Proof.
  unfold persist. destruct (_ || _); [done|].
  destruct (get_db_connection 3 _ _) as [r s] eqn:Hg;
    apply seq_grows_get_db_connection in Hg; try apply seq_grows_persist_body;
    done.
Qed.

(** ** Persister *)

Lemma keyed_weaken t q q' : keyed t q -> q <= q' -> keyed t q'.
Proof. intros [Hnd Hlt] Hq. split; [done|]. intros r ?%Hlt. lia. Qed.

(** X2. [persist] keeps the ids unique and below the sequence, and never
    rewinds the sequence, whether it returns true or false or is
    interrupted. *)
Theorem persist_well_keyed `{PyRuntime} cfg now data db fs :
  well_keyed db ->
  well_keyed (persist cfg now data db fs).2
  /\ id_seq db <= id_seq (persist cfg now data db fs).2.
Proof.
  intros Hk. split; [|apply persist_id_seq]. unfold well_keyed.
  destruct (persist_cases cfg now data db fs)
    as [[_ ->]|(_ & ts & _ & -> & Ht)].
  - eapply keyed_weaken; [done|apply persist_id_seq].
  - pose proof (steps_keyed (utc_instant ts) (statuses data) _ _ Hk) as Hk'.
    destruct Ht as [-> | (c & _ & ->)]; [done|]. by apply keyed_filter.
Qed.

Lemma persist_well_keyed_witness :
  well_keyed (@persist fragment_runtime Sample.cfg (Some Sample.january)
                Sample.snapshot_B Sample.db_A [None; None; Some OperationalError]).2
  /\ id_seq Sample.db_A
     <= id_seq (@persist fragment_runtime Sample.cfg (Some Sample.january)
                  Sample.snapshot_B Sample.db_A
                  [None; None; Some OperationalError]).2.
Proof.
  apply (@persist_well_keyed fragment_runtime).
  split; [apply NoDup_singleton|].
  intros r ->%list_elem_of_singleton. cbn. lia.
Defined.

Lemma persist_rows_skip ts rows : forall n s,
  persist_rows ts rows n s = persist_rows ts (filter has_autorizador rows) n s.
Proof.
  induction rows as [|row rows IH]; intros n s; [done|].
  rewrite filter_cons. destruct (decide (has_autorizador row)) as [Hrow|Hrow].
  - unfold has_autorizador in Hrow. cbn [persist_rows]. rewrite Hrow. cbn [negb].
    rewrite !bind_run. destruct (text_param _ s) as [[a|e] s0]; [|done].
    rewrite !bind_run. destruct (select_current a s0) as [[cur|e] s1]; [|done].
    destruct cur as [c|].
    + destruct (status_changed _ _); [|apply IH].
      rewrite !bind_run. destruct (update_close _ _ s1) as [[[]|e] s2]; [|done].
      rewrite !bind_run. destruct (insert_current _ _ _ s2) as [[[]|e] s3]; [|done].
      apply IH.
    + rewrite !bind_run. cbn [mret DB_ret].
      rewrite !bind_run. destruct (insert_current _ _ _ s1) as [[[]|e] s3]; [|done].
      apply IH.
  - unfold has_autorizador in Hrow. apply not_true_is_false in Hrow.
    cbn [persist_rows]. rewrite Hrow. cbn [negb]. apply IH.
Qed.

Lemma get_db_connection_ext {A} n (m1 m2 : DB A) :
  (forall s, m1 s = m2 s) -> forall s, get_db_connection n m1 s = get_db_connection n m2 s.
Proof.
  intros Hm. induction n as [|n IH]; intros s; [done|]. cbn [get_db_connection].
  destruct (connect s) as [[[]|e] s1].
  - by rewrite Hm.
  - destruct e; try done. destruct n; [done|apply IH].
Qed.

(** X3. [persist] skips the rows without an [autorizador] (no such key, a
    null or an empty value): with or without them in the snapshot, whatever
    happens at the calls, the result and the store are the same. *)
Theorem persist_skips_unnamed_rows `{PyRuntime} cfg now data db fs :
  persist cfg now data db fs
  = persist cfg now (with_statuses data (filter has_autorizador (statuses data))) db fs.
Proof.
  unfold persist. cbn [with_statuses success checked_at].
  destruct (_ || _); [done|].
  rewrite (get_db_connection_ext 3 (persist_body cfg now data)
             (persist_body cfg now
                (with_statuses data (filter has_autorizador (statuses data))))); [done|].
  intros s. unfold persist_body, persist_transaction.
  cbn [with_statuses success checked_at statuses].
  rewrite !bind_run. destruct (checked_at data ≫= fromisoformat) as [ts|]; [|done].
  destruct (astimezone_utc ts) as [ts_str|]; [|done].
  rewrite !bind_run. by rewrite persist_rows_skip.
Qed.

Lemma step_length ts t q row :
  (length (scd2_step ts (t, q) row).1
   <= length t + (if decide (has_autorizador row) then 1 else 0))%nat.
Proof.
  destruct (decide (has_autorizador row)) as [Hrow|Hrow];
    unfold scd2_step, has_autorizador in *; cbn [fst snd].
  - destruct (row !! u "autorizador") as [[|[|c0 a0]|]|]; cbn [fst]; try lia.
    destruct (latest _) as [c|]; [destruct (status_changed _ _)|]; cbn [fst];
      rewrite ?length_app, ?length_fmap; cbn; lia.
  - destruct (row !! u "autorizador") as [[|[|c0 a0]|]|]; cbn [fst]; try lia.
    by destruct Hrow.
Qed.

Lemma steps_length ts rows : forall t q,
  (length (foldl (scd2_step ts) (t, q) rows).1
   <= length t + length (filter has_autorizador rows))%nat.
Proof.
  induction rows as [|row rows IH]; intros t q; [cbn; lia|]. cbn [foldl].
  pose proof (step_length ts t q row) as Hs.
  destruct (scd2_step ts (t, q) row) as [t' q']. cbn [fst] in Hs.
  specialize (IH t' q'). rewrite filter_cons.
  case_decide; cbn [length]; lia.
Qed.

(** X4. One call of [persist] adds at most one record per row of the
    snapshot that has an [autorizador]. *)
Theorem persist_inserts_at_most_one_per_row `{PyRuntime} cfg now data db fs :
  (length (table (persist cfg now data db fs).2)
   <= length (table db) + length (filter has_autorizador (statuses data)))%nat.
Proof.
  destruct (persist_cases cfg now data db fs)
    as [[_ ->]|(_ & ts & _ & _ & [-> | (c & _ & ->)])]; [lia| |].
  - apply steps_length.
  - unfold retain. etrans; [apply length_filter|apply steps_length].
Qed.

Lemma step_seq ts t q row : q <= (scd2_step ts (t, q) row).2.
Proof.
  unfold scd2_step. cbn [fst snd].
  destruct (row !! u "autorizador") as [[|[|c0 a0]|]|]; cbn; try lia.
  destruct (latest _) as [c|]; [destruct (status_changed _ _)|]; cbn; lia.
Qed.

Section History.
Variables (t0 : list HistoryRecord) (q0 : Z) (ts : Z).

Lemma from_old_step t q row :
  keyed t q -> q0 <= q -> from_old t0 q0 ts t ->
  from_old t0 q0 ts (scd2_step ts (t, q) row).1.
Proof.
  intros Hk Hq Hold. unfold scd2_step. cbn [fst snd].
  destruct (row !! u "autorizador") as [[|[|c0 a0]|]|]; try done.
  set (a := c0 :: a0).
  assert (Hnew : forall r', r' ∈ [new_record q a row ts] -> rec_id r' < q0 -> False).
  { intros r' ->%list_elem_of_singleton. cbn. lia. }
  destruct (latest _) as [c|] eqn:Hl.
  - destruct (status_changed _ _); [|done]. cbn [fst].
    intros r' [(r1 & -> & Hr1)%list_elem_of_fmap|Hr']%elem_of_app Hid;
      [|by destruct (Hnew r')].
    apply latest_elem, list_elem_of_filter in Hl as [[_ Hcur] Hc].
    destruct (close_record_cases ts (rec_id c) r1) as [[Hid1 Heq]|[_ Heq]];
      rewrite Heq in *; [|by apply Hold].
    rewrite (keyed_inj t q r1 c Hk Hr1 Hc Hid1) in *.
    destruct (Hold c Hc Hid) as (r & Hr & Hident & Hflags).
    exists r. split; [done|]. split; [exact Hident|]. right.
    destruct Hflags as [[_ Hsame]|(_ & Hzero & _)]; [|congruence].
    split_and!; [congruence|done|by eexists|done].
  - cbn [fst]. intros r' [Hr'|Hr']%elem_of_app Hid; [by apply Hold|].
    by destruct (Hnew r').
Qed.

Lemma from_old_steps rows : forall t q,
  keyed t q -> q0 <= q -> from_old t0 q0 ts t ->
  from_old t0 q0 ts (foldl (scd2_step ts) (t, q) rows).1.
Proof.
  induction rows as [|row rows IH]; intros t q Hk Hq Hold; [done|]. cbn [foldl].
  pose proof (keyed_step ts t q row Hk) as Hk'.
  pose proof (step_seq ts t q row) as Hq'.
  pose proof (from_old_step t q row Hk Hq Hold) as Hold'.
  destruct (scd2_step ts (t, q) row) as [t' q']. cbn [fst snd] in *.
  apply IH; [done|lia|done].
Qed.

End History.

(** X5. [persist] never rewrites history: a record that was in the store
    before the call and is there after it has its [id], [autorizador],
    [status_json] and [valid_from] unchanged, and its [valid_to] and
    [is_current] either unchanged, or set to the snapshot's instant and 0 if
    it was current. *)
Theorem persist_keeps_history `{PyRuntime} cfg now data db fs r' :
  well_keyed db ->
  r' ∈ table (persist cfg now data db fs).2 -> rec_id r' < id_seq db ->
  exists r, r ∈ table db
    /\ kept_or_closed (utc_instant <$> (checked_at data ≫= fromisoformat)) r r'.
Proof.
  intros Hk Hr' Hid.
  assert (Hsame : forall r, r ∈ table db ->
            exists r0, r0 ∈ table db
              /\ kept_or_closed (utc_instant <$> (checked_at data ≫= fromisoformat)) r0 r).
  { intros r Hr. exists r. split; [done|]. split; [done|]. by left. }
  destruct (persist_cases cfg now data db fs)
    as [[_ Ht]|(_ & ts & Hts & _ & Ht)].
  - rewrite Ht in Hr'. by apply Hsame.
  - rewrite Hts. cbn [fmap option_fmap option_map].
    assert (Hold : from_old (table db) (id_seq db) (utc_instant ts)
                     (foldl (scd2_step (utc_instant ts)) (table db, id_seq db)
                        (statuses data)).1).
    { apply from_old_steps; [done|lia|].
      intros r Hr _. exists r. split; [done|]. split; [done|]. by left. }
    apply Hold; [|done]. destruct Ht as [Ht|(c & _ & Ht)]; rewrite Ht in Hr'; [done|].
    by apply list_elem_of_filter in Hr' as [_ ?].
Qed.

Lemma persist_keeps_history_witness :
  exists r, r ∈ table Sample.db_A
    /\ kept_or_closed
         (utc_instant <$> (checked_at Sample.snapshot_B ≫= @fromisoformat fragment_runtime))
         r (closed 63840915000000000
              (new_record 1 (u "SVAN") Sample.row_verde 63840911400000000)).
Proof.
  apply (@persist_keeps_history fragment_runtime Sample.cfg (Some Sample.january)
           Sample.snapshot_B Sample.db_A []).
  - split; [apply NoDup_singleton|].
    intros r ->%list_elem_of_singleton. cbn. lia.
  - compute_decide.
  - cbn. lia.
Defined.

(** X6. When every row of the snapshot that names an [autorizador] equals
    the value of that entity's one current record, [persist] writes nothing:
    the table is as before, but for what its retention step prunes. *)
Theorem persist_unchanged_rows `{PyRuntime} cfg now data db fs :
  settled (statuses data) (table db) ->
  table (persist cfg now data db fs).2 = table db
  \/ exists cutoff, now ≫= cutoff_of cfg = Some cutoff
                    /\ table (persist cfg now data db fs).2
                       = retain cutoff (table db).
Proof.
  intros Hset.
  destruct (persist_cases cfg now data db fs)
    as [[_ Ht]|(_ & ts & _ & _ & Ht)]; [by left|].
  rewrite (steps_settled _ (statuses data)) in Ht by done. exact Ht.
Qed.

Lemma persist_unchanged_rows_witness :
  table (@persist fragment_runtime Sample.cfg (Some Sample.march) Sample.snapshot_A
           Sample.db_A []).2 = table Sample.db_A
  \/ exists cutoff, Some Sample.march ≫= cutoff_of Sample.cfg = Some cutoff
                    /\ table (@persist fragment_runtime Sample.cfg (Some Sample.march)
                                Sample.snapshot_A Sample.db_A []).2
                       = retain cutoff (table Sample.db_A).
Proof.
  apply (@persist_unchanged_rows fragment_runtime).
  intros row a ->%list_elem_of_singleton Hn _.
  unfold names in Hn. vm_compute in Hn. injection Hn as <-.
  eexists. split; reflexivity.
Defined.

(** X7. [persist] leaves the records of an [autorizador] that no row of the
    snapshot names as they are, but for what its retention step prunes. *)
Theorem persist_leaves_other_entities `{PyRuntime} cfg now data db fs b :
  well_keyed db ->
  (forall row, row ∈ statuses data -> ¬ names b row) ->
  records_of b (table (persist cfg now data db fs).2) = records_of b (table db)
  \/ exists cutoff, now ≫= cutoff_of cfg = Some cutoff
                    /\ records_of b (table (persist cfg now data db fs).2)
                       = retain cutoff (records_of b (table db)).
Proof.
  intros Hk Hb.
  assert (Hnone : filter (names b) (statuses data) = []).
  { apply elem_of_nil_inv. intros row [Hn Hin]%list_elem_of_filter. by apply (Hb row). }
  destruct (persist_cases cfg now data db fs)
    as [[_ ->]|(_ & ts & _ & _ & [-> | (c & Hc & ->)])]; [by left| |].
  - left. by apply steps_other_records.
  - right. exists c. split; [done|]. unfold retain. rewrite records_of_filter. f_equal.
    by apply steps_other_records.
Qed.

(** The store holds a record of [SVRS] beside the one of [SVAN]; the
    snapshot names [SVAN] only, whose record is closed and replaced. *)
Lemma persist_leaves_other_entities_witness :
  let rs := new_record 2 (u "SVRS") Sample.row_verde 63840911400000000 in
  let db := {| table := table Sample.db_A ++ [rs]; id_seq := 3 |} in
  let db' := (@persist fragment_runtime Sample.cfg (Some Sample.january)
                Sample.snapshot_B db []).2 in
  records_of (u "SVRS") (table db) = [rs]
  /\ length (table db') = 3%nat
  /\ (records_of (u "SVRS") (table db') = [rs]
      \/ exists cutoff, Some Sample.january ≫= cutoff_of Sample.cfg = Some cutoff
                        /\ records_of (u "SVRS") (table db')
                           = retain cutoff [rs]).
Proof.
  cbn zeta. split; [by vm_compute|]. split; [by vm_compute|].
  apply (@persist_leaves_other_entities fragment_runtime Sample.cfg
           (Some Sample.january) Sample.snapshot_B
           {| table := table Sample.db_A
                       ++ [new_record 2 (u "SVRS") Sample.row_verde 63840911400000000];
              id_seq := 3 |} [] (u "SVRS")).
  - split; [compute_decide|].
    intros r Hr. cbn in Hr. apply elem_of_cons in Hr as [->|Hr]; [cbn; lia|].
    apply list_elem_of_singleton in Hr as ->. cbn. lia.
  - intros row ->%list_elem_of_singleton Hn.
    unfold names in Hn. vm_compute in Hn. discriminate.
Defined.

Lemma step_new_records ts t q row a :
  records_of a t = [] -> names a row -> a <> [] ->
  records_of a (scd2_step ts (t, q) row).1 = [new_record q a row ts].
Proof.
  intros Hrec Hn Ha. rewrite (step_names ts t q row a) by done.
  rewrite current_of_records, Hrec, filter_nil. cbn [latest fst].
  unfold records_of in *. rewrite filter_app, Hrec, filter_cons, decide_True by done.
  done.
Qed.

Lemma steps_new_records ts a r rows : forall t q,
  keyed t q -> filter (names a) rows = [r] -> records_of a t = [] -> a <> [] ->
  exists id, records_of a (foldl (scd2_step ts) (t, q) rows).1 = [new_record id a r ts].
Proof.
  induction rows as [|row rows IH]; intros t q Hk Hn Hrec Ha; [done|].
  cbn [foldl]. rewrite filter_cons in Hn.
  pose proof (keyed_step ts t q row Hk) as Hk'.
  case_decide as Hrow.
  - injection Hn as -> Hn. exists q.
    pose proof (step_new_records ts t q r a Hrec Hrow Ha) as Hstep.
    destruct (scd2_step ts (t, q) r) as [t' q']. cbn [fst snd] in *.
    by rewrite steps_other_records.
  - pose proof (step_other_records ts t q row a Hk Hrow) as Hstep.
    destruct (scd2_step ts (t, q) row) as [t' q']. cbn [fst snd] in *.
    apply IH; try done. congruence.
Qed.

(** X8. An [autorizador] seen for the first time: when the store has no
    record of it and the snapshot has exactly one row naming it, a [persist]
    that returns true leaves exactly one record of it, current, valid from the
    snapshot's instant, with a null [valid_to], holding the row. *)
Theorem persist_first_seen `{PyRuntime} cfg now data db fs a r ts :
  well_keyed db -> records_of a (table db) = [] -> a <> [] ->
  filter (names a) (statuses data) = [r] ->
  checked_at data ≫= fromisoformat = Some ts ->
  (persist cfg now data db fs).1 = Ok true ->
  exists id,
    records_of a (table (persist cfg now data db fs).2)
    = [ {| rec_id := id; autorizador := a; status_json := r;
           valid_from := utc_instant ts; valid_to := None; is_current := 1 |} ].
Proof.
  intros Hk Hrec Ha Hrows Hts Htrue.
  destruct (persist_cases cfg now data db fs)
    as [[Hf _]|(_ & ts' & Hts' & _ & Ht)]; [congruence|].
  assert (ts' = ts) as -> by congruence.
  destruct (steps_new_records (utc_instant ts) a r (statuses data)
              (table db) (id_seq db) Hk Hrows Hrec Ha) as [id Hid].
  exists id. destruct Ht as [-> | (c & _ & ->)]; [exact Hid|].
  unfold retain. rewrite records_of_filter, Hid.
  rewrite filter_cons, filter_nil, decide_True; [done|cbn; tauto].
Qed.

Lemma persist_first_seen_witness :
  exists id,
    records_of (u "SVAN")
      (table (@persist fragment_runtime Sample.cfg (Some Sample.march)
                Sample.snapshot_A empty_database []).2)
    = [ new_record id (u "SVAN") Sample.row_verde 63840911400000000 ].
Proof.
  refine (@persist_first_seen fragment_runtime Sample.cfg (Some Sample.march)
            Sample.snapshot_A empty_database [] (u "SVAN") Sample.row_verde
            {| year := 2024; month := 1; day := 15; hour := 10; minute := 30;
               second := 0; microsecond := 0; tzinfo := None |}
            _ _ _ _ _ _).
  - split; [apply NoDup_nil_2|]. by intros r Hr%elem_of_nil.
  - reflexivity.
  - discriminate.
  - vm_compute. reflexivity.
  - reflexivity.
  - vm_compute. reflexivity.
Defined.

(** ** Retention *)

Lemma retain_retain c1 c2 t : retain c2 (retain c1 t) = retain (Z.max c1 c2) t.
Proof.
  unfold retain. rewrite list_filter_filter. apply list_filter_iff.
  intros r. unfold expired. destruct (valid_to r) as [v|]; [lia|tauto].
Qed.

(** X9. Retention composes: two runs of [apply_retention_policy] in which
    the cutoff can be computed and no call raises leave what one run at the
    later of the two cutoffs leaves; in particular a second run at the same
    clock changes nothing. *)
Theorem retention_composes cfg1 now1 fs1 cfg2 now2 fs2 db c1 c2 :
  now1 ≫= cutoff_of cfg1 = Some c1 -> now2 ≫= cutoff_of cfg2 = Some c2 ->
  quiet 3 fs1 = true -> quiet 3 fs2 = true ->
  let db1 := (apply_retention_policy cfg1 now1 db fs1).2 in
  table (apply_retention_policy cfg2 now2 db1 fs2).2
  = retain (Z.max c1 c2) (table db)
  /\ table (apply_retention_policy cfg1 now1 db1 fs2).2 = table db1.
Proof.
  intros Hc1 Hc2 H1 H2. cbn zeta. rewrite !apply_retention_policy_run.
  cbn [table id_seq].
  rewrite Hc1, Hc2, H1, H2, !retain_retain. split; [done|]. by rewrite Z.max_id.
Qed.

Lemma retention_composes_witness :
  let old := closed 100 (new_record 1 (u "SVAN") Sample.row_verde 50) in
  let cur := new_record 2 (u "SVAN") Sample.row_amarelo 100 in
  let db := {| table := [old; cur]; id_seq := 3 |} in
  let db1 := (apply_retention_policy Sample.cfg (Some Sample.january) db []).2 in
  table (apply_retention_policy Sample.cfg (Some Sample.march) db1 []).2
  = retain (Z.max 63838326660000000 63843507060000000) (table db)
  /\ table (apply_retention_policy Sample.cfg (Some Sample.january) db1 []).2
     = table db1.
Proof.
  cbn zeta. exact (retention_composes Sample.cfg (Some Sample.january) []
                     Sample.cfg (Some Sample.march) [] _ _ _
                     eq_refl eq_refl eq_refl eq_refl).
Defined.

(** X10. Whatever happens at its calls, [apply_retention_policy] keeps the
    remaining records as they were and in their order, leaves the sequence
    alone, and keeps the ids unique and below it. *)
Theorem retention_keeps_the_rest cfg now db fs :
  table (apply_retention_policy cfg now db fs).2 `sublist_of` table db
  /\ id_seq (apply_retention_policy cfg now db fs).2 = id_seq db
  /\ (well_keyed db -> well_keyed (apply_retention_policy cfg now db fs).2).
Proof.
  rewrite apply_retention_policy_run. unfold well_keyed. cbn [table id_seq].
  destruct (now ≫= cutoff_of cfg) as [c|]; [|done].
  destruct (quiet 3 fs); split_and!; try done.
  - apply sublist_filter.
  - apply keyed_filter.
Qed.

Lemma retention_keeps_the_rest_witness :
  well_keyed (apply_retention_policy Sample.cfg (Some Sample.march) Sample.db_A []).2.
Proof.
  apply (retention_keeps_the_rest Sample.cfg (Some Sample.march) Sample.db_A []).
  split; [apply NoDup_singleton|].
  intros r ->%list_elem_of_singleton. cbn. lia.
Defined.

(** ** Exporter *)

Lemma io_ok_spec io :
  io_ok io = true
  <-> raises io 0 = None /\ raises io 1 = None /\ raises io 2 = None
      /\ raises io 3 = None.
Proof.
  unfold io_ok. rewrite bool_decide_eq_true, !Forall_cons, Forall_nil. tauto.
Qed.

Lemma raises_elem io n e : raises io n = Some e -> Some e ∈ io.
Proof.
  unfold raises. destruct (io !! n) as [f|] eqn:Hn; cbn; [|done].
  intros ->. by eapply list_elem_of_lookup_2.
Qed.

Lemma failing_raised e e' : failing e = Raised e' -> e' = KeyboardInterrupt /\ e = e'.
Proof. destruct e; cbn; by intros [= <-]. Qed.

(** The ways [save_json] can go. *)
Lemma save_json_cases `{PyRuntime} now data files io :
  let res := save_json now data files io in
  (res.1 = Ok true <->
   success data = true /\ io_ok io = true /\ is_Some now
   /\ document_encodable data = true)
  /\ (forall clock, now = Some clock -> res.1 = Ok true ->
        res.2 = {| json_file := Some (export_document clock data);
                   temp_files := temp_files files |})
  /\ (res.1 <> Ok true -> json_file res.2 = json_file files)
  /\ temp_files files `prefix_of` temp_files res.2
  /\ (length (temp_files res.2) <= length (temp_files files) + 1)%nat
  /\ (forall e, res.1 = Raised e ->
        e = KeyboardInterrupt /\ Some KeyboardInterrupt ∈ io).
Proof.
  cbn zeta. rewrite io_ok_spec.
  assert (Hfail : forall (r : outcome bool) (fsys : filesystem),
            r <> Ok true ->
            ¬ (success data = true
               /\ (raises io 0 = None /\ raises io 1 = None /\ raises io 2 = None
                   /\ raises io 3 = None)
               /\ is_Some now /\ document_encodable data = true) ->
            json_file fsys = json_file files ->
            (exists l, length l <= 1 /\ temp_files fsys = temp_files files ++ l)%nat ->
            (forall e, r = Raised e ->
               e = KeyboardInterrupt /\ Some KeyboardInterrupt ∈ io) ->
            ((r, fsys).1 = Ok true <->
             success data = true
             /\ (raises io 0 = None /\ raises io 1 = None /\ raises io 2 = None
                 /\ raises io 3 = None)
             /\ is_Some now /\ document_encodable data = true)
            /\ (forall clock, now = Some clock -> (r, fsys).1 = Ok true ->
                  (r, fsys).2 = {| json_file := Some (export_document clock data);
                                   temp_files := temp_files files |})
            /\ ((r, fsys).1 <> Ok true -> json_file (r, fsys).2 = json_file files)
            /\ temp_files files `prefix_of` temp_files (r, fsys).2
            /\ (length (temp_files (r, fsys).2) <= length (temp_files files) + 1)%nat
            /\ (forall e, (r, fsys).1 = Raised e ->
                  e = KeyboardInterrupt /\ Some KeyboardInterrupt ∈ io)).
  { intros r fsys Hr Hcond Hfile (l & Hl & Htemp) Hraise. cbn [fst snd].
    split_and!; try done.
    - rewrite Htemp. by apply prefix_app_r.
    - rewrite Htemp, length_app. lia. }
  assert (Hcall : forall n e (fsys : filesystem),
            raises io n = Some e -> (n < 4)%nat ->
            failing e <> Ok true
            /\ ¬ (success data = true
                  /\ (raises io 0 = None /\ raises io 1 = None /\ raises io 2 = None
                      /\ raises io 3 = None)
                  /\ is_Some now /\ document_encodable data = true)
            /\ (forall e', failing e = Raised e' ->
                  e' = KeyboardInterrupt /\ Some KeyboardInterrupt ∈ io)).
  { intros n e fsys Hn Hlt. split_and!.
    - apply failing_not_true.
    - intros (_ & (H0 & H1 & H2 & H3) & _).
      destruct n as [|[|[|[|n]]]]; [congruence..|lia].
    - intros e' [-> <-]%failing_raised. split; [done|]. by eapply raises_elem. }
  unfold save_json.
  destruct (success data); cbn [negb];
    [|apply Hfail; try done; [by intros (? & _)|exists []; split; [cbn; lia|by rewrite app_nil_r]]].
  destruct (raises io 0) as [e|] eqn:H0.
  { destruct (Hcall 0%nat e files H0) as (? & ? & ?); [lia|].
    apply Hfail; try done. exists []; split; [cbn; lia|by rewrite app_nil_r]. }
  destruct (raises io 1) as [e|] eqn:H1.
  { destruct (Hcall 1%nat e files H1) as (? & ? & ?); [lia|].
    apply Hfail; try done. exists []; split; [cbn; lia|by rewrite app_nil_r]. }
  destruct now as [clock|].
  2:{ apply Hfail; try done.
      - intros (_ & _ & Hnow & _). by destruct Hnow.
      - exists [None]. split; [cbn; lia|done]. }
  destruct (raises io 2) as [e|] eqn:H2.
  { destruct (Hcall 2%nat e files H2) as (? & ? & ?); [lia|].
    apply Hfail; try done. exists [None]. split; [cbn; lia|done]. }
  destruct (document_encodable data) eqn:Henc; cbn [negb].
  2:{ apply Hfail; try done.
      - by intros (_ & _ & _ & ?).
      - exists [None]. split; [cbn; lia|done]. }
  destruct (raises io 3) as [e|] eqn:H3.
  { destruct (Hcall 3%nat e files H3) as (? & ? & ?); [lia|].
    apply Hfail; try done. eexists [_]. split; [cbn; lia|done]. }
  cbn [fst snd json_file temp_files]. split_and!; try done.
  - by intros clock' [= <-] _.
  - lia.
Qed.

(** X11. [save_json] replaces the destination in one step. It returns true
    exactly when the snapshot is successful, none of its file-system calls
    raises, the clock can be read and the document can be encoded; then the
    destination holds the whole document and no temporary file is left.
    Otherwise the destination is what it was; the temporary files that were
    there stay, and at most one is added. The only exception that leaves
    [save_json] is a [KeyboardInterrupt] that arrived at one of its calls. *)
Theorem save_json_atomic `{PyRuntime} now data files io :
  let res := save_json now data files io in
  (res.1 = Ok true <->
   success data = true /\ io_ok io = true /\ is_Some now
   /\ document_encodable data = true)
  /\ (forall clock, now = Some clock -> res.1 = Ok true ->
        res.2 = {| json_file := Some (export_document clock data);
                   temp_files := temp_files files |})
  /\ (res.1 <> Ok true -> json_file res.2 = json_file files)
  /\ temp_files files `prefix_of` temp_files res.2
  /\ (length (temp_files res.2) <= length (temp_files files) + 1)%nat
  /\ (forall e, res.1 = Raised e ->
        e = KeyboardInterrupt /\ Some KeyboardInterrupt ∈ io).
Proof. apply save_json_cases. Qed.

Lemma save_json_atomic_witness :
  (@save_json fragment_runtime (Some Sample.january) Sample.snapshot_A
     Sample.no_files []).2
  = {| json_file := Some (@export_document fragment_runtime Sample.january
                            Sample.snapshot_A);
       temp_files := [] |}.
Proof.
  exact (proj1 (proj2 (@save_json_atomic fragment_runtime (Some Sample.january)
                         Sample.snapshot_A Sample.no_files []))
           Sample.january eq_refl eq_refl).
Defined.

(** X12. Whatever the Unicode database, the exported document has the
    members [checked_at] (null when absent), [statuses] and [metadata], the
    latter with [total_records] equal to the number of rows, [generated_at]
    and [version] "2.0". *)
Theorem export_document_members `{PyRuntime} now data :
  export_document now data
  = [ (u "checked_at",
        JScalar match checked_at data with Some s => JStr s | None => JNull end);
      (u "statuses", JRows (statuses data));
      (u "metadata",
        JObj [ (u "total_records", JNum (Z.of_nat (length (statuses data))));
               (u "generated_at", JStr (isoformat now));
               (u "version", JStr (u "2.0")) ]) ].
Proof.
  unfold export_document.
  rewrite !normalize_key_fixed by compute_decide. done.
Qed.

(** ** Schema initialisation *)

Lemma init_statements_run s r s' :
  (create_table_if_not_exists;; create_index_if_not_exists;;
   create_index_if_not_exists;; commit) s = (r, s') ->
  match r with
  | Ok _ => durable s' = pending s /\ seq s' = seq s
  | Raised _ => True
  end.
Proof.
  unfold create_table_if_not_exists, create_index_if_not_exists.
  rewrite bind_run. destruct (call s) as [[[]|e] s1] eqn:H1;
    apply call_same in H1 as (_ & Hp1 & Hq1); [|by intros [= <- <-]].
  rewrite bind_run. destruct (call s1) as [[[]|e] s2] eqn:H2;
    apply call_same in H2 as (_ & Hp2 & Hq2); [|by intros [= <- <-]].
  rewrite bind_run. destruct (call s2) as [[[]|e] s3] eqn:H3;
    apply call_same in H3 as (_ & Hp3 & Hq3); [|by intros [= <- <-]].
  intros Hc. destruct r; [|done]. apply commit_run in Hc as (-> & _ & ->).
  split; congruence.
Qed.

(** The ways [init_db] can go. *)
Lemma init_db_cases server fs :
  ((init_db server fs).1 = Ok true ->
   (init_db server fs).2 = Some (default empty_database server))
  /\ ((init_db server fs).1 <> Ok true -> (init_db server fs).2 = server)
  /\ forall db fs', (init_db (Some db) fs').2 = Some db.
Proof.
  assert (Hgen : forall srv f,
            ((init_db srv f).1 = Ok true ->
             (init_db srv f).2 = Some (default empty_database srv))
            /\ ((init_db srv f).1 <> Ok true -> (init_db srv f).2 = srv)).
  { intros srv f. unfold init_db.
    destruct (get_db_connection 3 _ _) as [[[]|e] s] eqn:Hg; cbn [fst snd].
    2:{ split; [|done]. intros Hf. by apply failing_not_true in Hf. }
    split; [intros _|done].
    apply get_db_connection_run in Hg
      as [[(e & [=] & _) _]|(s0 & r0 & s1 & (_ & Hp & Hq) & Hb & Hd1 & _ & Hq1 & Hr0)].
    assert (r0 = Ok tt) as ->.
    { destruct r0 as [[]|[]]; try congruence. by destruct Hr0 as (? & ? & _). }
    apply init_statements_run in Hb as [Hd Hs]. f_equal. unfold close.
    rewrite Hd1, Hq1, Hd, Hs, Hp, Hq. cbn. by destruct (default empty_database srv). }
  split_and!; [apply Hgen..|]. intros db fs'.
  destruct (Hgen (Some db) fs') as [Htrue Hother].
  destruct (decide ((init_db (Some db) fs').1 = Ok true)) as [Hr|Hr]; auto.
Qed.

(** X13. [init_db] creates the table when it is missing and never touches
    one that exists: when it returns true the server has the table, empty if
    it was just created and with its rows and sequence as they were
    otherwise; when it returns false or is interrupted the server is as
    before. *)
Theorem init_db_keeps_rows server fs :
  ((init_db server fs).1 = Ok true ->
   (init_db server fs).2 = Some (default empty_database server))
  /\ ((init_db server fs).1 <> Ok true -> (init_db server fs).2 = server)
  /\ forall db fs', (init_db (Some db) fs').2 = Some db.
Proof. apply init_db_cases. Qed.

Lemma init_db_keeps_rows_witness :
  (init_db (Some Sample.db_A) [Some OperationalError; None]).2 = Some Sample.db_A
  /\ (init_db None [None; None; Some KeyboardInterrupt]).2 = None.
Proof.
  split.
  - exact (proj1 (init_db_keeps_rows (Some Sample.db_A) [Some OperationalError; None])
             eq_refl).
  - apply (proj1 (proj2 (init_db_keeps_rows None [None; None; Some KeyboardInterrupt]))).
    discriminate.
Defined.

(** ** After a successful [persist] *)

(** A [persist] that returns true leaves the snapshot settled. *)
Lemma persist_settled `{PyRuntime} cfg now data db fs :
  well_keyed db -> single_current (table db) -> consistent (statuses data) ->
  (persist cfg now data db fs).1 = Ok true ->
  settled (statuses data) (table (persist cfg now data db fs).2).
Proof.
  intros Hk Hsc Hcons Htrue.
  destruct (persist_cases cfg now data db fs)
    as [[Hf _]|(_ & ts & _ & _ & Ht)]; [congruence|].
  assert (Hset : settled (statuses data)
                   (foldl (scd2_step (utc_instant ts)) (table db, id_seq db)
                      (statuses data)).1).
  { apply (settled_steps _ (statuses data) []); try done.
    by intros row a Hin%elem_of_nil. }
  destruct Ht as [-> | (c & _ & ->)]; [done|].
  apply settled_retain; [|done]. by apply single_current_steps.
Qed.

(** X14. After a [persist] that returns true, into a store with unique ids
    that satisfies the history invariant, of a snapshot whose rows naming the
    same [autorizador] are equal: every [autorizador] named in the snapshot
    has exactly one current record, and it holds the snapshot's row. *)
Theorem persist_settles `{PyRuntime} cfg now data db fs :
  well_keyed db -> single_current (table db) -> consistent (statuses data) ->
  (persist cfg now data db fs).1 = Ok true ->
  settled (statuses data) (table (persist cfg now data db fs).2).
Proof. apply persist_settled. Qed.

Lemma persist_settles_witness :
  settled (statuses Sample.snapshot_A)
    (table (@persist fragment_runtime Sample.cfg (Some Sample.march)
              Sample.snapshot_A empty_database []).2).
Proof.
  apply (@persist_settles fragment_runtime).
  - split; [apply NoDup_nil_2|]. by intros r Hr%elem_of_nil.
  - split; [intros a; cbn; lia|]. by intros r Hr%elem_of_nil.
  - intros r1 r2 a H1%list_elem_of_singleton H2%list_elem_of_singleton _ _.
    congruence.
  - reflexivity.
Defined.

(** ** Interrupts *)

Lemma interruptible_bind {A B} (m : DB A) (k : A -> DB B) :
  interruptible m -> (forall a, interruptible (k a)) -> interruptible (m ≫= k).
Proof.
  intros Hm Hk s r s'. rewrite bind_run.
  destruct (m s) as [[a|e] s1] eqn:Hms; apply Hm in Hms as [Hsuf Hint].
  - intros [Hsuf' Hint']%Hk. split; [by etrans|].
    intros Hr. destruct Hsuf as [l ->]. apply elem_of_app. right. by apply Hint'.
  - intros [= <- <-]. split; [done|]. intros [= ->]. by apply Hint.
Qed.

Lemma interruptible_ret {A} (a : A) : interruptible (mret a).
Proof. intros s r s' [= <- <-]. done. Qed.

Lemma interruptible_raise {A} : interruptible (@raise A OtherException).
Proof. intros s r s' [= <- <-]. done. Qed.

Lemma interruptible_call : interruptible call.
Proof.
  intros s r s'. unfold call. destruct (faults s) as [|f fs] eqn:Hf.
  - intros [= <- <-]. rewrite Hf. done.
  - destruct f as [e|]; intros [= <- <-]; cbn [faults];
      (split; [by apply suffix_cons_r|]); [|done].
    intros [= ->]. apply elem_of_cons. by left.
Qed.

Lemma interruptible_read : interruptible read.
Proof. intros s r s' [= <- <-]. done. Qed.

Lemma interruptible_write t : interruptible (write t).
Proof. intros s r s' [= <- <-]. done. Qed.

Lemma interruptible_nextval : interruptible nextval.
Proof. intros s r s' [= <- <-]. done. Qed.

Lemma interruptible_make_durable : interruptible make_durable.
Proof. intros s r s' [= <- <-]. done. Qed.

Lemma interruptible_text_param v : interruptible (text_param v).
Proof.
  unfold text_param. destruct v as [|a|l]; [|destruct (sendable a)|];
    by intros s r s' [= <- <-].
Qed.

Lemma interruptible_json_param row : interruptible (json_param row).
Proof.
  unfold json_param. destruct (row_encodable row); by intros s r s' [= <- <-].
Qed.

Lemma interruptible_swallow m : interruptible m -> interruptible (swallow m).
Proof.
  intros Hm s r s'. unfold swallow.
  destruct (m s) as [r1 s1] eqn:Hms; apply Hm in Hms as [Hsuf Hint].
  intros [= <- <-]. split; [done|]. intros Hr. apply Hint.
  by destruct r1 as [[]|[]].
Qed.

Create HintDb interruptible.

#[local] Hint Resolve interruptible_ret interruptible_raise interruptible_call
  interruptible_read interruptible_write interruptible_nextval
  interruptible_make_durable interruptible_text_param interruptible_json_param
  : interruptible.

Ltac interruptible :=
  repeat first [ solve [eauto with interruptible] | apply interruptible_swallow
               | apply interruptible_bind; [|intros ?] ].

Lemma interruptible_commit : interruptible commit.
Proof. unfold commit. interruptible. Qed.

Lemma interruptible_persist_rows ts rows :
  forall n, interruptible (persist_rows ts rows n).
Proof.
  induction rows as [|row rows IH]; intros n; [apply interruptible_ret|].
  cbn [persist_rows]. destruct (negb _); [apply IH|].
  apply interruptible_bind; [apply interruptible_text_param|]. intros a.
  apply interruptible_bind; [unfold select_current; interruptible|]. intros [c|].
  - destruct (status_changed _ _); [|apply IH].
    apply interruptible_bind; [unfold update_close; interruptible|]. intros _.
    apply interruptible_bind; [unfold insert_current; interruptible|]. intros _.
    apply IH.
  - apply interruptible_bind; [interruptible|]. intros _.
    apply interruptible_bind; [unfold insert_current; interruptible|]. intros _.
    apply IH.
Qed.

Lemma interruptible_retention_on cfg now : interruptible (retention_on cfg now).
Proof.
  unfold retention_on. destruct now as [now|]; [|apply interruptible_raise].
  apply interruptible_swallow. unfold retention_statements.
  destruct (cutoff_of cfg now); [|apply interruptible_raise].
  apply interruptible_bind; [unfold delete_expired; interruptible|].
  intros _. apply interruptible_commit.
Qed.

Lemma interruptible_persist_body `{PyRuntime} cfg now data :
  interruptible (persist_body cfg now data).
Proof.
  unfold persist_body, persist_transaction. apply interruptible_bind.
  - destruct (checked_at data ≫= fromisoformat); [|apply interruptible_raise].
    destruct (astimezone_utc _); [|apply interruptible_raise].
    apply interruptible_bind; [apply interruptible_persist_rows|]. intros n.
    apply interruptible_bind; [apply interruptible_commit|]. intros _.
    apply interruptible_ret.
  - intros _. apply interruptible_bind; [apply interruptible_retention_on|].
    intros _. apply interruptible_ret.
Qed.

Lemma interruptible_get_db_connection {A} n :
  forall body : DB A, interruptible body -> interruptible (get_db_connection n body).
Proof.
  induction n as [|n IH]; intros body Hb; [apply interruptible_raise|].
  intros s r s'. cbn [get_db_connection]. unfold connect.
  destruct (call s) as [[[]|e] s1] eqn:Hc; apply interruptible_call in Hc as [Hsuf Hint].
  - destruct (body s1) as [r2 s2] eqn:Hbody. apply Hb in Hbody as [Hsuf2 Hint2].
    assert (Hin : Some KeyboardInterrupt ∈ faults s1 -> Some KeyboardInterrupt ∈ faults s).
    { intros Hin. destruct Hsuf as [l ->]. apply elem_of_app. by right. }
    assert (Hdone : (r2, rollback s2) = (r, s') ->
              faults s' `suffix_of` faults s
              /\ (r = Raised KeyboardInterrupt -> Some KeyboardInterrupt ∈ faults s)).
    { intros [= <- <-]. cbn [rollback faults]. split; [by etrans|]. auto. }
    destruct r2 as [a|[]]; try exact Hdone.
    destruct n as [|n'].
    + intros [= <- <-]. cbn [rollback faults]. split; [by etrans|done].
    + intros [Hsuf3 Hint3]%(IH _ interruptible_raise). cbn [rollback faults] in *.
      split; [by do 2 (etrans; [done|])|].
      intros Hr. apply Hin. destruct Hsuf2 as [l ->]. apply elem_of_app. right. auto.
  - destruct e.
    + destruct n as [|n'].
      * intros [= <- <-]. done.
      * intros [Hsuf3 Hint3]%(IH _ Hb). split; [by etrans|].
        intros Hr. destruct Hsuf as [l ->]. apply elem_of_app. right. auto.
    + intros [= <- <-]. done.
    + intros [= <- <-]. split; [done|]. auto.
Qed.

(** The only exception that leaves [persist] and [init_db] is a
    [KeyboardInterrupt] that arrived at one of their calls. *)
Lemma persist_raised `{PyRuntime} cfg now data db fs e :
  (persist cfg now data db fs).1 = Raised e ->
  e = KeyboardInterrupt /\ Some KeyboardInterrupt ∈ fs.
Proof.
  unfold persist. destruct (_ || _); [done|].
  destruct (get_db_connection 3 _ _) as [r s] eqn:Hg. cbn [fst].
  apply interruptible_get_db_connection in Hg as [_ Hint];
    [|apply interruptible_persist_body].
  destruct r as [b|[]]; cbn; try done. intros [= <-]. auto.
Qed.

Lemma init_db_raised server fs e :
  (init_db server fs).1 = Raised e ->
  e = KeyboardInterrupt /\ Some KeyboardInterrupt ∈ fs.
Proof.
  unfold init_db.
  destruct (get_db_connection 3 _ _) as [r s] eqn:Hg.
  apply interruptible_get_db_connection in Hg as [_ Hint].
  2:{ unfold create_table_if_not_exists, create_index_if_not_exists, commit.
      interruptible. }
  destruct r as [b|[]]; cbn; try done. intros [= <-]. auto.
Qed.

(** ** Orchestrator *)

Lemma persist_true_dated `{PyRuntime} cfg now data db fs :
  (persist cfg now data db fs).1 = Ok true ->
  success data = true /\ is_Some (checked_at data).
Proof.
  intros Htrue. destruct (success data) eqn:Hs;
    [|by rewrite persist_invalid in Htrue by auto].
  split; [done|]. destruct (checked_at data) as [s|] eqn:Hc; [done|].
  rewrite persist_invalid in Htrue; [done|]. right. by rewrite Hc.
Qed.

Lemma exit_on_status e : exit_on e = 1 \/ exit_on e = 130 /\ e = KeyboardInterrupt.
Proof. destruct e; auto. Qed.

(** X15. The exit status of a run is 0, 1 or 130. It is 130 only when a
    [KeyboardInterrupt] arrived: at a call of [init_db], during the fetch, at
    a call of [persist] or of [save_json], or after them; and it is 130 when
    the fetch is interrupted after [init_db] has returned true. A run that
    exits with 0 met no late interrupt. A run that exits with 1, or with 130
    on an interrupt that was not a late one, leaves the exported file as it
    was. *)
Theorem run_monitor_exit_status `{PyRuntime} cfg c w :
  let res := run_monitor cfg c w in
  (res.1 = 0 \/ res.1 = 1 \/ res.1 = 130)
  /\ (res.1 = 130 -> interrupted c)
  /\ ((init_db (server w) (init_faults c)).1 = Ok true -> page c = Interrupted ->
      res.1 = 130)
  /\ (res.1 = 0 -> late_interrupt c = false)
  /\ (res.1 = 1 \/ (res.1 = 130 /\ late_interrupt c = false) ->
      json_file (files res.2) = json_file (files w)).
Proof.
  cbn zeta. unfold run_monitor, interrupted.
  pose proof (init_db_raised (server w) (init_faults c)) as Hinit.
  destruct (init_db (server w) (init_faults c)) as [[[]|e] server1]; cbn [fst snd] in *.
  3:{ destruct (Hinit e eq_refl) as [-> Hin]. cbn. split_and!; auto; done. }
  2:{ split_and!; auto; done. }
  destruct (page c) as [tbl| |]; cbn [fst snd files];
    [|split_and!; auto; done..].
  destruct (success (parse_and_enrich tbl)); cbn [negb fst snd files];
    [|split_and!; auto; done].
  destruct server1 as [db|]; cbn [fst snd files]; [|split_and!; auto; done].
  pose proof (persist_raised cfg (persist_clock c) (parse_and_enrich tbl) db
                (persist_faults c)) as Hpersist.
  destruct (persist _ _ _ _ _) as [[[]|e] db']; cbn [fst snd files] in *.
  3:{ destruct (Hpersist e eq_refl) as [-> Hin]. cbn. split_and!; auto 6; done. }
  2:{ split_and!; auto; done. }
  pose proof (save_json_cases (export_clock c) (parse_and_enrich tbl) (files w)
                (export_io c)) as (_ & _ & Hfile & _ & _ & Hsave).
  destruct (save_json _ _ _ _) as [[[]|e] files']; cbn [fst snd files] in *.
  - destruct (late_interrupt c); split_and!; auto 6; try done.
    + by intros [[=]|[_ [=]]].
    + by intros [[=]|[[=] _]].
  - split_and!; auto; try done; intros _; by apply Hfile.
  - destruct (Hsave e eq_refl) as [-> Hin]. cbn.
    split_and!; auto 6; try done; intros _; by apply Hfile.
Qed.

(** An interrupt at the [UPDATE] of [persist]: the run exits with 130, and
    the exported file is as it was. *)
Lemma run_monitor_exit_status_witness :
  let c := {| init_faults := []; page := Page (Some Sample.page_MA);
              persist_clock := Some Sample.january;
              persist_faults := [None; None; Some KeyboardInterrupt];
              export_clock := Some Sample.january; export_io := [];
              late_interrupt := false |} in
  let w := {| server := Some Sample.db_A; files := Sample.no_files |} in
  (@run_monitor fragment_runtime Sample.cfg c w).1 = 130
  /\ json_file (files (@run_monitor fragment_runtime Sample.cfg c w).2) = None.
Proof.
  cbn zeta. split; [vm_compute; reflexivity|].
  apply (proj2 (proj2 (proj2 (proj2
           (@run_monitor_exit_status fragment_runtime Sample.cfg
              {| init_faults := []; page := Page (Some Sample.page_MA);
                 persist_clock := Some Sample.january;
                 persist_faults := [None; None; Some KeyboardInterrupt];
                 export_clock := Some Sample.january; export_io := [];
                 late_interrupt := false |}
              {| server := Some Sample.db_A; files := Sample.no_files |}))))).
  right. split; [vm_compute; reflexivity|reflexivity].
Defined.

(** X16. A run that exits with 0 leaves the store and the exported file in
    agreement: when the store had unique ids and satisfied the history
    invariant, and the rows of the page naming the same [autorizador] are
    equal, then the page carried a timestamp, every [autorizador] of the
    extracted snapshot has exactly one current record, holding its row, and
    the exported file is the document of that snapshot. *)
Theorem run_monitor_success `{PyRuntime} cfg c w db tbl :
  server w = Some db -> well_keyed db -> single_current (table db) ->
  page c = Page tbl -> consistent (statuses (parse_and_enrich tbl)) ->
  (run_monitor cfg c w).1 = 0 ->
  let result := parse_and_enrich tbl in
  is_Some (checked_at result)
  /\ (exists clock, export_clock c = Some clock
        /\ json_file (files (run_monitor cfg c w).2)
           = Some (export_document clock result))
  /\ exists db', server (run_monitor cfg c w).2 = Some db'
                 /\ settled (statuses result) (table db').
Proof.
  intros Hsrv Hk Hsc Hpage Hcons. cbn zeta. unfold run_monitor.
  rewrite Hsrv, Hpage.
  pose proof (proj2 (proj2 (init_db_cases (Some db) (init_faults c)))
                db (init_faults c)) as Hinit.
  destruct (init_db (Some db) (init_faults c)) as [[[]|e] server1];
    cbn [negb fst snd] in *; [|done|by destruct e]. subst server1.
  destruct (success (parse_and_enrich tbl)) eqn:Hs; cbn [negb fst snd]; [|done].
  pose proof (persist_settled cfg (persist_clock c) (parse_and_enrich tbl) db
                (persist_faults c) Hk Hsc Hcons) as Hset.
  pose proof (persist_true_dated cfg (persist_clock c) (parse_and_enrich tbl) db
                (persist_faults c)) as Hdated.
  destruct (persist _ _ _ _ _) as [[[]|e] db']; cbn [negb fst snd] in *;
    [|done|by destruct e].
  pose proof (save_json_cases (export_clock c) (parse_and_enrich tbl) (files w)
                (export_io c)) as (Htrue & Hfile & _).
  destruct (save_json _ _ _ _) as [[[]|e] files']; cbn [fst snd files server] in *;
    [|done|by destruct e].
  destruct (late_interrupt c); [done|].
  intros _. split_and!; [by apply Hdated| |].
  - destruct (proj1 Htrue eq_refl) as (_ & _ & [clock Hclock] & _).
    exists clock. split; [done|]. by rewrite (Hfile clock Hclock eq_refl).
  - exists db'. split; [done|by apply Hset].
Qed.

Lemma run_monitor_success_witness :
  let c := {| init_faults := []; page := Page (Some Sample.page_MA);
              persist_clock := Some Sample.january; persist_faults := [];
              export_clock := Some Sample.january; export_io := [];
              late_interrupt := false |} in
  let w := {| server := Some empty_database; files := Sample.no_files |} in
  let result := @parse_and_enrich fragment_runtime (Some Sample.page_MA) in
  is_Some (checked_at result)
  /\ (exists clock, export_clock c = Some clock
        /\ json_file (files (@run_monitor fragment_runtime Sample.cfg c w).2)
           = Some (@export_document fragment_runtime clock result))
  /\ exists db', server (@run_monitor fragment_runtime Sample.cfg c w).2 = Some db'
                 /\ settled (statuses result) (table db').
Proof.
  cbn zeta.
  apply (@run_monitor_success fragment_runtime Sample.cfg _ _ empty_database
           (Some Sample.page_MA)).
  - reflexivity.
  - split; [apply NoDup_nil_2|]. by intros r Hr%elem_of_nil.
  - split; [intros a; cbn; lia|]. by intros r Hr%elem_of_nil.
  - reflexivity.
  - assert (statuses (@parse_and_enrich fragment_runtime (Some Sample.page_MA))
            = [Sample.row_MA]) as -> by (vm_compute; reflexivity).
    intros r1 r2 a H1%list_elem_of_singleton H2%list_elem_of_singleton _ _.
    congruence.
  - vm_compute. reflexivity.
Defined.

(** ** Extractor *)

(** X17. The rows and the success of an extraction do not depend on the
    caption; without a caption the snapshot has no [checked_at]. *)
Theorem extraction_ignores_caption `{PyRuntime} t c :
  statuses (parse_and_enrich (Some (with_caption t c)))
  = statuses (parse_and_enrich (Some t))
  /\ success (parse_and_enrich (Some (with_caption t c)))
     = success (parse_and_enrich (Some t))
  /\ checked_at (parse_and_enrich (Some (with_caption t None))) = None.
Proof.
  unfold parse_and_enrich, validate_table, with_caption. cbn [trs caption].
  destruct (trs t) as [|hr data]; [done|].
  destruct (length (ths hr) <? 2)%nat; [done|].
  by destruct (existsb _ _).
Qed.

Lemma cell_value_None cell : cell_value cell = None <-> img cell = Some None.
Proof. unfold cell_value. destruct (img cell) as [[src|]|]; by split. Qed.

Lemma parse_cells_Some `{PyRuntime} hc : forall (row : Row) a,
  is_Some (parse_cells hc row a)
  <-> forall h cell, (h, cell) ∈ hc -> img cell <> Some None.
Proof.
  induction hc as [|[h cell] hc IH]; intros row a.
  { split; [by intros _ ? ? ?%elem_of_nil|by eexists]. }
  cbn [parse_cells]. destruct (cell_value cell) as [v|] eqn:Hv; cbn.
  - etrans; [apply IH|]. split.
    + intros Hall h' c' [[= -> ->]|Hin]%elem_of_cons; [|by apply (Hall h')].
      intros Hi%cell_value_None. congruence.
    + intros Hall h' c' Hin. apply (Hall h' c'). by right.
  - split; [by intros [? [=]]|]. intros Hall. destruct (Hall h cell); [left|].
    by apply cell_value_None.
Qed.

Lemma elem_of_zip_r_same_length {A B} (l : list A) (k : list B) y :
  length k = length l -> y ∈ k -> exists x, (x, y) ∈ zip l k.
Proof.
  revert k. induction l as [|a l IH]; intros [|b k] Hlen; try done.
  { by intros ?%elem_of_nil. }
  intros [->|Hy]%elem_of_cons.
  - exists a. left.
  - destruct (IH k) as [x Hx]; [by injection Hlen|done|]. exists x. by right.
Qed.

Lemma parse_row_Some `{PyRuntime} headers tr :
  is_Some (parse_row headers tr) <-> row_kept headers tr.
Proof.
  unfold parse_row, row_kept. case_decide as Hlen.
  - split; [by intros [? [=]]|]. by intros [? _].
  - assert (Hlen' : length (tds tr) = length headers)
      by (by destruct (decide (length (tds tr) = length headers))).
    destruct (parse_cells _ _ _) as [[row a]|] eqn:Hp.
    + split; [|by eexists]. intros _. split; [done|].
      apply Forall_forall. intros cell Hcell.
      destruct (elem_of_zip_r_same_length headers (tds tr) cell Hlen' Hcell)
        as [h Hin].
      assert (Hs : is_Some (parse_cells (zip headers (tds tr)) ∅ VNone))
        by by rewrite Hp.
      by apply (proj1 (parse_cells_Some _ _ _) Hs h).
    + split; [by intros [? [=]]|]. intros [_ Hall].
      assert (Hs : is_Some (parse_cells (zip headers (tds tr)) ∅ VNone)).
      { apply parse_cells_Some. intros h cell Hin%elem_of_zip_r.
        rewrite Forall_forall in Hall. by apply Hall. }
      rewrite Hp in Hs. by destruct Hs.
Qed.

Lemma length_omap_filter {A B} (f : A -> option B) (P : A -> Prop)
    `{!forall x, Decision (P x)} (l : list A) :
  (forall x, is_Some (f x) <-> P x) -> length (omap f l) = length (filter P l).
Proof.
  intros Hf. induction l as [|x l IH]; [done|]. rewrite filter_cons.
  change (omap f (x :: l))
    with (match f x with Some y => y :: omap f l | None => omap f l end).
  destruct (f x) as [y|] eqn:Hx.
  - rewrite decide_True by (apply Hf; by rewrite Hx). cbn [length]. by rewrite IH.
  - rewrite decide_False; [done|]. intros HP%Hf. rewrite Hx in HP. by destruct HP.
Qed.

(** X18. The extractor keeps a data row exactly when it has as many cells as
    there are headers and no image without a [src]; the other rows are
    skipped and the extraction goes on. *)
Theorem extraction_keeps_rows `{PyRuntime} t header_row data_rows :
  trs t = header_row :: data_rows -> validate_table (Some t) = true ->
  (forall tr, is_Some (parse_row (ths header_row) tr) <-> row_kept (ths header_row) tr)
  /\ length (statuses (parse_and_enrich (Some t)))
     = length (filter (row_kept (ths header_row)) data_rows).
Proof.
  intros Htrs Hv. split; [intros tr; apply parse_row_Some|].
  unfold parse_and_enrich. rewrite Hv, Htrs. cbn.
  apply length_omap_filter. intros tr. apply parse_row_Some.
Qed.

Lemma extraction_keeps_rows_witness :
  length (statuses (@parse_and_enrich fragment_runtime (Some Sample.page_MA)))
  = length (filter (row_kept (ths (Sample.header_row ["Autorizador"; "Status"])))
              [Sample.data_row [Sample.text_cell "MA";
                                Sample.image_cell "imagens/bola_verde_P.png"]]).
Proof.
  exact (proj2 (@extraction_keeps_rows fragment_runtime Sample.page_MA _ _
                  eq_refl eq_refl)).
Defined.

Lemma parse_cells_keys `{PyRuntime} (P : ustring -> Prop) hc : forall (row : Row) a row' a',
  (forall h, P (normalize_key h)) -> (forall k, is_Some (row !! k) -> P k) ->
  parse_cells hc row a = Some (row', a') -> forall k, is_Some (row' !! k) -> P k.
Proof.
  induction hc as [|[h cell] hc IH]; intros row a row' a' HP Hrow.
  { cbn. by intros [= <- <-]. }
  cbn [parse_cells]. destruct (cell_value cell) as [v|]; [|done]. cbn.
  apply IH; [done|]. intros k. destruct (decide (normalize_key h = k)) as [<-|Hne].
  - intros _. apply HP.
  - rewrite lookup_insert_ne by done. apply Hrow.
Qed.

Lemma row_update_keys `{PyRuntime} (P : ustring -> Prop) meta : forall row : Row,
  (forall h, P (normalize_key h)) -> (forall k, is_Some (row !! k) -> P k) ->
  forall k, is_Some (row_update row meta !! k) -> P k.
Proof.
  unfold row_update. induction meta as [|kv meta IH]; intros row HP Hrow; [done|].
  cbn [foldl]. apply IH; [done|]. intros k.
  destruct (decide (normalize_key kv.1 = k)) as [<-|Hne].
  - intros _. apply HP.
  - rewrite lookup_insert_ne by done. apply Hrow.
Qed.

(** X19. Every key of every extracted row is a normalised key: characters
    of [[a-z0-9_]] only, no underscore at either end, no two in a row. *)
Theorem extracted_keys_normalized `{PyRuntime} table row k :
  row ∈ statuses (parse_and_enrich table) -> is_Some (row !! k) -> normalized k.
Proof.
  unfold parse_and_enrich. destruct (negb _); [by intros ?%elem_of_nil|].
  destruct table as [t|]; [|by intros ?%elem_of_nil].
  destruct (trs t) as [|hr data]; [by intros ?%elem_of_nil|]. cbn.
  intros (tr & _ & Hrow)%list_elem_of_omap. unfold parse_row in Hrow.
  case_decide; [done|].
  destruct (parse_cells _ _ _) as [[row0 a]|] eqn:Hp; [|done].
  injection Hrow as <-. apply row_update_keys; [apply normalize_key_normalized|].
  eapply (parse_cells_keys normalized); [apply normalize_key_normalized| |exact Hp].
  intros k' [v Hv]. by rewrite lookup_empty in Hv.
Qed.

Lemma extracted_keys_normalized_witness : normalized (u "relacionado_a").
Proof.
  apply (@extracted_keys_normalized fragment_runtime (Some Sample.page_MA)
           Sample.row_MA); [compute_decide|by eexists].
Defined.

Lemma row_update_lookup_in `{PyRuntime} meta : forall (row : Row) k v,
  NoDup meta.*1 -> (forall kv, kv ∈ meta -> normalize_key kv.1 = kv.1) ->
  (k, v) ∈ meta -> row_update row meta !! k = Some v.
Proof.
  induction meta as [|kv meta IH]; intros row k v Hnd Hfix; [by intros ?%elem_of_nil|].
  rewrite fmap_cons in Hnd. apply NoDup_cons in Hnd as [Hkv Hnd].
  change (row_update row (kv :: meta))
    with (row_update (<[normalize_key kv.1 := kv.2]> row) meta).
  intros [Heq|Hin]%elem_of_cons.
  - subst kv. rewrite row_update_lookup.
    + rewrite Hfix by left. cbn [fst snd]. by rewrite lookup_insert_eq.
    + intros kv' Hkv'. rewrite Hfix by by right. cbn in *. intros Heq.
      apply Hkv. rewrite <- Heq. by apply list_elem_of_fmap_2.
  - apply IH; [done| |done]. intros kv' ?. apply Hfix. by right.
Qed.

(** X20. An identifier that is a key of the reference data gets the
    attributes of its own entry, each under its own name, and no
    back-reference. *)
Theorem direct_match_metadata `{PyRuntime} (s : ustring)
    (info : list (ustring * value)) (row0 : Row) :
  dict_get s AUTORIZADOR_INFO = Some info ->
  enrich_meta (VStr s) = info
  /\ (forall k v, (k, v) ∈ info -> row_update row0 (enrich_meta (VStr s)) !! k = Some v)
  /\ row_update row0 (enrich_meta (VStr s)) !! u "relacionado_a"
     = row0 !! u "relacionado_a".
Proof.
  intros Hd.
  assert (Hall : Forall (fun e : ustring * list (ustring * value) =>
                           e.2 <> [] /\ NoDup e.2.*1
                           /\ Forall (fun kv => kv.1 ∈ meta_keys
                                                /\ kv.1 <> u "relacionado_a") e.2)
                   AUTORIZADOR_INFO) by compute_decide.
  rewrite Forall_forall in Hall.
  destruct (Hall _ (dict_get_elem _ _ _ Hd)) as (Hne & Hnd & Hkeys).
  cbn [fst snd] in Hne, Hnd, Hkeys. rewrite Forall_forall in Hkeys.
  assert (Hmeta : enrich_meta (VStr s) = info).
  { unfold enrich_meta. rewrite Hd. cbn [default].
    destruct info as [|kv0 info']; [by destruct Hne|reflexivity]. }
  rewrite Hmeta. split_and!; [done| |].
  - intros k v Hin. apply row_update_lookup_in; [done| |done].
    intros kv Hkv. apply meta_keys_fixed. by apply Hkeys.
  - apply row_update_lookup. intros kv Hkv.
    rewrite meta_keys_fixed by by apply Hkeys. by apply Hkeys.
Qed.

Lemma direct_match_metadata_witness :
  enrich_meta (VStr (u "SVAN"))
  = [ (u "tipo", VStr (u "Sefaz Virtual Ambiente Nacional"));
      (u "ufs_autorizador", VList [u "MA"]) ].
Proof.
  exact (proj1 (@direct_match_metadata fragment_runtime (u "SVAN") _ ∅ eq_refl)).
Defined.

(** X21. An identifier that is no key of the reference data gets no
    metadata when no entry lists it, and otherwise the single field
    [relacionado_a] with the code of an entry that lists it. *)
Theorem related_metadata autorizador :
  match autorizador with
  | VStr s => dict_get s AUTORIZADOR_INFO = None
  | _ => True
  end ->
  (enrich_meta autorizador = []
   /\ forall e, e ∈ AUTORIZADOR_INFO -> contains autorizador e = false)
  \/ (exists e, e ∈ AUTORIZADOR_INFO /\ contains autorizador e = true
                /\ enrich_meta autorizador = [(u "relacionado_a", VStr e.1)]).
Proof.
  intros Hd. rewrite (enrich_meta_last autorizador Hd). unfold last_containing.
  destruct (last _) as [e|] eqn:Hl; cbn [fmap option_fmap option_map].
  - right. exists e. apply last_Some_elem_of, list_elem_of_filter in Hl as [Hc He].
    split_and!; [exact He|exact Hc|reflexivity].
  - left. split; [reflexivity|]. apply last_None in Hl. intros e He.
    destruct (contains autorizador e) eqn:Hc; [|done].
    assert (e ∈ filter (fun e => contains autorizador e = true) AUTORIZADOR_INFO)
      by by apply list_elem_of_filter.
    rewrite Hl in *. by apply elem_of_nil in H.
Qed.

Lemma related_metadata_witness :
  (enrich_meta (VStr (u "XX")) = []
   /\ forall e, e ∈ AUTORIZADOR_INFO -> contains (VStr (u "XX")) e = false)
  \/ (exists e, e ∈ AUTORIZADOR_INFO /\ contains (VStr (u "XX")) e = true
                /\ enrich_meta (VStr (u "XX")) = [(u "relacionado_a", VStr e.1)]).
Proof. exact (related_metadata (VStr (u "XX")) eq_refl). Defined.

Lemma take_until_app sep (l r : ustring) :
  sep ∉ l -> take_until sep (l ++ sep :: r) = l.
Proof.
  induction l as [|c l IH]; intros Hl.
  - cbn [app take_until]. by rewrite N.eqb_refl.
  - cbn [app take_until]. apply not_elem_of_cons in Hl as [Hc Hl].
    replace (c =? sep)%N with false by (symmetry; apply N.eqb_neq; congruence).
    by rewrite IH.
Qed.

Lemma take_until_all sep (l : ustring) : sep ∉ l -> take_until sep l = l.
Proof.
  induction l as [|c l IH]; intros Hl; [reflexivity|].
  cbn [take_until]. apply not_elem_of_cons in Hl as [Hc Hl].
  replace (c =? sep)%N with false by (symmetry; apply N.eqb_neq; congruence).
  by rewrite IH.
Qed.

Lemma split_last_segment sep (dir file : ustring) :
  sep ∉ file ->
  split_last sep (dir ++ sep :: file) = file /\ split_last sep file = file.
Proof.
  intros Hf. assert (Hr : sep ∉ reverse file) by by rewrite elem_of_reverse.
  unfold split_last. split.
  - rewrite reverse_app, reverse_cons.
    rewrite <- (assoc_L (++) (reverse file) [sep] (reverse dir)). cbn [app].
    rewrite take_until_app by exact Hr. apply reverse_involutive.
  - rewrite take_until_all by exact Hr. apply reverse_involutive.
Qed.

(** X22. Only the last path segment of an image's [src] decides the status:
    whatever directories precede the file name, the cell's value is the
    status that [IMG_MAP] gives for the file name, and [desconhecido] when
    the file name is not in [IMG_MAP]. *)
Theorem image_status_by_filename (dir file : ustring) :
  47%N ∉ file ->
  cell_value (image (dir ++ 47%N :: file))
  = Some (VStr (default (u "desconhecido") (IMG_MAP !! file)))
  /\ cell_value (image file)
     = Some (VStr (default (u "desconhecido") (IMG_MAP !! file))).
Proof.
  intros Hf. destruct (split_last_segment 47%N dir file Hf) as [H1 H2].
  unfold cell_value, image. cbn [img mbind option_bind].
  by rewrite H1, H2.
Qed.

Lemma image_status_by_filename_witness :
  cell_value (image (u "https://www.nfe.fazenda.gov.br/portal/imagens/bola_amarela_P.png"))
  = Some (VStr (default (u "desconhecido") (IMG_MAP !! u "bola_amarela_P.png"))).
Proof.
  refine (proj1 (image_status_by_filename
                   (u "https://www.nfe.fazenda.gov.br/portal/imagens")
                   (u "bola_amarela_P.png") _)).
  compute_decide.
Defined.

(** ** Key normaliser *)

Local Open Scope N_scope.

Lemma alnums_cons c s :
  alnums (c :: s) = if is_alnum c then c :: alnums s else alnums s.
Proof.
  destruct (is_alnum c) eqn:Hc.
  - exact (filter_cons_True (fun c => is_alnum c = true) c s Hc).
  - apply (filter_cons_False (fun c => is_alnum c = true) c s). by rewrite Hc.
Qed.

Lemma alnums_sub_non_alnum s : alnums (sub_non_alnum s) = alnums s.
Proof.
  unfold sub_non_alnum. induction s as [|c s IH]; [reflexivity|].
  rewrite fmap_cons, !alnums_cons, IH.
  destruct (is_alnum c) eqn:Hc; [by rewrite Hc|reflexivity].
Qed.

Lemma alnums_underscore s : alnums (underscore :: s) = alnums s.
Proof. by rewrite alnums_cons. Qed.

Lemma alnums_sub_underscores s : alnums (sub_underscores s) = alnums s.
Proof.
  induction s as [|c s IH]; [reflexivity|]. cbn [sub_underscores].
  destruct (N.eqb_spec c underscore) as [->|Hc].
  - destruct s as [|d s]; [reflexivity|].
    destruct (N.eqb_spec d underscore) as [->|Hd].
    + by rewrite IH, !alnums_underscore.
    + by rewrite !alnums_underscore, IH.
  - by rewrite !alnums_cons, IH.
Qed.

Lemma alnums_lstrip s : alnums (lstrip underscore s) = alnums s.
Proof.
  induction s as [|c s IH]; [reflexivity|]. cbn [lstrip].
  destruct (N.eqb_spec c underscore) as [->|Hc]; [|reflexivity].
  by rewrite IH, alnums_underscore.
Qed.

Lemma alnums_reverse s : alnums (reverse s) = reverse (alnums s).
Proof. unfold alnums. apply filter_reverse. Qed.

Lemma alnums_strip s : alnums (strip underscore s) = alnums s.
Proof.
  unfold strip, rstrip.
  by rewrite alnums_reverse, alnums_lstrip, alnums_reverse, reverse_involutive,
    alnums_lstrip.
Qed.

Lemma is_alnum_lower c : is_alnum (ascii_lower c) = is_alnum c.
Proof.
  unfold ascii_lower. destruct (is_upper c) eqn:Hu; [|reflexivity].
  unfold is_alnum. rewrite Hu, orb_true_r. cbn [orb].
  unfold is_upper, is_lower in *.
  apply andb_true_iff in Hu as [?%N.leb_le ?%N.leb_le].
  replace (97 <=? c + 32) with true by (symmetry; apply N.leb_le; lia).
  by replace (c + 32 <=? 122) with true by (symmetry; apply N.leb_le; lia).
Qed.

Lemma alnums_lower s : alnums (ascii_lower <$> s) = ascii_lower <$> alnums s.
Proof.
  induction s as [|c s IH]; [reflexivity|].
  rewrite fmap_cons, !alnums_cons, is_alnum_lower, IH.
  by destruct (is_alnum c).
Qed.

(** X23. On ASCII input [normalize_key] keeps every letter and digit, in
    order and in lower case, and adds none; so the key is empty exactly when
    the input has no letter or digit. *)
Theorem normalize_key_keeps_alnums `{PyRuntime} (s : ustring) :
  forallb is_ascii s = true ->
  alnums (normalize_key s) = ascii_lower <$> alnums s
  /\ (normalize_key s = [] <-> alnums s = []).
Proof.
  intros Ha.
  assert (Heq : alnums (normalize_key s) = ascii_lower <$> alnums s).
  { unfold normalize_key. rewrite nfd_ascii, filter_not_Mn_ascii by done.
    set (k := sub_underscores _).
    assert (Hw : forallb is_word_char k = true)
      by apply sub_underscores_forallb, sub_non_alnum_word.
    assert (Hd : has_double_underscore k = false) by apply sub_underscores_no_double.
    destruct (strip_shape k Hw Hd) as (Hw' & _).
    rewrite lower_ascii by (eapply forallb_impl; [apply is_word_char_ascii|done]).
    rewrite alnums_lower, alnums_strip. unfold k.
    by rewrite alnums_sub_underscores, alnums_sub_non_alnum. }
  split; [exact Heq|]. split.
  - intros Hnil. rewrite Hnil in Heq. symmetry in Heq.
    by apply fmap_nil_inv in Heq.
  - intros Hnil. rewrite Hnil in Heq.
    destruct (normalize_key_normalized s) as (Hk & Hh & _).
    destruct (normalize_key s) as [|c t]; [reflexivity|]. exfalso.
    cbn [forallb] in Hk. apply andb_true_iff in Hk as [Hc _].
    rewrite alnums_cons in Heq. unfold is_key_char in Hc. unfold is_alnum in Heq.
    apply orb_true_iff in Hc as [[Hc|Hc]%orb_true_iff|Hc%N.eqb_eq].
    + rewrite Hc in Heq. discriminate.
    + rewrite Hc, !orb_true_r in Heq. discriminate.
    + apply Hh. cbn. by rewrite Hc.
Qed.

Lemma normalize_key_keeps_alnums_witness :
  alnums (@normalize_key fragment_runtime (u "NF-e: Status 2.0!"))
  = ascii_lower <$> alnums (u "NF-e: Status 2.0!").
Proof.
  apply (@normalize_key_keeps_alnums fragment_runtime). reflexivity.
Defined.
